(** * FinanceHub: the recurring-transaction scheduling engine

    A shallow embedding of the recurrence service of the FinanceHub backend
    (services/recurringTransactionService.ts, together with the Prisma-backed
    models models/transaction.ts and models/recurringTransaction.ts) and the
    properties of its occurrence policy, generation engine, scoped edit and
    scoped delete.

    Conventions of the embedding.
    - A JavaScript [Date] is its time value: an integer number of
      milliseconds since the epoch.  The local time zone is taken to be UTC
      without daylight saving, so that local and UTC fields coincide.
    - Calendar arithmetic follows ECMAScript: [Day], [TimeWithinDay],
      [MakeDay], [MakeDate] and the field accessors of the proleptic
      Gregorian calendar.  The legacy rule of the [Date] constructor that reads
      the years 0 to 99 as 1900 to 1999 is not modelled.
    - A date string of the wire format YYYY-MM-DD is the record of its three
      numbers; zero padding and the pattern tests on the text are not
      modelled.
    - The date columns of the database hold calendar days (every writer
      stores a UTC midnight), modelled as day numbers since the epoch.
    - A database table is the list of its rows, in insertion order.  An
      operation that throws is an outcome that carries the store reached
      at the moment of the throw. *)

From Stdlib Require Import ZArith List Bool Lia String Permutation Sorted.
Import ListNotations.
Local Open Scope Z_scope.

(** ** ECMAScript dates *)

Module JSDate.

Definition msPerDay : Z := 86400000.

Definition Day (t : Z) : Z := t / msPerDay.
Definition TimeWithinDay (t : Z) : Z := t mod msPerDay.
Definition MakeDate (day time : Z) : Z := day * msPerDay + time.

(** [MakeTime(h, m, s, ms)] *)
Definition MakeTime (h m s ms : Z) : Z := h * 3600000 + m * 60000 + s * 1000 + ms.

Definition isLeap (y : Z) : bool :=
  ((y mod 4 =? 0) && negb (y mod 100 =? 0)) || (y mod 400 =? 0).

(** [DayFromYear(y)]: the day number of the first of January of year [y]. *)
Definition DayFromYear (y : Z) : Z :=
  365 * (y - 1970) + (y - 1969) / 4 - (y - 1901) / 100 + (y - 1601) / 400.

Definition daysInMonth (y m : Z) : Z :=
  if m =? 1 then (if isLeap y then 29 else 28)
  else if (m =? 3) || (m =? 5) || (m =? 8) || (m =? 10) then 30
  else 31.

(** Days of the year that precede month [m] (0 is January). *)
Definition monthOffset (leap : bool) (m : Z) : Z :=
  let l := if leap then 1 else 0 in
  if m <=? 0 then 0
  else if m =? 1 then 31
  else if m =? 2 then 59 + l
  else if m =? 3 then 90 + l
  else if m =? 4 then 120 + l
  else if m =? 5 then 151 + l
  else if m =? 6 then 181 + l
  else if m =? 7 then 212 + l
  else if m =? 8 then 243 + l
  else if m =? 9 then 273 + l
  else if m =? 10 then 304 + l
  else 334 + l.

(** [MakeDay(year, month, date)]: months outside 0..11 carry into the year,
    and the date counts on from the first of the month, whatever its value. *)
Definition MakeDay (year month date : Z) : Z :=
  let ym := year + month / 12 in
  let mn := month mod 12 in
  DayFromYear ym + monthOffset (isLeap ym) mn + date - 1.

(** [YearFromTime]: the largest year whose first day is not after the day.
    The estimate from the mean length of the year is off by at most one. *)
Definition YearFromDay (n : Z) : Z :=
  let y0 := 1970 + (400 * n) / 146097 in
  if n <? DayFromYear y0 then y0 - 1
  else if DayFromYear (y0 + 1) <=? n then y0 + 1
  else y0.

Definition DayWithinYear (n : Z) : Z := n - DayFromYear (YearFromDay n).

(** [MonthFromTime]: by the table of the days of the year. *)
Definition MonthFromDay (n : Z) : Z :=
  let doy := DayWithinYear n in
  let l := if isLeap (YearFromDay n) then 1 else 0 in
  if doy <? 31 then 0
  else if doy <? 59 + l then 1
  else if doy <? 90 + l then 2
  else if doy <? 120 + l then 3
  else if doy <? 151 + l then 4
  else if doy <? 181 + l then 5
  else if doy <? 212 + l then 6
  else if doy <? 243 + l then 7
  else if doy <? 273 + l then 8
  else if doy <? 304 + l then 9
  else if doy <? 334 + l then 10
  else 11.

Definition DateFromDay (n : Z) : Z :=
  DayWithinYear n - monthOffset (isLeap (YearFromDay n)) (MonthFromDay n) + 1.

Definition YearFromTime (t : Z) : Z := YearFromDay (Day t).
Definition MonthFromTime (t : Z) : Z := MonthFromDay (Day t).
Definition DateFromTime (t : Z) : Z := DateFromDay (Day t).
Definition WeekDay (t : Z) : Z := (Day t + 4) mod 7.

(** The methods of [Date.prototype] used by the service. *)
Definition getFullYear := YearFromTime.
Definition getMonth := MonthFromTime.
Definition getDate := DateFromTime.
Definition getDay := WeekDay.
Definition getTime (t : Z) : Z := t.

Definition setDate (t dt : Z) : Z :=
  MakeDate (MakeDay (YearFromTime t) (MonthFromTime t) dt) (TimeWithinDay t).
Definition setMonth (t m : Z) : Z :=
  MakeDate (MakeDay (YearFromTime t) m (DateFromTime t)) (TimeWithinDay t).
Definition setFullYear (t y : Z) : Z :=
  MakeDate (MakeDay y (MonthFromTime t) (DateFromTime t)) (TimeWithinDay t).
Definition setHours (t h m s ms : Z) : Z :=
  MakeDate (Day t) (MakeTime h m s ms).

(** [new Date(year, monthIndex, day)] *)
Definition newDate (y m d : Z) : Z := MakeDate (MakeDay y m d) 0.

End JSDate.
Import JSDate.

(** *** The calendar fields and [MakeDay] are inverse to each other *)

Definition validYMD (y m d : Z) : Prop :=
  0 <= m < 12 /\ 1 <= d <= daysInMonth y m.

Lemma isLeap_cases (y : Z) :
  (isLeap y = true /\ (y mod 4 = 0 /\ y mod 100 <> 0 \/ y mod 400 = 0)) \/
  (isLeap y = false /\ (y mod 4 <> 0 \/ y mod 100 = 0) /\ y mod 400 <> 0).
Proof.
  unfold isLeap.
  destruct (Z.eqb_spec (y mod 4) 0), (Z.eqb_spec (y mod 100) 0),
    (Z.eqb_spec (y mod 400) 0); cbn; intuition lia.
Qed.

Lemma DayFromYear_succ (y : Z) :
  DayFromYear (y + 1) = DayFromYear y + 365 + (if isLeap y then 1 else 0).
Proof.
  destruct (isLeap_cases y) as [[-> H]|[-> H]]; unfold DayFromYear;
    Z.to_euclidean_division_equations; lia.
Qed.

Lemma DayFromYear_mono (y y' : Z) : y <= y' -> DayFromYear y <= DayFromYear y'.
Proof.
  intros H. replace y' with (y + (y' - y)) by lia.
  assert (Hk : 0 <= y' - y) by lia. revert Hk.
  generalize (y' - y). apply natlike_ind.
  - rewrite Z.add_0_r. lia.
  - intros k Hk IH. replace (y + Z.succ k) with (y + k + 1) by lia.
    rewrite DayFromYear_succ. destruct (isLeap (y + k)); lia.
Qed.

Lemma YearFromDay_spec (n : Z) :
  DayFromYear (YearFromDay n) <= n < DayFromYear (YearFromDay n + 1).
Proof.
  unfold YearFromDay.
  set (y0 := 1970 + 400 * n / 146097).
  assert (Hy0 : 146097 * (y0 - 1970) <= 400 * n < 146097 * (y0 - 1970) + 146097).
  { unfold y0. pose proof (Z.div_mod (400 * n) 146097 ltac:(lia)).
    pose proof (Z.mod_pos_bound (400 * n) 146097 ltac:(lia)). lia. }
  clearbody y0.
  destruct (Z.ltb_spec n (DayFromYear y0)).
  - replace (y0 - 1 + 1) with y0 by lia. split; [|lia].
    unfold DayFromYear in *. Z.to_euclidean_division_equations; lia.
  - destruct (Z.leb_spec (DayFromYear (y0 + 1)) n).
    + split; [lia|]. unfold DayFromYear in *.
      Z.to_euclidean_division_equations; lia.
    + lia.
Qed.

Lemma YearFromDay_unique (n y : Z) :
  DayFromYear y <= n < DayFromYear (y + 1) -> YearFromDay n = y.
Proof.
  intros H. pose proof (YearFromDay_spec n) as H0.
  destruct (Z.lt_trichotomy (YearFromDay n) y) as [Hlt|[Heq|Hgt]]; [|exact Heq|].
  - pose proof (DayFromYear_mono (YearFromDay n + 1) y ltac:(lia)). lia.
  - pose proof (DayFromYear_mono (y + 1) (YearFromDay n) ltac:(lia)). lia.
Qed.

Lemma DayWithinYear_bound (n : Z) :
  0 <= DayWithinYear n < 365 + (if isLeap (YearFromDay n) then 1 else 0).
Proof.
  unfold DayWithinYear. pose proof (YearFromDay_spec n).
  pose proof (DayFromYear_succ (YearFromDay n)). lia.
Qed.

Ltac bsimpl := cbv beta iota zeta delta [orb andb negb].

Ltac zbool :=
  repeat match goal with
  | |- context [?a <? ?b] => destruct (Z.ltb_spec a b)
  | |- context [?a <=? ?b] => destruct (Z.leb_spec a b)
  | |- context [?a =? ?b] => destruct (Z.eqb_spec a b)
  end.

Lemma MakeDay_in_range (y m d : Z) :
  0 <= m < 12 -> MakeDay y m d = DayFromYear y + monthOffset (isLeap y) m + d - 1.
Proof.
  intros Hm. unfold MakeDay.
  rewrite (Z.div_small m 12), (Z.mod_small m 12), Z.add_0_r by lia. reflexivity.
Qed.

Ltac eval_monthOffset :=
  repeat match goal with
  | |- context [monthOffset ?l ?m] =>
      let x := eval vm_compute in (monthOffset l m) in
      change (monthOffset l m) with x
  end.

Ltac month_cases m Hm :=
  let H := fresh in
  assert (H : m = 0 \/ m = 1 \/ m = 2 \/ m = 3 \/ m = 4 \/ m = 5 \/ m = 6 \/
              m = 7 \/ m = 8 \/ m = 9 \/ m = 10 \/ m = 11) by lia;
  clear Hm;
  repeat (destruct H as [H|H]; [subst m|]); [..|subst m].

Lemma civil_valid (n : Z) :
  validYMD (YearFromDay n) (MonthFromDay n) (DateFromDay n).
Proof.
  pose proof (DayWithinYear_bound n) as Hb.
  unfold validYMD, DateFromDay, MonthFromDay, daysInMonth.
  destruct (isLeap (YearFromDay n)); bsimpl; zbool; eval_monthOffset;
    zbool; bsimpl; lia.
Qed.

Lemma MakeDay_civil (n : Z) :
  MakeDay (YearFromDay n) (MonthFromDay n) (DateFromDay n) = n.
Proof.
  destruct (civil_valid n) as [Hm _].
  rewrite MakeDay_in_range by exact Hm.
  unfold DateFromDay, DayWithinYear. lia.
Qed.

Lemma monthOffset_date_bound (y m d : Z) :
  validYMD y m d ->
  0 <= monthOffset (isLeap y) m + d - 1 < 365 + (if isLeap y then 1 else 0).
Proof.
  unfold validYMD, daysInMonth.
  intros [Hm Hd]. revert Hd. month_cases m Hm;
    destruct (isLeap y); eval_monthOffset; zbool; bsimpl; lia.
Qed.

Lemma civil_MakeDay (y m d : Z) :
  validYMD y m d ->
  YearFromDay (MakeDay y m d) = y /\
  MonthFromDay (MakeDay y m d) = m /\
  DateFromDay (MakeDay y m d) = d.
Proof.
  intros Hv. pose proof (monthOffset_date_bound y m d Hv) as Hb.
  destruct Hv as [Hm Hd]. rewrite MakeDay_in_range by exact Hm.
  set (n := DayFromYear y + monthOffset (isLeap y) m + d - 1) in *.
  assert (Hy : YearFromDay n = y).
  { apply YearFromDay_unique. pose proof (DayFromYear_succ y).
    unfold n. lia. }
  assert (Hdoy : DayWithinYear n = monthOffset (isLeap y) m + d - 1).
  { unfold DayWithinYear. rewrite Hy. unfold n. lia. }
  assert (Hmo : MonthFromDay n = m).
  { unfold MonthFromDay. rewrite Hdoy, Hy. clear Hdoy Hy Hb. subst n.
    revert Hd. unfold daysInMonth.
    month_cases m Hm; destruct (isLeap y); eval_monthOffset; bsimpl;
      repeat match goal with
      | |- context [if ?a <? ?b then _ else _] =>
          destruct (Z.ltb_spec a b); [zbool; bsimpl; lia|]
      end; zbool; bsimpl; lia. }
  split; [exact Hy|]. split; [exact Hmo|].
  unfold DateFromDay. rewrite Hdoy, Hy, Hmo. lia.
Qed.

(** *** Consequences for the [Date] methods *)

Lemma Day_MakeDate (d tm : Z) : 0 <= tm < msPerDay -> Day (MakeDate d tm) = d.
Proof.
  unfold Day, MakeDate, msPerDay. intros H.
  Z.to_euclidean_division_equations; lia.
Qed.

Lemma TimeWithinDay_MakeDate (d tm : Z) :
  0 <= tm < msPerDay -> TimeWithinDay (MakeDate d tm) = tm.
Proof.
  unfold TimeWithinDay, MakeDate, msPerDay. intros H.
  Z.to_euclidean_division_equations; lia.
Qed.

Lemma TimeWithinDay_bound (t : Z) : 0 <= TimeWithinDay t < msPerDay.
Proof. unfold TimeWithinDay, msPerDay. apply Z.mod_pos_bound. lia. Qed.

Lemma MakeDate_Day (t : Z) : MakeDate (Day t) (TimeWithinDay t) = t.
Proof.
  unfold MakeDate, Day, TimeWithinDay, msPerDay.
  Z.to_euclidean_division_equations; lia.
Qed.

Lemma MakeDay_fields (t : Z) :
  MakeDay (YearFromTime t) (MonthFromTime t) (DateFromTime t) = Day t.
Proof. apply MakeDay_civil. Qed.

Lemma MakeDay_date_shift (y m d k : Z) : MakeDay y m (d + k) = MakeDay y m d + k.
Proof. unfold MakeDay. lia. Qed.

(** [d.setDate(d.getDate() + k)] moves a date by [k] whole days. *)
Lemma setDate_shift (t k : Z) : setDate t (getDate t + k) = t + k * msPerDay.
Proof.
  unfold setDate, getDate. rewrite MakeDay_date_shift, MakeDay_fields.
  pose proof (MakeDate_Day t). unfold MakeDate in *. lia.
Qed.

Lemma Day_shift (t k : Z) : Day (t + k * msPerDay) = Day t + k.
Proof. unfold Day, msPerDay. Z.to_euclidean_division_equations; lia. Qed.

Lemma Day_mono (a b : Z) : a <= b -> Day a <= Day b.
Proof. unfold Day, msPerDay. intros H. Z.to_euclidean_division_equations; lia. Qed.

(** ** The data model *)

Definition Id := nat.

Inductive TransactionType := income | expense.
Inductive FrequencyType := daily | weekly | monthly | yearly.

(** [EditScope] and [DeleteScope]: the three scopes of the type, and any
    other value a caller may pass at run time. *)
Inductive Scope := single | future | all | otherScope.

(** A date string YYYY-MM-DD, months counted from 1. *)
Record DateString := mkDateString { ds_year : Z; ds_month : Z; ds_day : Z }.

(** A row of the table of recurring transactions.  The dates are calendar
    days; the amount is the number the service copies around. *)
Record RecurringTransaction := mkRecurring {
  rt_id : Id;
  rt_userId : Id;
  rt_categoryId : Id;
  rt_amount : Z;
  rt_type : TransactionType;
  rt_description : option string;
  rt_frequency : FrequencyType;
  rt_startDate : Z;
  rt_endDate : option Z;
  rt_nextOccurrence : Z;
  rt_isActive : bool
}.

(** A row of the table of transactions. *)
Record Transaction := mkTransaction {
  tx_id : Id;
  tx_userId : Id;
  tx_categoryId : Id;
  tx_amount : Z;
  tx_type : TransactionType;
  tx_description : option string;
  tx_date : Z;
  tx_recurringTransactionId : option Id;
  tx_isOverride : bool
}.

(** What the service writes to the console. *)
Inductive LogEvent :=
| ErrorCreateFailed (recurringId : Id) (message : string)
| WarnCatchUpLimit (recurringId : Id) (limit : nat) (stoppedAt : DateString).

(** The database (the referenced users and categories, and the two tables
    of the engine) and the console. *)
Record Store := mkStore {
  users : list Id;
  categories : list Id;
  recurringTransactions : list RecurringTransaction;
  transactions : list Transaction;
  console : list LogEvent
}.

Definition set_recurringTransactions (st : Store) (l : list RecurringTransaction) : Store :=
  mkStore (users st) (categories st) l (transactions st) (console st).
Definition set_transactions (st : Store) (l : list Transaction) : Store :=
  mkStore (users st) (categories st) (recurringTransactions st) l (console st).
Definition log (st : Store) (e : LogEvent) : Store :=
  mkStore (users st) (categories st) (recurringTransactions st) (transactions st)
          (console st ++ [e]).

(** An awaited call either returns, or throws an [Error] with a message; both
    leave a store behind. *)
Inductive Outcome (A : Type) :=
| Return (st : Store) (a : A)
| Throw (st : Store) (message : string).
Arguments Return {A} st a.
Arguments Throw {A} st message.

Definition bind {A B : Type} (m : Outcome A) (k : Store -> A -> Outcome B) : Outcome B :=
  match m with
  | Return st a => k st a
  | Throw st msg => Throw st msg
  end.

Notation "'let*' ( st , x ) := m 'in' k" :=
  (bind m (fun st x => k))
  (at level 10, st name, x name, m at level 100, k at level 200).

Definition storeOf {A : Type} (m : Outcome A) : Store :=
  match m with Return st _ => st | Throw st _ => st end.

(** Reading a date column as a [Date], and the day a [Date] is stored as. *)
Definition ofDay (d : Z) : Z := MakeDate d 0.

(** [new Date("YYYY-MM-DD")] and [Date.UTC(y, m - 1, d)]: midnight of the day. *)
Definition parseDate (s : DateString) : Z :=
  newDate (ds_year s) (ds_month s - 1) (ds_day s).

Definition mem (i : Id) (l : list Id) : bool := existsb (Nat.eqb i) l.

(** The database generates a fresh key for a new row. *)
Definition freshId (l : list Id) : Id := S (list_max l).

(** [x || null] on a string: the empty string is falsy. *)
Definition orNull (d : option string) : option string :=
  match d with
  | Some EmptyString => None
  | _ => d
  end.

Definition dayOfString (s : DateString) : Z := Day (parseDate s).

Definition eqOptId (a b : option Id) : bool :=
  match a, b with
  | Some x, Some y => Nat.eqb x y
  | None, None => true
  | _, _ => false
  end.

(** [update] and [delete] with [where: { id }]: the row of that key. *)
Section Rows.
Context {A : Type} (key : A -> Id).

Definition findRow (i : Id) (l : list A) : option A :=
  find (fun x => Nat.eqb (key x) i) l.

Fixpoint updateRow (i : Id) (f : A -> A) (l : list A) : list A :=
  match l with
  | [] => []
  | x :: l' => if Nat.eqb (key x) i then f x :: l' else x :: updateRow i f l'
  end.

Fixpoint deleteRow (i : Id) (l : list A) : list A :=
  match l with
  | [] => []
  | x :: l' => if Nat.eqb (key x) i then l' else x :: deleteRow i l'
  end.
End Rows.

(** ** models/transaction.ts *)

Module TransactionModel.

Record CreateTransactionInput := mkCreateTransactionInput {
  cti_userId : Id;
  cti_categoryId : Id;
  cti_amount : Z;
  cti_type : TransactionType;
  cti_description : option string;
  cti_date : DateString;
  cti_recurringTransactionId : option Id;
  cti_isOverride : option bool
}.

(** An absent field is [None]; a field that may be set to null is doubly
    optional. *)
Record UpdateTransactionInput := mkUpdateTransactionInput {
  uti_categoryId : option Id;
  uti_amount : option Z;
  uti_type : option TransactionType;
  uti_description : option (option string);
  uti_date : option DateString;
  uti_recurringTransactionId : option (option Id);
  uti_isOverride : option bool
}.

(** Modelled from the spec: the Prisma schema is not part of the sources.
    A transaction refers to its owner, to its category and, weakly, to the
    recurring transaction it comes from; a write with a dangling reference
    is refused by the database. *)
Definition referencesHold (st : Store) (user category : Id) (recurring : option Id) : bool :=
  mem user (users st) && mem category (categories st) &&
  match recurring with
  | Some r => mem r (map rt_id (recurringTransactions st))
  | None => true
  end.

Definition getTransactionById (i : Id) (st : Store) : option Transaction :=
  findRow tx_id i (transactions st).

Definition createTransaction (input : CreateTransactionInput) (st : Store)
  : Outcome Transaction :=
  let dateObj := parseDate (cti_date input) in
  let row :=
    mkTransaction (freshId (map tx_id (transactions st)))
      (cti_userId input) (cti_categoryId input) (cti_amount input) (cti_type input)
      (orNull (cti_description input)) (Day dateObj)
      (cti_recurringTransactionId input)
      (match cti_isOverride input with Some b => b | None => false end) in
  if referencesHold st (tx_userId row) (tx_categoryId row) (tx_recurringTransactionId row)
  then Return (set_transactions st (transactions st ++ [row])) row
  else Throw st "Foreign key constraint failed".

Definition noTransactionUpdate (input : UpdateTransactionInput) : bool :=
  match uti_categoryId input, uti_amount input, uti_type input, uti_description input,
        uti_date input, uti_recurringTransactionId input, uti_isOverride input with
  | None, None, None, None, None, None, None => true
  | _, _, _, _, _, _, _ => false
  end.

Definition orElse {A : Type} (o : option A) (d : A) : A :=
  match o with Some x => x | None => d end.

Definition applyTransactionUpdate (input : UpdateTransactionInput) (t : Transaction)
  : Transaction :=
  mkTransaction (tx_id t) (tx_userId t)
    (orElse (uti_categoryId input) (tx_categoryId t))
    (orElse (uti_amount input) (tx_amount t))
    (orElse (uti_type input) (tx_type t))
    (orElse (uti_description input) (tx_description t))
    (match uti_date input with Some s => Day (parseDate s) | None => tx_date t end)
    (orElse (uti_recurringTransactionId input) (tx_recurringTransactionId t))
    (orElse (uti_isOverride input) (tx_isOverride t)).

(** Modelled from the spec: an update checks the references it writes. *)
Definition writtenReferencesHold (st : Store) (input : UpdateTransactionInput) : bool :=
  match uti_categoryId input with
  | Some c => mem c (categories st)
  | None => true
  end &&
  match uti_recurringTransactionId input with
  | Some (Some r) => mem r (map rt_id (recurringTransactions st))
  | _ => true
  end.

Definition updateTransaction (i : Id) (input : UpdateTransactionInput) (st : Store)
  : Outcome (option Transaction) :=
  if noTransactionUpdate input then Return st (getTransactionById i st)
  else
    match getTransactionById i st with
    | None => Throw st "Record to update not found"
    | Some t =>
        let t' := applyTransactionUpdate input t in
        if writtenReferencesHold st input
        then Return (set_transactions st
                       (updateRow tx_id i (applyTransactionUpdate input) (transactions st)))
                    (Some t')
        else Throw st "Foreign key constraint failed"
    end.

Definition deleteTransaction (i : Id) (st : Store) : Outcome bool :=
  match getTransactionById i st with
  | None => Throw st "Record to delete does not exist"
  | Some _ => Return (set_transactions st (deleteRow tx_id i (transactions st))) true
  end.

(** The lists.  The table holds its rows in the order of their creation,
    so among rows with the same sort key [createdAt: 'desc'] puts the row
    that comes later in the table first. *)

(** [orderBy: [{ date: 'desc' }, { createdAt: 'desc' }]] *)
Fixpoint insertByDate (t : Transaction) (l : list Transaction) : list Transaction :=
  match l with
  | [] => [t]
  | x :: l' => if tx_date x <? tx_date t then t :: l else x :: insertByDate t l'
  end.

Definition orderByDate (l : list Transaction) : list Transaction :=
  fold_right insertByDate [] l.

Definition eqType (a b : TransactionType) : bool :=
  match a, b with
  | income, income | expense, expense => true
  | _, _ => false
  end.

(** The [where] clause of [getAllTransactions]: an argument that is left out
    does not filter. *)
Definition transactionMatches (userId : option Id) (type : option TransactionType)
  (categoryId : option Id) (startDate endDate : option DateString) (t : Transaction)
  : bool :=
  match userId with Some u => Nat.eqb (tx_userId t) u | None => true end &&
  match type with Some ty => eqType (tx_type t) ty | None => true end &&
  match categoryId with Some c => Nat.eqb (tx_categoryId t) c | None => true end &&
  match startDate with Some s => parseDate s <=? ofDay (tx_date t) | None => true end &&
  match endDate with Some e => ofDay (tx_date t) <=? parseDate e | None => true end.

Definition getAllTransactions (userId : option Id) (type : option TransactionType)
  (categoryId : option Id) (startDate endDate : option DateString) (st : Store)
  : list Transaction :=
  orderByDate
    (filter (transactionMatches userId type categoryId startDate endDate)
       (transactions st)).

Definition getTransactionsByUserId (userId : Id) (st : Store) : list Transaction :=
  orderByDate (filter (fun t => Nat.eqb (tx_userId t) userId) (transactions st)).

End TransactionModel.

(** ** models/recurringTransaction.ts

    The inputs of this model have the keys [user_id], [category_id],
    [start_date], [end_date], [next_occurrence] and [is_active] besides
    [amount], [type], [description] and [frequency]; the fields of the two
    input records below stand for these keys, under the names of the
    columns that they fill. *)

Module RecurringTransactionModel.

Record CreateRecurringTransactionInput := mkCreateRecurringInput {
  cri_userId : Id;
  cri_categoryId : Id;
  cri_amount : Z;
  cri_type : TransactionType;
  cri_description : option string;
  cri_frequency : FrequencyType;
  cri_startDate : DateString;
  cri_endDate : option DateString;
  cri_nextOccurrence : DateString;
  cri_isActive : option bool
}.

Record UpdateRecurringTransactionInput := mkUpdateRecurringInput {
  uri_categoryId : option Id;
  uri_amount : option Z;
  uri_type : option TransactionType;
  uri_description : option (option string);
  uri_frequency : option FrequencyType;
  uri_startDate : option DateString;
  uri_endDate : option (option DateString);
  uri_nextOccurrence : option DateString;
  uri_isActive : option bool
}.

Definition noUpdate : UpdateRecurringTransactionInput :=
  mkUpdateRecurringInput None None None None None None None None None.

Definition getRecurringTransactionById (i : Id) (st : Store) : option RecurringTransaction :=
  findRow rt_id i (recurringTransactions st).

(** [orderBy: { nextOccurrence: 'asc' }]: rows with equal keys keep their
    order. *)
Fixpoint insertByNext (r : RecurringTransaction) (l : list RecurringTransaction)
  : list RecurringTransaction :=
  match l with
  | [] => [r]
  | x :: l' =>
      if rt_nextOccurrence r <? rt_nextOccurrence x then r :: l
      else x :: insertByNext r l'
  end.

Definition orderByNext (l : list RecurringTransaction) : list RecurringTransaction :=
  fold_right insertByNext [] l.

Definition isDue (dateObj : Z) (r : RecurringTransaction) : bool :=
  rt_isActive r && (ofDay (rt_nextOccurrence r) <=? dateObj) &&
  match rt_endDate r with
  | None => true
  | Some e => dateObj <=? ofDay e
  end.

Definition getDueRecurringTransactions (date : DateString) (st : Store)
  : list RecurringTransaction :=
  let dateObj := parseDate date in
  orderByNext (filter (isDue dateObj) (recurringTransactions st)).

(** Modelled from the spec: the Prisma schema is not part of the sources.
    A recurring transaction refers to its owner and to its category. *)
Definition referencesHold (st : Store) (user category : Id) : bool :=
  mem user (users st) && mem category (categories st).

Definition createRecurringTransaction (input : CreateRecurringTransactionInput)
  (st : Store) : Outcome RecurringTransaction :=
  let row :=
    mkRecurring (freshId (map rt_id (recurringTransactions st)))
      (cri_userId input) (cri_categoryId input) (cri_amount input) (cri_type input)
      (orNull (cri_description input)) (cri_frequency input)
      (Day (parseDate (cri_startDate input)))
      (option_map (fun s => Day (parseDate s)) (cri_endDate input))
      (Day (parseDate (cri_nextOccurrence input)))
      (match cri_isActive input with Some b => b | None => true end) in
  if referencesHold st (rt_userId row) (rt_categoryId row)
  then Return (set_recurringTransactions st (recurringTransactions st ++ [row])) row
  else Throw st "Foreign key constraint failed".

Definition isNoUpdate (input : UpdateRecurringTransactionInput) : bool :=
  match uri_categoryId input, uri_amount input, uri_type input, uri_description input,
        uri_frequency input, uri_startDate input, uri_endDate input,
        uri_nextOccurrence input, uri_isActive input with
  | None, None, None, None, None, None, None, None, None => true
  | _, _, _, _, _, _, _, _, _ => false
  end.

Definition applyUpdate (input : UpdateRecurringTransactionInput) (r : RecurringTransaction)
  : RecurringTransaction :=
  mkRecurring (rt_id r) (rt_userId r)
    (TransactionModel.orElse (uri_categoryId input) (rt_categoryId r))
    (TransactionModel.orElse (uri_amount input) (rt_amount r))
    (TransactionModel.orElse (uri_type input) (rt_type r))
    (TransactionModel.orElse (uri_description input) (rt_description r))
    (TransactionModel.orElse (uri_frequency input) (rt_frequency r))
    (match uri_startDate input with Some s => Day (parseDate s) | None => rt_startDate r end)
    (match uri_endDate input with
     | Some e => option_map (fun s => Day (parseDate s)) e
     | None => rt_endDate r
     end)
    (match uri_nextOccurrence input with
     | Some s => Day (parseDate s)
     | None => rt_nextOccurrence r
     end)
    (TransactionModel.orElse (uri_isActive input) (rt_isActive r)).

(** Modelled from the spec: an update checks the references it writes. *)
Definition writtenReferencesHold (st : Store) (input : UpdateRecurringTransactionInput)
  : bool :=
  match uri_categoryId input with
  | Some c => mem c (categories st)
  | None => true
  end.

Definition updateRecurringTransaction (i : Id) (input : UpdateRecurringTransactionInput)
  (st : Store) : Outcome (option RecurringTransaction) :=
  if isNoUpdate input then Return st (getRecurringTransactionById i st)
  else
    match getRecurringTransactionById i st with
    | None => Throw st "Record to update not found"
    | Some r =>
        let r' := applyUpdate input r in
        if writtenReferencesHold st input
        then Return (set_recurringTransactions st
                       (updateRow rt_id i (applyUpdate input) (recurringTransactions st)))
                    (Some r')
        else Throw st "Foreign key constraint failed"
    end.

(** Modelled from the spec: the Prisma schema is not part of the sources.
    Deleting a series keeps its ledger entries and clears their
    back-reference (onDelete: SetNull). *)
Definition clearBackReference (i : Id) (t : Transaction) : Transaction :=
  if eqOptId (tx_recurringTransactionId t) (Some i)
  then mkTransaction (tx_id t) (tx_userId t) (tx_categoryId t) (tx_amount t) (tx_type t)
         (tx_description t) (tx_date t) None (tx_isOverride t)
  else t.

Definition deleteRecurringTransaction (i : Id) (st : Store) : Outcome bool :=
  match getRecurringTransactionById i st with
  | None => Throw st "Record to delete does not exist"
  | Some _ =>
      Return (mkStore (users st) (categories st)
                (deleteRow rt_id i (recurringTransactions st))
                (map (clearBackReference i) (transactions st))
                (console st))
             true
  end.

(** [orderBy: [{ nextOccurrence: 'asc' }, { createdAt: 'desc' }]] is
    [orderByNext]. *)
Definition recurringMatches (user_id : option Id) (is_active : option bool)
  (r : RecurringTransaction) : bool :=
  match user_id with Some u => Nat.eqb (rt_userId r) u | None => true end &&
  match is_active with Some b => Bool.eqb (rt_isActive r) b | None => true end.

Definition getAllRecurringTransactions (user_id : option Id) (is_active : option bool)
  (st : Store) : list RecurringTransaction :=
  orderByNext (filter (recurringMatches user_id is_active) (recurringTransactions st)).

Definition getRecurringTransactionsByUserId (user_id : Id) (st : Store)
  : list RecurringTransaction :=
  orderByNext (filter (fun r => Nat.eqb (rt_userId r) user_id) (recurringTransactions st)).

End RecurringTransactionModel.

(** ** services/recurringTransactionService.ts *)

(** *** The occurrence policy *)

Definition calculateNextOccurrence (currentDate : Z) (frequency : FrequencyType) : Z :=
  let next := currentDate in
  match frequency with
  | daily => setDate next (getDate next + 1)
  | weekly => setDate next (getDate next + 7)
  | monthly => setMonth next (getMonth next + 1)
  | yearly => setFullYear next (getFullYear next + 1)
  end.

Definition getPreviousDay (date : Z) : Z :=
  let prev := date in
  setDate prev (getDate prev - 1).

Definition formatDateToString (date : Z) : DateString :=
  mkDateString (getFullYear date) (getMonth date + 1) (getDate date).

(** The argument [recurring] of the policy functions. *)
Record Recurrence := mkRecurrence {
  startDate : Z;
  endDate : option Z;
  frequency : FrequencyType
}.

(** [endDate && a > endDate] *)
Definition afterEnd (a : Z) (endDate : option Z) : bool :=
  match endDate with
  | Some e => e <? a
  | None => false
  end.

Definition isDateValidOccurrence (date : Z) (recurring : Recurrence) : bool :=
  let checkDate := setHours date 0 0 0 0 in
  let startDate := setHours (startDate recurring) 0 0 0 0 in
  let endDate := option_map (fun e => setHours e 23 59 59 999) (endDate recurring) in
  if checkDate <? startDate then false
  else if afterEnd checkDate endDate then false
  else
    match frequency recurring with
    | daily => true
    | weekly =>
        if negb (getDay checkDate =? getDay startDate) then false
        else
          let daysDiff := (getTime checkDate - getTime startDate) / (1000 * 60 * 60 * 24) in
          (0 <=? daysDiff) && (Z.rem daysDiff 7 =? 0)
    | monthly =>
        let startDay := getDate startDate in
        let checkDay := getDate checkDate in
        if 28 <? startDay then
          let lastDayOfMonth :=
            getDate (newDate (getFullYear checkDate) (getMonth checkDate + 1) 0) in
          checkDay =? Z.min startDay lastDayOfMonth
        else checkDay =? startDay
    | yearly =>
        if (getMonth startDate =? 1) && (getDate startDate =? 29) then
          let isLeapYear := fun year =>
            ((Z.rem year 4 =? 0) && negb (Z.rem year 100 =? 0)) || (Z.rem year 400 =? 0) in
          if getMonth checkDate =? 1 then
            if isLeapYear (getFullYear checkDate) then getDate checkDate =? 29
            else getDate checkDate =? 28
          else false
        else
          (getMonth checkDate =? getMonth startDate) &&
          (getDate checkDate =? getDate startDate)
    end.

(** The loop of [findNextValidOccurrence], on the iterations that are left. *)
Fixpoint findNextValidLoop (recurring : Recurrence) (endDate : option Z)
  (iterationsLeft : nat) (checkDate : Z) : option Z :=
  match iterationsLeft with
  | O => None
  | S rest =>
      if isDateValidOccurrence checkDate recurring then Some checkDate
      else
        let nextDate := calculateNextOccurrence checkDate (frequency recurring) in
        if afterEnd nextDate endDate then None
        else if nextDate <=? checkDate then None
        else findNextValidLoop recurring endDate rest nextDate
  end.

Definition findNextValidOccurrence (currentDate : Z) (recurring : Recurrence)
  (maxIterations : nat) : option Z :=
  let checkDate := setHours currentDate 0 0 0 0 in
  let startDate := setHours (startDate recurring) 0 0 0 0 in
  let endDate := option_map (fun e => setHours e 23 59 59 999) (endDate recurring) in
  let checkDate := if checkDate <? startDate then startDate else checkDate in
  if afterEnd checkDate endDate then None
  else findNextValidLoop recurring endDate maxIterations checkDate.

Definition defaultMaxIterations : nat := 100.

(** *** Scoped edit and scoped delete *)

Import TransactionModel RecurringTransactionModel.

(** **** The objects handed to the series model

    The service writes the objects that it hands to the series model with
    the keys [userId], [categoryId], [startDate], [endDate], [nextOccurrence]
    and [isActive].  The model reads [user_id], [category_id], [start_date],
    [end_date], [next_occurrence] and [is_active], finds none of them, and
    takes them for undefined; only [amount], [type], [description] and
    [frequency] are written and read under the same key. *)
Record SeriesObject := mkSeriesObject {
  obj_userId : option Id;
  obj_categoryId : option Id;
  obj_amount : option Z;
  obj_type : option TransactionType;
  obj_description : option (option string);
  obj_frequency : option FrequencyType;
  obj_startDate : option DateString;
  obj_endDate : option (option DateString);
  obj_nextOccurrence : option DateString;
  obj_isActive : option bool
}.

(** What [updateRecurringTransaction] reads in such an object:
    [input.category_id], [input.amount], [input.type], [input.description],
    [input.frequency], [input.start_date], [input.end_date],
    [input.next_occurrence] and [input.is_active]. *)
Definition readUpdateInput (o : SeriesObject) : UpdateRecurringTransactionInput :=
  mkUpdateRecurringInput None (obj_amount o) (obj_type o) (obj_description o)
    (obj_frequency o) None None None None.

(** What [createRecurringTransaction] reads in an input, key by key; a key
    that the input does not carry is undefined. *)
Record CreateKeys := mkCreateKeys {
  key_user_id : option Id;
  key_category_id : option Id;
  key_amount : option Z;
  key_type : option TransactionType;
  key_description : option string;
  key_frequency : option FrequencyType;
  key_start_date : option DateString;
  key_end_date : option DateString;
  key_next_occurrence : option DateString;
  key_is_active : option bool
}.

Definition readCreateInput (o : SeriesObject) : CreateKeys :=
  mkCreateKeys None None (obj_amount o) (obj_type o)
    (match obj_description o with Some d => d | None => None end)
    (obj_frequency o) None None None None.

(** [createRecurringTransaction] on the keys read.  With every key of a
    required column it is the function of the model.  Without [user_id] or
    [category_id] the row has no owner or no category, and without
    [start_date] or [next_occurrence] its dates are [new Date(undefined)]:
    the database refuses such a row.  Modelled from the spec: the Prisma
    schema, which says which columns are required, is not part of the
    sources. *)
Definition createRecurringTransactionFrom (k : CreateKeys) (st : Store)
  : Outcome RecurringTransaction :=
  match key_user_id k, key_category_id k, key_amount k, key_type k, key_frequency k,
        key_start_date k, key_next_occurrence k with
  | Some u, Some c, Some a, Some t, Some f, Some s, Some n =>
      createRecurringTransaction
        (mkCreateRecurringInput u c a t (key_description k) f s (key_end_date k) n
           (key_is_active k)) st
  | _, _, _, _, _, _, _ =>
      Throw st "Invalid prisma.recurringTransaction.create() invocation"
  end.

(** The object literals [{ endDate: .. }] and [{ nextOccurrence: .. }]. *)
Definition setEndDate (s : DateString) : SeriesObject :=
  mkSeriesObject None None None None None None None (Some (Some s)) None None.

Definition setNextOccurrence (s : DateString) : SeriesObject :=
  mkSeriesObject None None None None None None None None (Some s) None.

(** The argument [updates] of [editRecurringTransaction]. *)
Record SeriesUpdates := mkUpdates {
  up_categoryId : option Id;
  up_amount : option Z;
  up_type : option TransactionType;
  up_description : option (option string);
  up_frequency : option FrequencyType;
  up_endDate : option (option DateString);
  up_isActive : option bool
}.

Record EditResult := mkEditResult {
  recurringTransaction : option RecurringTransaction;
  newRecurringTransaction : option RecurringTransaction
}.

Record DeleteResult := mkDeleteResult { deleted : bool }.

(** [prisma.transaction.findFirst] for the entry of a series on one day. *)
Definition findOnDay (userId recurringTransactionId : Id) (startOfDay endOfDay : Z)
  (st : Store) : option Transaction :=
  find (fun t =>
          Nat.eqb (tx_userId t) userId &&
          (startOfDay <=? ofDay (tx_date t)) && (ofDay (tx_date t) <=? endOfDay) &&
          eqOptId (tx_recurringTransactionId t) (Some recurringTransactionId))
       (transactions st).

Definition editRecurringTransaction (recurringTransactionId : Id)
  (effectiveDate : DateString) (scope : Scope) (updates : SeriesUpdates) (st : Store)
  : Outcome EditResult :=
  let effectiveDateObj :=
    setHours (newDate (ds_year effectiveDate) (ds_month effectiveDate - 1)
                      (ds_day effectiveDate)) 0 0 0 0 in
  match getRecurringTransactionById recurringTransactionId st with
  | None => Throw st "Recurring transaction not found"
  | Some existing =>
      let startDate := setHours (ofDay (rt_startDate existing)) 0 0 0 0 in
      let endDate :=
        option_map (fun e => setHours (ofDay e) 23 59 59 999) (rt_endDate existing) in
      if effectiveDateObj <? startDate then
        Throw st "Effective date cannot be before the recurring transaction start date"
      else if afterEnd effectiveDateObj endDate then
        Throw st "Effective date cannot be after the recurring transaction end date"
      else
        match scope with
        | single =>
            let startOfDay := setHours effectiveDateObj 0 0 0 0 in
            let endOfDay := setHours effectiveDateObj 23 59 59 999 in
            let existingTransaction :=
              findOnDay (rt_userId existing) recurringTransactionId startOfDay endOfDay st in
            let categoryId := orElse (up_categoryId updates) (rt_categoryId existing) in
            let amount := orElse (up_amount updates) (rt_amount existing) in
            let type := orElse (up_type updates) (rt_type existing) in
            let description :=
              orElse (up_description updates) (rt_description existing) in
            match existingTransaction with
            | Some t =>
                let* (st1, _) :=
                  updateTransaction (tx_id t)
                    (mkUpdateTransactionInput (Some categoryId) (Some amount) (Some type)
                       (Some description) (Some effectiveDate)
                       (Some (Some recurringTransactionId)) (Some true)) st in
                Return st1 (mkEditResult (Some existing) None)
            | None =>
                let* (st1, _) :=
                  createTransaction
                    (mkCreateTransactionInput (rt_userId existing) categoryId amount type
                       description effectiveDate (Some recurringTransactionId) (Some true))
                    st in
                Return st1 (mkEditResult (Some existing) None)
            end
        | future =>
            let previousDay := getPreviousDay effectiveDateObj in
            let* (st1, _) :=
              updateRecurringTransaction recurringTransactionId
                (readUpdateInput (setEndDate (formatDateToString previousDay))) st in
            let newFrequency := orElse (up_frequency updates) (rt_frequency existing) in
            let newNextOccurrence := calculateNextOccurrence effectiveDateObj newFrequency in
            let* (st2, newRecurring) :=
              createRecurringTransactionFrom
                (readCreateInput
                   (mkSeriesObject
                      (Some (rt_userId existing))
                      (Some (orElse (up_categoryId updates) (rt_categoryId existing)))
                      (Some (orElse (up_amount updates) (rt_amount existing)))
                      (Some (orElse (up_type updates) (rt_type existing)))
                      (Some (orElse (up_description updates) (rt_description existing)))
                      (Some newFrequency)
                      (Some effectiveDate)
                      (Some (match up_endDate updates with
                             | Some (Some e) => Some e
                             | _ => None
                             end))
                      (Some (formatDateToString newNextOccurrence))
                      (Some (orElse (up_isActive updates) (rt_isActive existing)))))
                st1 in
            let updatedOriginal := getRecurringTransactionById recurringTransactionId st2 in
            Return st2 (mkEditResult updatedOriginal (Some newRecurring))
        | all =>
            let updateData :=
              mkSeriesObject None (up_categoryId updates) (up_amount updates)
                (up_type updates) (up_description updates) (up_frequency updates) None
                (up_endDate updates)
                (match up_frequency updates with
                 | Some f =>
                     let currentNext := ofDay (rt_nextOccurrence existing) in
                     Some (formatDateToString (calculateNextOccurrence currentNext f))
                 | None => None
                 end)
                (up_isActive updates) in
            let* (st1, updated) :=
              updateRecurringTransaction recurringTransactionId
                (readUpdateInput updateData) st in
            Return st1 (mkEditResult updated None)
        | otherScope => Throw st "Invalid scope"
        end
  end.

Definition deleteRecurringTransaction (recurringTransactionId : Id)
  (effectiveDate : DateString) (scope : Scope) (st : Store) : Outcome DeleteResult :=
  let effectiveDateObj :=
    setHours (newDate (ds_year effectiveDate) (ds_month effectiveDate - 1)
                      (ds_day effectiveDate)) 0 0 0 0 in
  match getRecurringTransactionById recurringTransactionId st with
  | None => Throw st "Recurring transaction not found"
  | Some existing =>
      let startDate := setHours (ofDay (rt_startDate existing)) 0 0 0 0 in
      let endDate :=
        option_map (fun e => setHours (ofDay e) 23 59 59 999) (rt_endDate existing) in
      if effectiveDateObj <? startDate then
        Throw st "Effective date cannot be before the recurring transaction start date"
      else if afterEnd effectiveDateObj endDate then
        Throw st "Effective date cannot be after the recurring transaction end date"
      else
        match scope with
        | single =>
            let startOfDay := setHours effectiveDateObj 0 0 0 0 in
            let endOfDay := setHours effectiveDateObj 23 59 59 999 in
            let existingTransaction :=
              findOnDay (rt_userId existing) recurringTransactionId startOfDay endOfDay st in
            match existingTransaction with
            | Some t =>
                let* (st1, _) := deleteTransaction (tx_id t) st in
                Return st1 (mkDeleteResult false)
            | None => Return st (mkDeleteResult false)
            end
        | future =>
            let previousDay := getPreviousDay effectiveDateObj in
            let* (st1, _) :=
              updateRecurringTransaction recurringTransactionId
                (readUpdateInput (setEndDate (formatDateToString previousDay))) st in
            Return st1 (mkDeleteResult false)
        | all =>
            let* (st1, _) :=
              RecurringTransactionModel.deleteRecurringTransaction
                recurringTransactionId st in
            Return st1 (mkDeleteResult true)
        | otherScope => Throw st "Invalid scope"
        end
  end.

(** *** The generation engine *)

Record ProcessResult := mkProcessResult {
  pr_created : bool;
  pr_skipped : bool;
  pr_nextOccurrence : option Z
}.

(** The object literal that [processDateForRecurring] hands to the policy. *)
Definition recurrenceOf (recurring : RecurringTransaction) : Recurrence :=
  mkRecurrence (ofDay (rt_startDate recurring))
               (option_map ofDay (rt_endDate recurring))
               (rt_frequency recurring).

(** [prisma.transaction.findFirst] with [date: date]. *)
Definition findOverride (recurring : RecurringTransaction) (date : Z) (st : Store)
  : option Transaction :=
  find (fun t =>
          Nat.eqb (tx_userId t) (rt_userId recurring) &&
          (ofDay (tx_date t) =? date) &&
          eqOptId (tx_recurringTransactionId t) (Some (rt_id recurring)) &&
          tx_isOverride t)
       (transactions st).

Definition findGenerated (recurring : RecurringTransaction) (date : Z) (st : Store)
  : option Transaction :=
  find (fun t =>
          Nat.eqb (tx_userId t) (rt_userId recurring) &&
          (ofDay (tx_date t) =? date) &&
          eqOptId (tx_recurringTransactionId t) (Some (rt_id recurring)))
       (transactions st).

Definition processDateForRecurring (date : Z) (recurring : RecurringTransaction)
  (dateStr : DateString) (st : Store) : Store * ProcessResult :=
  let isValid := isDateValidOccurrence date (recurrenceOf recurring) in
  if negb isValid then
    let nextValid :=
      findNextValidOccurrence date (recurrenceOf recurring) defaultMaxIterations in
    (st, mkProcessResult false true nextValid)
  else
    match findOverride recurring date st with
    | Some _ =>
        let nextOccurrence := calculateNextOccurrence date (rt_frequency recurring) in
        (st, mkProcessResult false true (Some nextOccurrence))
    | None =>
        match findGenerated recurring date st with
        | Some _ =>
            let nextOccurrence := calculateNextOccurrence date (rt_frequency recurring) in
            (st, mkProcessResult false true (Some nextOccurrence))
        | None =>
            match
              createTransaction
                (mkCreateTransactionInput (rt_userId recurring) (rt_categoryId recurring)
                   (rt_amount recurring) (rt_type recurring) (rt_description recurring)
                   dateStr (Some (rt_id recurring)) (Some false)) st
            with
            | Return st1 _ =>
                let nextOccurrence :=
                  calculateNextOccurrence date (rt_frequency recurring) in
                (st1, mkProcessResult true false (Some nextOccurrence))
            | Throw st1 message =>
                let st2 := log st1 (ErrorCreateFailed (rt_id recurring) message) in
                let nextOccurrence :=
                  calculateNextOccurrence date (rt_frequency recurring) in
                (st2, mkProcessResult false true (Some nextOccurrence))
            end
        end
    end.

Record GenerateResult := mkGenerateResult { created : nat; skipped : nat }.

(** The variables of the catch-up loop. *)
Record CatchUp := mkCatchUp {
  cu_store : Store;
  cu_currentDate : Z;
  cu_lastProcessedDate : option Z;
  cu_processedCount : nat;
  cu_created : nat;
  cu_skipped : nat
}.

(** The catch-up loop.  It runs on [datesLeft], the number of dates that may
    still be processed ([maxProcessDates - processedCount]): the loop test
    [processedCount < maxProcessDates] is [datesLeft] being positive, and the
    safety check [processedCount >= maxProcessDates] after the increment is
    [datesLeft] having reached zero. *)
Fixpoint catchUpLoop (recurring : RecurringTransaction)
  (recurringStartDate : Z) (recurringEndDate : option Z) (effectiveEndDate : Z)
  (maxProcessDates : nat) (datesLeft : nat) (w : CatchUp) : CatchUp :=
  match datesLeft with
  | O => w
  | S datesLeft' =>
      if negb (cu_currentDate w <=? effectiveEndDate) then w
      else if afterEnd (cu_currentDate w) recurringEndDate then w
      else
        let currentDate :=
          if cu_currentDate w <? recurringStartDate
          then setHours recurringStartDate 0 0 0 0
          else cu_currentDate w in
        let dateStr := formatDateToString currentDate in
        let '(st1, result) :=
          processDateForRecurring currentDate recurring dateStr (cu_store w) in
        let created := if pr_created result then S (cu_created w) else cu_created w in
        let lastProcessedDate :=
          if pr_created result then Some currentDate else cu_lastProcessedDate w in
        let skipped := if pr_created result then cu_skipped w else S (cu_skipped w) in
        match pr_nextOccurrence result with
        | None =>
            mkCatchUp st1 currentDate lastProcessedDate (cu_processedCount w)
                      created skipped
        | Some nextOccurrence =>
            let currentDate' := setHours nextOccurrence 0 0 0 0 in
            let processedCount := S (cu_processedCount w) in
            match datesLeft' with
            | O =>
                mkCatchUp
                  (log st1 (WarnCatchUpLimit (rt_id recurring) maxProcessDates
                              (formatDateToString currentDate')))
                  currentDate' lastProcessedDate processedCount created skipped
            | S _ =>
                catchUpLoop recurring recurringStartDate recurringEndDate
                  effectiveEndDate maxProcessDates datesLeft'
                  (mkCatchUp st1 currentDate' lastProcessedDate processedCount
                             created skipped)
            end
        end
  end.

(** [isDateValidOccurrence(d, ..) ? d : findNextValidOccurrence(d, ..)] *)
Definition validOrNext (d : Z) (recurring : Recurrence) : option Z :=
  if isDateValidOccurrence d recurring then Some d
  else findNextValidOccurrence d recurring defaultMaxIterations.

(** The body of the loop over the due series. *)
Definition generateForRecurring (target : Z) (maxCatchUpDays : nat)
  (recurring : RecurringTransaction) (st : Store) (res : GenerateResult)
  : Outcome GenerateResult :=
  if negb (rt_isActive recurring) then
    Return st (mkGenerateResult (created res) (S (skipped res)))
  else
    let recurringStartDate := setHours (ofDay (rt_startDate recurring)) 0 0 0 0 in
    let recurringEndDate :=
      option_map (fun e => setHours (ofDay e) 23 59 59 999) (rt_endDate recurring) in
    let currentDate := setHours (ofDay (rt_nextOccurrence recurring)) 0 0 0 0 in
    let effectiveEndDate :=
      match recurringEndDate with
      | Some e => if e <? target then e else target
      | None => target
      end in
    if effectiveEndDate <? currentDate then
      Return st (mkGenerateResult (created res) (S (skipped res)))
    else
      let policy :=
        mkRecurrence recurringStartDate recurringEndDate (rt_frequency recurring) in
      let start :=
        if negb (isDateValidOccurrence currentDate policy) then
          match findNextValidOccurrence currentDate policy defaultMaxIterations with
          | None => None
          | Some nextValid =>
              if effectiveEndDate <? nextValid then None
              else Some (setHours nextValid 0 0 0 0)
          end
        else Some currentDate in
      match start with
      | None =>
          let calculatedNext :=
            calculateNextOccurrence currentDate (rt_frequency recurring) in
          let* (st1, _) :=
            updateRecurringTransaction (rt_id recurring)
              (readUpdateInput (setNextOccurrence (formatDateToString calculatedNext)))
              st in
          Return st1 (mkGenerateResult (created res) (S (skipped res)))
      | Some currentDate =>
          let maxProcessDates := maxCatchUpDays in
          let w :=
            catchUpLoop recurring recurringStartDate recurringEndDate effectiveEndDate
              maxProcessDates maxProcessDates
              (mkCatchUp st currentDate None O (created res) (skipped res)) in
          let currentDate := cu_currentDate w in
          let nextOccurrenceToStore :=
            match cu_lastProcessedDate w with
            | Some lastProcessedDate =>
                let calculatedNext :=
                  calculateNextOccurrence lastProcessedDate (rt_frequency recurring) in
                validOrNext calculatedNext policy
            | None =>
                if Nat.ltb 0 (cu_processedCount w) then validOrNext currentDate policy
                else if currentDate <=? effectiveEndDate then
                  if negb (getTime currentDate =? getTime (ofDay (rt_nextOccurrence recurring)))
                  then validOrNext currentDate policy
                  else None
                else None
            end in
          match nextOccurrenceToStore with
          | Some d =>
              let* (st1, _) :=
                updateRecurringTransaction (rt_id recurring)
                  (readUpdateInput (setNextOccurrence (formatDateToString d)))
                  (cu_store w) in
              Return st1 (mkGenerateResult (cu_created w) (cu_skipped w))
          | None => Return (cu_store w) (mkGenerateResult (cu_created w) (cu_skipped w))
          end
      end.

Fixpoint generateForAll (target : Z) (maxCatchUpDays : nat)
  (dueRecurring : list RecurringTransaction) (st : Store) (res : GenerateResult)
  : Outcome GenerateResult :=
  match dueRecurring with
  | [] => Return st res
  | recurring :: rest =>
      let* (st1, res1) := generateForRecurring target maxCatchUpDays recurring st res in
      generateForAll target maxCatchUpDays rest st1 res1
  end.

Definition defaultMaxCatchUpDays : nat := 365.

(** [now] is the reading of the clock, used when no target date is given. *)
Definition generateTransactionsFromRecurring (now : Z) (targetDate : option DateString)
  (maxCatchUpDays : nat) (st : Store) : Outcome GenerateResult :=
  let target :=
    match targetDate with
    | Some s => setHours (newDate (ds_year s) (ds_month s - 1) (ds_day s)) 0 0 0 0
    | None => setHours now 0 0 0 0
    end in
  let targetStr := formatDateToString target in
  let dueRecurring := getDueRecurringTransactions targetStr st in
  generateForAll target maxCatchUpDays dueRecurring st (mkGenerateResult 0 0).

(** *** The merged view

    [getEffectiveTransactions] returns objects: the rows of the ledger, and
    the instances it makes up for the occurrences that have no row.  The
    fields [createdAt], [updatedAt], [category] and [recurringTransaction] of
    these objects are left out. *)

(** The [id] of an object of the view: the key of a row, or the string
    recurring-<series>-<date> of an instance. *)
Inductive EffectiveId :=
| RealId (i : Id)
| VirtualId (recurringId : Id) (dateStr : DateString).

Record EffectiveTransaction := mkEffective {
  et_id : EffectiveId;
  et_userId : Id;
  et_categoryId : Id;
  et_amount : Z;
  et_type : TransactionType;
  et_description : option string;
  et_date : Z;
  et_recurringTransactionId : option Id;
  et_isOverride : bool
}.

(** A row of the ledger, as an object of the view. *)
Definition ofTransaction (t : Transaction) : EffectiveTransaction :=
  mkEffective (RealId (tx_id t)) (tx_userId t) (tx_categoryId t) (tx_amount t) (tx_type t)
    (tx_description t) (tx_date t) (tx_recurringTransactionId t) (tx_isOverride t).

Definition eqDateString (a b : DateString) : bool :=
  (ds_year a =? ds_year b) && (ds_month a =? ds_month b) && (ds_day a =? ds_day b).

(** [tDate.toISOString().split('T')[0]] for a date column. *)
Definition isoDate (d : Z) : DateString := formatDateToString (ofDay d).

(** [realTransactions.some(..)], for the override and for the generated
    entry of a series on a day. *)
Definition hasEntry (realTransactions : list Transaction) (recurringId : Id)
  (dateStr : DateString) (override : bool) : bool :=
  existsb (fun t =>
             eqDateString (isoDate (tx_date t)) dateStr &&
             eqOptId (tx_recurringTransactionId t) (Some recurringId) &&
             Bool.eqb (tx_isOverride t) override)
          realTransactions.

(** The object pushed for an occurrence that has no row. *)
Definition instanceOf (recurring : RecurringTransaction) (dateStr : DateString)
  : EffectiveTransaction :=
  mkEffective (VirtualId (rt_id recurring) dateStr) (rt_userId recurring)
    (rt_categoryId recurring) (rt_amount recurring) (rt_type recurring)
    (rt_description recurring) (Day (parseDate dateStr)) (Some (rt_id recurring)) false.

(** The first loop, [while (currentDate < rangeStart)], with the number of
    iterations that are left. *)
Fixpoint seekLoop (frequency : FrequencyType) (rangeStart rangeEnd : Z)
  (iterationsLeft : nat) (currentDate : Z) : Z :=
  match iterationsLeft with
  | O => currentDate
  | S rest =>
      if currentDate <? rangeStart then
        let next := calculateNextOccurrence currentDate frequency in
        if rangeEnd <? next then currentDate
        else seekLoop frequency rangeStart rangeEnd rest next
      else currentDate
  end.

(** What one round of the second loop pushes. *)
Definition instancesOn (recurring : RecurringTransaction)
  (realTransactions : list Transaction) (currentDate : Z) : list EffectiveTransaction :=
  if isDateValidOccurrence currentDate (recurrenceOf recurring) then
    let dateStr := formatDateToString currentDate in
    let hasOverride := hasEntry realTransactions (rt_id recurring) dateStr true in
    let hasGenerated := hasEntry realTransactions (rt_id recurring) dateStr false in
    if negb hasOverride && negb hasGenerated then [instanceOf recurring dateStr] else []
  else [].

(** The second loop, [while (currentDate <= rangeEnd)]. *)
Fixpoint instancesLoop (recurring : RecurringTransaction)
  (realTransactions : list Transaction) (rangeEnd : Z) (iterationsLeft : nat)
  (currentDate : Z) : list EffectiveTransaction :=
  match iterationsLeft with
  | O => []
  | S rest =>
      if currentDate <=? rangeEnd then
        instancesOn recurring realTransactions currentDate ++
        let nextDate := calculateNextOccurrence currentDate (rt_frequency recurring) in
        if nextDate <=? currentDate then []
        else instancesLoop recurring realTransactions rangeEnd rest nextDate
      else []
  end.

(** A number of iterations that the loops cannot use up between two dates:
    every iteration moves the date forward by a day at least (see
    [view_loops_run_to_their_end]). *)
Definition daysAhead (from to : Z) : nat := Z.to_nat ((to - from) / msPerDay + 1).

(** The body of the loop over the series. *)
Definition instancesOfSeries (now : Z) (start end_ : option Z)
  (realTransactions : list Transaction) (recurring : RecurringTransaction)
  : list EffectiveTransaction :=
  let recurringStart := setHours (ofDay (rt_startDate recurring)) 0 0 0 0 in
  let recurringEnd :=
    option_map (fun e => setHours (ofDay e) 23 59 59 999) (rt_endDate recurring) in
  let rangeStart :=
    match start with
    | Some s => if recurringStart <? s then s else recurringStart
    | None => recurringStart
    end in
  let rangeEnd :=
    match end_, recurringEnd with
    | Some e, None => e
    | Some e, Some re => if e <? re then e else re
    | None, Some re => re
    | None, None => now
    end in
  let currentDate :=
    if recurringStart <? rangeStart then
      match rt_frequency recurring with
      | daily => rangeStart
      | _ =>
          let found :=
            seekLoop (rt_frequency recurring) rangeStart rangeEnd
              (daysAhead recurringStart rangeStart) recurringStart in
          if (found <? rangeStart) ||
             negb (isDateValidOccurrence found (recurrenceOf recurring))
          then calculateNextOccurrence found (rt_frequency recurring)
          else found
      end
    else recurringStart in
  instancesLoop recurring realTransactions rangeEnd (daysAhead currentDate rangeEnd)
    currentDate.

(** [effectiveTransactions.sort((a, b) => dateB.getTime() - dateA.getTime())]:
    later dates first, and objects of the same date in the order they had
    (the sort of an array is stable). *)
Fixpoint insertEffective (x : EffectiveTransaction) (l : list EffectiveTransaction)
  : list EffectiveTransaction :=
  match l with
  | [] => [x]
  | y :: l' => if et_date y <? et_date x then x :: l
               else if et_date y =? et_date x then x :: l
               else y :: insertEffective x l'
  end.

Definition sortEffective (l : list EffectiveTransaction) : list EffectiveTransaction :=
  fold_right insertEffective [] l.

(** [now] is the reading of the clock, the end of the range of a series
    without end date when no end date is asked for. *)
Definition getEffectiveTransactions (now : Z) (userId : Id)
  (startDate endDate : option DateString) (st : Store) : list EffectiveTransaction :=
  let realTransactions := getAllTransactions (Some userId) None None startDate endDate st in
  let recurringTransactions := getAllRecurringTransactions (Some userId) (Some true) st in
  let start := option_map (fun s => setHours (parseDate s) 0 0 0 0) startDate in
  let end_ := option_map (fun e => setHours (parseDate e) 23 59 59 999) endDate in
  let effectiveTransactions :=
    map ofTransaction realTransactions ++
    flat_map (instancesOfSeries now start end_ realTransactions) recurringTransactions in
  sortEffective effectiveTransactions.

(** * Properties *)

(** ** Dates at midnight and at the end of the day *)

Lemma setHours_midnight (t : Z) : setHours t 0 0 0 0 = Day t * msPerDay.
Proof. unfold setHours, MakeDate, MakeTime. lia. Qed.

Lemma setHours_endOfDay (t : Z) : setHours t 23 59 59 999 = Day t * msPerDay + 86399999.
Proof. unfold setHours, MakeDate, MakeTime. lia. Qed.

Lemma Day_setHours_midnight (t : Z) : Day (setHours t 0 0 0 0) = Day t.
Proof. unfold setHours. apply Day_MakeDate. unfold MakeTime, msPerDay. lia. Qed.

Lemma Day_setHours_endOfDay (t : Z) : Day (setHours t 23 59 59 999) = Day t.
Proof. unfold setHours. apply Day_MakeDate. unfold MakeTime, msPerDay. lia. Qed.

Lemma Day_ofDay (d : Z) : Day (ofDay d) = d.
Proof. unfold ofDay. apply Day_MakeDate. unfold msPerDay. lia. Qed.

Lemma setHours_midnight_ofDay (d : Z) : setHours (ofDay d) 0 0 0 0 = ofDay d.
Proof. rewrite setHours_midnight, Day_ofDay. unfold ofDay, MakeDate. lia. Qed.

Lemma setHours_midnight_idem (t : Z) :
  setHours (setHours t 0 0 0 0) 0 0 0 0 = setHours t 0 0 0 0.
Proof.
  rewrite (setHours_midnight (setHours t 0 0 0 0)), Day_setHours_midnight.
  symmetry. apply setHours_midnight.
Qed.

Lemma setHours_endOfDay_idem (t : Z) :
  setHours (setHours t 23 59 59 999) 23 59 59 999 = setHours t 23 59 59 999.
Proof.
  rewrite (setHours_endOfDay (setHours t 23 59 59 999)), Day_setHours_endOfDay.
  symmetry. apply setHours_endOfDay.
Qed.

(** Comparing a midnight with a midnight, or with the end of a day, compares
    the days. *)
Lemma midnight_ltb (a b : Z) :
  (setHours a 0 0 0 0 <? setHours b 0 0 0 0) = (Day a <? Day b).
Proof.
  rewrite !setHours_midnight. unfold msPerDay.
  destruct (Z.ltb_spec (Day a) (Day b)); [apply Z.ltb_lt|apply Z.ltb_ge]; lia.
Qed.

Lemma midnight_leb (a b : Z) :
  (setHours a 0 0 0 0 <=? setHours b 0 0 0 0) = (Day a <=? Day b).
Proof.
  rewrite !setHours_midnight. unfold msPerDay.
  destruct (Z.leb_spec (Day a) (Day b)); [apply Z.leb_le|apply Z.leb_gt]; lia.
Qed.

Lemma endOfDay_ltb_midnight (e a : Z) :
  (setHours e 23 59 59 999 <? setHours a 0 0 0 0) = (Day e <? Day a).
Proof.
  rewrite setHours_midnight, setHours_endOfDay. unfold msPerDay.
  destruct (Z.ltb_spec (Day e) (Day a)); [apply Z.ltb_lt|apply Z.ltb_ge]; lia.
Qed.

(** [date] lies in the window of the series, as calendar days. *)
Definition withinWindow (date : Z) (recurring : Recurrence) : Prop :=
  Day (startDate recurring) <= Day date /\
  match endDate recurring with
  | Some e => Day date <= Day e
  | None => True
  end.

Lemma afterEnd_endOfDay (a : Z) (e : option Z) :
  afterEnd (setHours a 0 0 0 0) (option_map (fun e => setHours e 23 59 59 999) e) =
  match e with Some e => Day e <? Day a | None => false end.
Proof. destruct e as [e|]; cbn; [apply endOfDay_ltb_midnight|reflexivity]. Qed.

Lemma window_checks (date : Z) (recurring : Recurrence) :
  withinWindow date recurring <->
  (setHours date 0 0 0 0 <? setHours (startDate recurring) 0 0 0 0) = false /\
  afterEnd (setHours date 0 0 0 0)
    (option_map (fun e => setHours e 23 59 59 999) (endDate recurring)) = false.
Proof.
  unfold withinWindow. rewrite midnight_ltb, afterEnd_endOfDay, Z.ltb_ge.
  destruct (endDate recurring) as [e|]; [rewrite Z.ltb_ge|]; tauto.
Qed.

Lemma isDateValidOccurrence_window (date : Z) (recurring : Recurrence) :
  isDateValidOccurrence date recurring = true -> withinWindow date recurring.
Proof.
  intros H. apply window_checks. unfold isDateValidOccurrence in H.
  destruct (_ <? _); [discriminate|]. destruct (afterEnd _ _); [discriminate|].
  split; reflexivity.
Qed.

Lemma getDate_midnight (t : Z) : getDate (setHours t 0 0 0 0) = getDate t.
Proof. unfold getDate, DateFromTime. rewrite Day_setHours_midnight. reflexivity. Qed.

Lemma getMonth_midnight (t : Z) : getMonth (setHours t 0 0 0 0) = getMonth t.
Proof. unfold getMonth, MonthFromTime. rewrite Day_setHours_midnight. reflexivity. Qed.

Lemma getFullYear_midnight (t : Z) : getFullYear (setHours t 0 0 0 0) = getFullYear t.
Proof. unfold getFullYear, YearFromTime. rewrite Day_setHours_midnight. reflexivity. Qed.

Lemma fields_valid (t : Z) : validYMD (getFullYear t) (getMonth t) (getDate t).
Proof. apply civil_valid. Qed.

(** The last day of a month, as the service computes it: day 0 of the next
    month. *)
Lemma lastDayOfMonth_daysInMonth (y m : Z) :
  0 <= m < 12 -> getDate (newDate y (m + 1) 0) = daysInMonth y m.
Proof.
  intros Hm. unfold getDate, DateFromTime, newDate.
  rewrite Day_MakeDate by (unfold msPerDay; lia).
  assert (Hv : validYMD y m (daysInMonth y m)).
  { split; [exact Hm|]. unfold daysInMonth. destruct (isLeap y); zbool; bsimpl; lia. }
  replace (MakeDay y (m + 1) 0) with (MakeDay y m (daysInMonth y m)).
  - apply (civil_MakeDay y m _ Hv).
  - rewrite MakeDay_in_range by exact Hm.
    destruct (Z.eq_dec m 11) as [->|Hne].
    + unfold MakeDay. change ((11 + 1) / 12) with 1. change ((11 + 1) mod 12) with 0.
      rewrite DayFromYear_succ. unfold daysInMonth.
      destruct (isLeap y), (isLeap (y + 1)); cbn; lia.
    + rewrite MakeDay_in_range by lia. unfold daysInMonth.
      month_cases m Hm; try lia; destruct (isLeap y); cbn; lia.
Qed.

(** A bounded universal quantifier that computes: [f] holds at the [k]
    integers from [i] on. *)
Fixpoint all_from (f : Z -> bool) (k : nat) (i : Z) : bool :=
  match k with
  | O => true
  | S k' => f i && all_from f k' (i + 1)
  end.

Lemma all_from_spec (f : Z -> bool) (k : nat) :
  forall i, all_from f k i = true ->
  forall j, i <= j < i + Z.of_nat k -> f j = true.
Proof.
  induction k as [|k IH]; intros i H j Hj.
  - simpl in Hj. lia.
  - cbn [all_from] in H. apply andb_true_iff in H as [H1 H2].
    destruct (Z.eq_dec j i) as [->|Hne]; [exact H1|].
    apply (IH (i + 1)); [exact H2|lia].
Qed.

(** ** The occurrence policy: monthly and yearly rules *)

Lemma rem_zero_mod (a b : Z) : 0 < b -> (Z.rem a b =? 0) = (a mod b =? 0).
Proof.
  intros Hb.
  destruct (Z.eqb_spec (Z.rem a b) 0) as [H|H], (Z.eqb_spec (a mod b) 0) as [H'|H'];
    try reflexivity; exfalso.
  - apply H'. apply Z.rem_divide in H; [|lia]. apply Z.mod_divide; [lia|exact H].
  - apply H. apply Z.mod_divide in H'; [|lia]. apply Z.rem_divide; [lia|exact H'].
Qed.

Lemma isLeapYear_isLeap (year : Z) :
  ((Z.rem year 4 =? 0) && negb (Z.rem year 100 =? 0)) || (Z.rem year 400 =? 0) =
  isLeap year.
Proof. unfold isLeap. rewrite !rem_zero_mod by lia. reflexivity. Qed.

Lemma isDateValidOccurrence_monthly (date : Z) (recurring : Recurrence) :
  frequency recurring = monthly ->
  withinWindow date recurring ->
  isDateValidOccurrence date recurring =
  if 28 <? getDate (startDate recurring) then
    getDate date =? Z.min (getDate (startDate recurring))
                          (daysInMonth (getFullYear date) (getMonth date))
  else getDate date =? getDate (startDate recurring).
Proof.
  intros Hf Hw. apply window_checks in Hw as [H1 H2].
  unfold isDateValidOccurrence. rewrite H1, H2, Hf.
  rewrite !getDate_midnight, getFullYear_midnight, getMonth_midnight.
  rewrite lastDayOfMonth_daysInMonth by apply (fields_valid date).
  reflexivity.
Qed.

Lemma isDateValidOccurrence_yearly (date : Z) (recurring : Recurrence) :
  frequency recurring = yearly ->
  withinWindow date recurring ->
  isDateValidOccurrence date recurring =
  if (getMonth (startDate recurring) =? 1) && (getDate (startDate recurring) =? 29) then
    if getMonth date =? 1 then
      if isLeap (getFullYear date) then getDate date =? 29 else getDate date =? 28
    else false
  else (getMonth date =? getMonth (startDate recurring)) &&
       (getDate date =? getDate (startDate recurring)).
Proof.
  intros Hf Hw. apply window_checks in Hw as [H1 H2].
  unfold isDateValidOccurrence. rewrite H1, H2, Hf.
  rewrite !getDate_midnight, !getMonth_midnight, getFullYear_midnight.
  rewrite isLeapYear_isLeap. reflexivity.
Qed.

(** The series of the examples. *)
Definition monthlyFromJan31 : Recurrence :=
  mkRecurrence (parseDate (mkDateString 2024 1 31)) None monthly.

Definition yearlyFromFeb29 : Recurrence :=
  mkRecurrence (parseDate (mkDateString 2024 2 29)) None yearly.

(** C4.  For a monthly series that starts after the 28th of a month, a date
    of the window is an occurrence exactly when its day of the month is the
    smaller of the start day and the length of its month.  A series that
    starts on 2024-01-31 has 2024-02-29 as its only occurrence in February
    2024 and 2025-02-28 as its only occurrence in February 2025. *)
Theorem monthly_occurrence_clamped :
  (forall (recurring : Recurrence) (date : Z),
     frequency recurring = monthly ->
     28 < getDate (startDate recurring) ->
     withinWindow date recurring ->
     (isDateValidOccurrence date recurring = true <->
      getDate date = Z.min (getDate (startDate recurring))
                           (daysInMonth (getFullYear date) (getMonth date)))) /\
  (forall day, 1 <= day <= 29 ->
     isDateValidOccurrence (parseDate (mkDateString 2024 2 day)) monthlyFromJan31
     = (day =? 29)) /\
  (forall day, 1 <= day <= 28 ->
     isDateValidOccurrence (parseDate (mkDateString 2025 2 day)) monthlyFromJan31
     = (day =? 28)).
Proof.
  split; [|split].
  - intros recurring date Hf Hs Hw.
    rewrite (isDateValidOccurrence_monthly _ _ Hf Hw).
    apply Z.ltb_lt in Hs. rewrite Hs. apply Z.eqb_eq.
  - intros day Hd. apply Bool.eqb_prop.
    apply (all_from_spec
             (fun day =>
                Bool.eqb (isDateValidOccurrence (parseDate (mkDateString 2024 2 day))
                            monthlyFromJan31) (day =? 29)) 29 1); [|lia].
    vm_compute. reflexivity.
  - intros day Hd. apply Bool.eqb_prop.
    apply (all_from_spec
             (fun day =>
                Bool.eqb (isDateValidOccurrence (parseDate (mkDateString 2025 2 day))
                            monthlyFromJan31) (day =? 28)) 28 1); [|lia].
    vm_compute. reflexivity.
Qed.

Lemma monthly_occurrence_clamped_witness :
  isDateValidOccurrence (parseDate (mkDateString 2024 4 30)) monthlyFromJan31 = true.
Proof.
  apply (proj1 monthly_occurrence_clamped monthlyFromJan31
               (parseDate (mkDateString 2024 4 30))).
  - reflexivity.
  - vm_compute. reflexivity.
  - split; [vm_compute; discriminate | exact I].
  - vm_compute. reflexivity.
Defined.

Lemma year_window (t : Z) (y m d : Z) :
  getFullYear t = y + 1 -> validYMD y m d ->
  Day (parseDate (mkDateString y (m + 1) d)) <= Day t.
Proof.
  intros Hy Hv. unfold parseDate, newDate. cbn [ds_year ds_month ds_day].
  rewrite Day_MakeDate by (unfold msPerDay; lia).
  replace (m + 1 - 1) with m by lia.
  pose proof (monthOffset_date_bound y m d Hv) as Hb.
  destruct Hv as [Hm Hd]. rewrite MakeDay_in_range by exact Hm.
  pose proof (YearFromDay_spec (Day t)) as Hs.
  unfold getFullYear, YearFromTime in Hy. rewrite Hy in Hs.
  pose proof (DayFromYear_succ y). destruct (isLeap y); lia.
Qed.

(** C5.  For a yearly series that starts on a 29th of February, a date of
    the window is an occurrence exactly when it is the 29th of February of a
    leap year or the 28th of February of a common year; for any other start,
    exactly when it has the month and the day of the start.  A series that
    starts on 2024-02-29 has 2025-02-28 as its only occurrence of 2025 and
    2028-02-29 as its only occurrence of 2028. *)
Theorem yearly_occurrence_leap_rule :
  (forall (recurring : Recurrence) (date : Z),
     frequency recurring = yearly ->
     getMonth (startDate recurring) = 1 /\ getDate (startDate recurring) = 29 ->
     withinWindow date recurring ->
     (isDateValidOccurrence date recurring = true <->
      getMonth date = 1 /\
      (isLeap (getFullYear date) = true /\ getDate date = 29 \/
       isLeap (getFullYear date) = false /\ getDate date = 28))) /\
  (forall (recurring : Recurrence) (date : Z),
     frequency recurring = yearly ->
     ~ (getMonth (startDate recurring) = 1 /\ getDate (startDate recurring) = 29) ->
     withinWindow date recurring ->
     (isDateValidOccurrence date recurring = true <->
      getMonth date = getMonth (startDate recurring) /\
      getDate date = getDate (startDate recurring))) /\
  (forall date, getFullYear date = 2025 ->
     (isDateValidOccurrence date yearlyFromFeb29 = true <->
      getMonth date = 1 /\ getDate date = 28)) /\
  (forall date, getFullYear date = 2028 ->
     (isDateValidOccurrence date yearlyFromFeb29 = true <->
      getMonth date = 1 /\ getDate date = 29)).
Proof.
  assert (Hleap : forall (recurring : Recurrence) (date : Z),
     frequency recurring = yearly ->
     getMonth (startDate recurring) = 1 /\ getDate (startDate recurring) = 29 ->
     withinWindow date recurring ->
     (isDateValidOccurrence date recurring = true <->
      getMonth date = 1 /\
      (isLeap (getFullYear date) = true /\ getDate date = 29 \/
       isLeap (getFullYear date) = false /\ getDate date = 28))).
  { intros recurring date Hf [Hm Hd] Hw.
    rewrite (isDateValidOccurrence_yearly _ _ Hf Hw), Hm, Hd. cbn [Z.eqb Pos.eqb andb].
    destruct (Z.eqb_spec (getMonth date) 1) as [H1|H1].
    - destruct (isLeap (getFullYear date)); rewrite Z.eqb_eq;
        intuition (try discriminate; try lia).
    - intuition (try discriminate; try lia). }
  assert (Hwin : forall date y, getFullYear date = y -> 2025 <= y ->
                 withinWindow date yearlyFromFeb29).
  { intros date y Hy Hle. split; [|exact I].
    pose proof (YearFromDay_spec (Day date)) as Hs.
    unfold getFullYear, YearFromTime in Hy. rewrite Hy in Hs.
    pose proof (DayFromYear_mono 2025 y Hle) as Hmono.
    cbn [startDate yearlyFromFeb29].
    assert (E : Day (parseDate (mkDateString 2024 2 29)) < DayFromYear 2025)
      by (vm_compute; reflexivity).
    lia. }
  split; [exact Hleap|]. split; [|split].
  - intros recurring date Hf Hn Hw.
    rewrite (isDateValidOccurrence_yearly _ _ Hf Hw).
    destruct ((getMonth (startDate recurring) =? 1) &&
              (getDate (startDate recurring) =? 29)) eqn:E.
    + apply andb_true_iff in E as [E1 E2]. apply Z.eqb_eq in E1, E2. tauto.
    + rewrite andb_true_iff, !Z.eqb_eq. tauto.
  - intros date Hy.
    rewrite (Hleap yearlyFromFeb29 date eq_refl
               ltac:(split; vm_compute; reflexivity) (Hwin date 2025 Hy ltac:(lia))).
    rewrite Hy. change (isLeap 2025) with false.
    intuition (try discriminate).
  - intros date Hy.
    rewrite (Hleap yearlyFromFeb29 date eq_refl
               ltac:(split; vm_compute; reflexivity) (Hwin date 2028 Hy ltac:(lia))).
    rewrite Hy. change (isLeap 2028) with true.
    intuition (try discriminate).
Qed.

Lemma yearly_occurrence_leap_rule_witness :
  isDateValidOccurrence (parseDate (mkDateString 2025 2 28)) yearlyFromFeb29 = true.
Proof.
  apply (proj1 yearly_occurrence_leap_rule yearlyFromFeb29
               (parseDate (mkDateString 2025 2 28))).
  - reflexivity.
  - split; vm_compute; reflexivity.
  - split; [vm_compute; discriminate | exact I].
  - split; [vm_compute; reflexivity|].
    right. split; vm_compute; reflexivity.
Defined.

(** ** The bounded search for the next occurrence *)

(** The date reached from [c] by [k] calendar advances. *)
Fixpoint advance (f : FrequencyType) (k : nat) (c : Z) : Z :=
  match k with
  | O => c
  | S k' => advance f k' (calculateNextOccurrence c f)
  end.

(** The date the search starts from: the midnight of the input date, moved
    up to the start date if it is earlier. *)
Definition clampToStart (currentDate : Z) (recurring : Recurrence) : Z :=
  let checkDate := setHours currentDate 0 0 0 0 in
  let startDate := setHours (startDate recurring) 0 0 0 0 in
  if checkDate <? startDate then startDate else checkDate.

(** [d] is the first occurrence among the dates reached from [c] with fewer
    than [n] advances. *)
Definition firstValidWithin (recurring : Recurrence) (n : nat) (c d : Z) : Prop :=
  exists k : nat,
    (k < n)%nat /\ d = advance (frequency recurring) k c /\
    isDateValidOccurrence d recurring = true /\
    forall j : nat, (j < k)%nat ->
      isDateValidOccurrence (advance (frequency recurring) j c) recurring = false.

(** The reasons for which the search gives up on the dates reached from
    [c]: a date past the end date, a date that does not advance, or [n]
    advances without an occurrence. *)
Definition searchGivesUp (recurring : Recurrence) (endDate : option Z) (n : nat) (c : Z)
  : Prop :=
  (exists k : nat,
     (k < n)%nat /\
     (forall j : nat, (j <= k)%nat ->
        isDateValidOccurrence (advance (frequency recurring) j c) recurring = false) /\
     (afterEnd (advance (frequency recurring) (S k) c) endDate = true \/
      advance (frequency recurring) (S k) c <= advance (frequency recurring) k c)) \/
  (forall j : nat, (j < n)%nat ->
     isDateValidOccurrence (advance (frequency recurring) j c) recurring = false).

Lemma findNextValidLoop_spec (recurring : Recurrence) (endDate : option Z) (n : nat) :
  forall c,
    match findNextValidLoop recurring endDate n c with
    | Some d => firstValidWithin recurring n c d
    | None => searchGivesUp recurring endDate n c
    end.
Proof.
  induction n as [|n IH]; intros c; cbn [findNextValidLoop].
  - right. intros j Hj. lia.
  - destruct (isDateValidOccurrence c recurring) eqn:Hv.
    + exists O. repeat split; [lia|exact Hv|]. intros j Hj. lia.
    + set (nx := calculateNextOccurrence c (frequency recurring)).
      assert (H0 : forall j : nat, (j <= 0)%nat ->
                isDateValidOccurrence (advance (frequency recurring) j c) recurring = false).
      { intros j Hj. replace j with O by lia. exact Hv. }
      destruct (afterEnd nx endDate) eqn:Ha.
      { left. exists O. split; [lia|]. split; [exact H0|]. left. exact Ha. }
      destruct (Z.leb_spec nx c) as [Hle|Hgt].
      { left. exists O. split; [lia|]. split; [exact H0|]. right. exact Hle. }
      specialize (IH nx). destruct (findNextValidLoop recurring endDate n nx) as [d|].
      * destruct IH as (k & Hk & Hd & Hvd & Hfirst).
        exists (S k). split; [lia|]. split; [exact Hd|]. split; [exact Hvd|].
        intros [|j] Hj; [exact Hv|]. apply Hfirst. lia.
      * destruct IH as [(k & Hk & Hinv & Hstop)|Hall].
        -- left. exists (S k). split; [lia|]. split; [|exact Hstop].
           intros [|j] Hj; [exact Hv|]. apply Hinv. lia.
        -- right. intros [|j] Hj; [exact Hv|]. apply Hall. lia.
Qed.

(** C9.  [findNextValidOccurrence] is a total function: for every date,
    series and bound (100 by default) it returns a result and raises no
    error.  A date it returns is the first
    occurrence reached by calendar advances from the input date moved up to
    the start date; it returns none when that starting date is past the end
    date, when an advance passes the end date or does not move forward, or
    when [maxIterations] advances have given no occurrence. *)
Theorem findNextValidOccurrence_bounded_search :
  defaultMaxIterations = 100%nat /\
  forall (currentDate : Z) (recurring : Recurrence) (maxIterations : nat),
    let c := clampToStart currentDate recurring in
    let e := option_map (fun e => setHours e 23 59 59 999) (endDate recurring) in
    match findNextValidOccurrence currentDate recurring maxIterations with
    | Some d => firstValidWithin recurring maxIterations c d
    | None => afterEnd c e = true \/ searchGivesUp recurring e maxIterations c
    end.
Proof.
  split; [reflexivity|].
  intros currentDate recurring maxIterations c e.
  unfold findNextValidOccurrence. fold (clampToStart currentDate recurring).
  fold c. fold e.
  destruct (afterEnd c e) eqn:Ha.
  - left. reflexivity.
  - pose proof (findNextValidLoop_spec recurring e maxIterations c) as H.
    destruct (findNextValidLoop recurring e maxIterations c); [exact H|right; exact H].
Qed.

(** ** Scoped edit and delete: the window check comes first *)

Lemma effective_before_start (eff : DateString) (s : Z) :
  (setHours (newDate (ds_year eff) (ds_month eff - 1) (ds_day eff)) 0 0 0 0
   <? setHours (ofDay s) 0 0 0 0) = (dayOfString eff <? s).
Proof. rewrite midnight_ltb, Day_ofDay. reflexivity. Qed.

Lemma effective_after_end (eff : DateString) (e : option Z) :
  afterEnd (setHours (newDate (ds_year eff) (ds_month eff - 1) (ds_day eff)) 0 0 0 0)
           (option_map (fun e => setHours (ofDay e) 23 59 59 999) e)
  = match e with Some e => e <? dayOfString eff | None => false end.
Proof.
  destruct e as [e|]; cbn [option_map afterEnd]; [|reflexivity].
  rewrite endOfDay_ltb_midnight, Day_ofDay. reflexivity.
Qed.

(** The effective date lies outside the window of the series. *)
Definition outsideWindow (eff : DateString) (r : RecurringTransaction) : Prop :=
  dayOfString eff < rt_startDate r \/
  exists e, rt_endDate r = Some e /\ e < dayOfString eff.

(** The effective date lies in the window of the series. *)
Definition insideWindow (eff : DateString) (r : RecurringTransaction) : Prop :=
  rt_startDate r <= dayOfString eff /\
  match rt_endDate r with
  | Some e => dayOfString eff <= e
  | None => True
  end.

Lemma outside_checks (eff : DateString) (r : RecurringTransaction) :
  outsideWindow eff r ->
  (dayOfString eff <? rt_startDate r) = true \/
  (dayOfString eff <? rt_startDate r) = false /\
  match rt_endDate r with Some e => e <? dayOfString eff | None => false end = true.
Proof.
  intros [H|(e & He & H)].
  - left. apply Z.ltb_lt. exact H.
  - destruct (Z.ltb_spec (dayOfString eff) (rt_startDate r)); [left; reflexivity|].
    right. split; [reflexivity|]. rewrite He. apply Z.ltb_lt. exact H.
Qed.

Lemma inside_checks (eff : DateString) (r : RecurringTransaction) :
  insideWindow eff r ->
  (dayOfString eff <? rt_startDate r) = false /\
  match rt_endDate r with Some e => e <? dayOfString eff | None => false end = false.
Proof.
  intros [H1 H2]. split; [apply Z.ltb_ge; exact H1|].
  destruct (rt_endDate r); [apply Z.ltb_ge; exact H2|reflexivity].
Qed.

(** The stores of the examples: one user, one category, and a daily series
    of amount 100 that starts on 2026-01-01 and has no end date. *)
Definition day (y m d : Z) : Z := dayOfString (mkDateString y m d).

Definition dailySeries : RecurringTransaction :=
  mkRecurring 1%nat 7%nat 3%nat 100 income None daily (day 2026 1 1) None (day 2026 1 1) true.

Definition dailyStore : Store := mkStore [7%nat] [3%nat] [dailySeries] [] [].

Definition noUpdates : SeriesUpdates := mkUpdates None None None None None None None.

(** C7.  A scoped edit or a scoped delete whose effective date lies outside
    the window of the series throws, and the store it leaves is the store it
    was called on: no series and no ledger entry has changed. *)
Theorem outside_window_rejected_without_mutation :
  forall (id : Id) (effectiveDate : DateString) (scope : Scope) (updates : SeriesUpdates)
         (st : Store) (existing : RecurringTransaction),
    getRecurringTransactionById id st = Some existing ->
    outsideWindow effectiveDate existing ->
    (exists message,
       editRecurringTransaction id effectiveDate scope updates st = Throw st message) /\
    (exists message,
       deleteRecurringTransaction id effectiveDate scope st = Throw st message).
Proof.
  intros id eff scope updates st existing Hget Hout.
  unfold editRecurringTransaction, deleteRecurringTransaction.
  rewrite Hget, effective_before_start, effective_after_end.
  destruct (outside_checks _ _ Hout) as [H|[H1 H2]].
  - rewrite H. split; eexists; reflexivity.
  - rewrite H1, H2. split; eexists; reflexivity.
Qed.

Lemma outside_window_rejected_without_mutation_witness :
  (exists message,
     editRecurringTransaction 1%nat (mkDateString 2025 12 31) future noUpdates dailyStore
     = Throw dailyStore message) /\
  (exists message,
     deleteRecurringTransaction 1%nat (mkDateString 2025 12 31) future dailyStore
     = Throw dailyStore message).
Proof.
  apply (outside_window_rejected_without_mutation 1%nat (mkDateString 2025 12 31) future
           noUpdates dailyStore dailySeries).
  - reflexivity.
  - left. vm_compute. reflexivity.
Defined.

(** ** Rows and keys *)

Section RowFacts.
Context {A : Type} (key : A -> Id).

Lemma findRow_Some (i : Id) (l : list A) (x : A) :
  findRow key i l = Some x -> In x l /\ key x = i.
Proof.
  unfold findRow. intros H. apply find_some in H as [H1 H2].
  apply Nat.eqb_eq in H2. tauto.
Qed.

Lemma findRow_None (i : Id) (l : list A) :
  findRow key i l = None -> ~ In i (map key l).
Proof.
  unfold findRow. intros H Hin. apply in_map_iff in Hin as (x & Hx & Hin).
  pose proof (find_none _ _ H x Hin) as Hf. cbn in Hf.
  apply Nat.eqb_neq in Hf. tauto.
Qed.

Lemma findRow_updateRow (i : Id) (f : A -> A) (l : list A) (x : A) :
  (forall y, key (f y) = key y) ->
  findRow key i l = Some x ->
  findRow key i (updateRow key i f l) = Some (f x).
Proof.
  intros Hf. unfold findRow. induction l as [|y l IH]; cbn; [discriminate|].
  destruct (Nat.eqb (key y) i) eqn:E; cbn.
  - intros [= ->]. rewrite Hf, E. reflexivity.
  - rewrite E. exact IH.
Qed.

Lemma map_key_updateRow (i : Id) (f : A -> A) (l : list A) :
  (forall y, key (f y) = key y) ->
  map key (updateRow key i f l) = map key l.
Proof.
  intros Hf. induction l as [|y l IH]; cbn; [reflexivity|].
  destruct (Nat.eqb (key y) i); cbn; [rewrite Hf|rewrite IH]; reflexivity.
Qed.

Lemma deleteRow_Forall (P : A -> Prop) (i : Id) (l : list A) :
  Forall P l -> Forall P (deleteRow key i l).
Proof.
  induction 1 as [|y l Hy Hl IH]; cbn; [constructor|].
  destruct (Nat.eqb (key y) i); [exact Hl|constructor; assumption].
Qed.

(** With unique keys, deleting by the key of a row takes out that row. *)
Lemma deleteRow_split (t : A) (l : list A) :
  NoDup (map key l) -> In t l ->
  exists l1 l2, l = l1 ++ t :: l2 /\ deleteRow key (key t) l = l1 ++ l2.
Proof.
  induction l as [|y l IH]; cbn; intros Hnd Hin; [contradiction|].
  inversion Hnd as [|? ? Hy Hnd']; subst.
  destruct Hin as [->|Hin].
  - exists [], l. rewrite Nat.eqb_refl. split; reflexivity.
  - destruct (Nat.eqb (key y) (key t)) eqn:E.
    + apply Nat.eqb_eq in E. exfalso. apply Hy. rewrite E. apply in_map. exact Hin.
    + destruct (IH Hnd' Hin) as (l1 & l2 & H1 & H2).
      exists (y :: l1), l2. cbn. rewrite H1 at 1. rewrite H2. split; reflexivity.
Qed.
End RowFacts.

(** ** Date strings and days *)

Lemma dayOfString_format (t : Z) : dayOfString (formatDateToString t) = Day t.
Proof.
  unfold dayOfString, parseDate, formatDateToString, newDate.
  cbn [ds_year ds_month ds_day].
  rewrite Day_MakeDate by (unfold msPerDay; lia).
  replace (getMonth t + 1 - 1) with (getMonth t) by lia.
  apply MakeDay_fields.
Qed.

Lemma Day_parseDate (s : DateString) : Day (parseDate s) = dayOfString s.
Proof. reflexivity. Qed.

Lemma getPreviousDay_shift (t : Z) : getPreviousDay t = t - msPerDay.
Proof.
  unfold getPreviousDay.
  replace (getDate t - 1) with (getDate t + -1) by lia.
  rewrite setDate_shift. lia.
Qed.

(** ** The objects of the service, as the series model reads them *)

(** An object without [amount], [type], [description] and [frequency] gives
    the model nothing to write: the update is a lookup. *)
Lemma update_of_unread_keys (i : Id) (o : SeriesObject) (st : Store) :
  (obj_amount o = None /\ obj_type o = None /\ obj_description o = None /\
   obj_frequency o = None) ->
  updateRecurringTransaction i (readUpdateInput o) st
  = Return st (getRecurringTransactionById i st).
Proof.
  intros (H1 & H2 & H3 & H4). unfold updateRecurringTransaction, readUpdateInput.
  rewrite H1, H2, H3, H4. reflexivity.
Qed.

(** An object of the service never gives the model the owner of a row to
    create. *)
Lemma create_of_service_object (o : SeriesObject) (st : Store) :
  createRecurringTransactionFrom (readCreateInput o) st
  = Throw st "Invalid prisma.recurringTransaction.create() invocation".
Proof. reflexivity. Qed.

(** The delete of scope [future] hands the model [{ endDate: .. }]: the
    model has nothing to write. *)
Lemma scoped_delete_future (id : Id) (eff : DateString) (st : Store)
  (existing : RecurringTransaction) :
  getRecurringTransactionById id st = Some existing ->
  insideWindow eff existing ->
  deleteRecurringTransaction id eff future st = Return st (mkDeleteResult false).
Proof.
  intros Hget Hin. destruct (inside_checks _ _ Hin) as [H1 H2].
  unfold deleteRecurringTransaction.
  rewrite Hget, effective_before_start, effective_after_end, H1, H2.
  rewrite update_of_unread_keys by (repeat split). reflexivity.
Qed.

(** The edit of scope [future] does the same, and then asks the model for a
    row without owner. *)
Lemma scoped_edit_future (id : Id) (eff : DateString) (updates : SeriesUpdates)
  (st : Store) (existing : RecurringTransaction) :
  getRecurringTransactionById id st = Some existing ->
  insideWindow eff existing ->
  editRecurringTransaction id eff future updates st
  = Throw st "Invalid prisma.recurringTransaction.create() invocation".
Proof.
  intros Hget Hin. destruct (inside_checks _ _ Hin) as [H1 H2].
  unfold editRecurringTransaction.
  rewrite Hget, effective_before_start, effective_after_end, H1, H2.
  rewrite update_of_unread_keys by (repeat split). cbn [bind].
  rewrite create_of_service_object. reflexivity.
Qed.

(** ** Scoped delete: what each scope returns and writes *)

Lemma findOnDay_Some (userId id : Id) (eff : DateString) (st : Store) (t : Transaction) :
  let effectiveDateObj :=
    setHours (newDate (ds_year eff) (ds_month eff - 1) (ds_day eff)) 0 0 0 0 in
  findOnDay userId id (setHours effectiveDateObj 0 0 0 0)
            (setHours effectiveDateObj 23 59 59 999) st = Some t ->
  In t (transactions st) /\ tx_userId t = userId /\
  tx_recurringTransactionId t = Some id /\ tx_date t = dayOfString eff.
Proof.
  intros effObj H. unfold findOnDay in H. apply find_some in H as [Hin H].
  apply andb_true_iff in H as [H H4]. apply andb_true_iff in H as [H H3].
  apply andb_true_iff in H as [H1 H2].
  apply Nat.eqb_eq in H1. apply Z.leb_le in H2, H3.
  split; [exact Hin|]. split; [exact H1|]. split.
  - destruct (tx_recurringTransactionId t) as [x|]; cbn in H4; [|discriminate].
    apply Nat.eqb_eq in H4. congruence.
  - rewrite setHours_midnight in H2. rewrite setHours_endOfDay in H3.
    unfold effObj in H2, H3. rewrite Day_setHours_midnight in H2, H3.
    fold (parseDate eff) in H2, H3. rewrite Day_parseDate in H2, H3.
    unfold ofDay, MakeDate, msPerDay in H2, H3. lia.
Qed.

(** C10.  For an effective date in the window of an existing series, the
    scoped delete returns [deleted: true] exactly for the scope [all].  For
    the scopes [single] and [future] it returns [deleted: false] and the
    series is still in the store; for the scope [single] the table of the
    series is not written, and the ledger is either unchanged or has lost one
    entry, an entry of that series on the effective date. *)
Theorem scoped_delete_reports_and_writes :
  forall (id : Id) (effectiveDate : DateString) (scope : Scope) (st : Store)
         (existing : RecurringTransaction),
    getRecurringTransactionById id st = Some existing ->
    insideWindow effectiveDate existing ->
    NoDup (map tx_id (transactions st)) ->
    ((exists st', deleteRecurringTransaction id effectiveDate scope st
                  = Return st' (mkDeleteResult true)) <-> scope = all) /\
    (scope = single \/ scope = future ->
     exists st', deleteRecurringTransaction id effectiveDate scope st
                 = Return st' (mkDeleteResult false) /\
                 exists r, getRecurringTransactionById id st' = Some r) /\
    (scope = single ->
     exists st', deleteRecurringTransaction id effectiveDate scope st
                 = Return st' (mkDeleteResult false) /\
                 recurringTransactions st' = recurringTransactions st /\
                 (transactions st' = transactions st \/
                  exists l1 t l2,
                    transactions st = l1 ++ t :: l2 /\
                    transactions st' = l1 ++ l2 /\
                    tx_recurringTransactionId t = Some id /\
                    tx_date t = dayOfString effectiveDate)).
Proof.
  intros id eff scope st existing Hget Hin Hnd.
  destruct (inside_checks _ _ Hin) as [H1 H2].
  assert (Hsingle :
    exists st', deleteRecurringTransaction id eff single st
                = Return st' (mkDeleteResult false) /\
                recurringTransactions st' = recurringTransactions st /\
                (transactions st' = transactions st \/
                 exists l1 t l2,
                   transactions st = l1 ++ t :: l2 /\
                   transactions st' = l1 ++ l2 /\
                   tx_recurringTransactionId t = Some id /\
                   tx_date t = dayOfString eff)).
  { unfold deleteRecurringTransaction.
    rewrite Hget, effective_before_start, effective_after_end, H1, H2.
    destruct (findOnDay _ _ _ _ st) as [t|] eqn:Hfind.
    - apply findOnDay_Some in Hfind as (Ht & _ & Hrec & Hdate).
      destruct (deleteRow_split tx_id t _ Hnd Ht) as (l1 & l2 & Hl & Hdel).
      unfold deleteTransaction, getTransactionById.
      assert (Hrow : findRow tx_id (tx_id t) (transactions st) <> None).
      { intros Hnone. apply (findRow_None tx_id _ _ Hnone). apply in_map. exact Ht. }
      destruct (findRow tx_id (tx_id t) (transactions st)); [|contradiction].
      cbn [bind]. eexists. split; [reflexivity|]. split; [reflexivity|].
      right. exists l1, t, l2. cbn [transactions set_transactions]. tauto.
    - exists st. split; [reflexivity|]. split; [reflexivity|]. left. reflexivity. }
  assert (Hfuture :
    exists st', deleteRecurringTransaction id eff future st
                = Return st' (mkDeleteResult false) /\
                exists r, getRecurringTransactionById id st' = Some r).
  { exists st. split; [|exists existing; exact Hget].
    unfold deleteRecurringTransaction.
    rewrite Hget, effective_before_start, effective_after_end, H1, H2.
    rewrite update_of_unread_keys by (repeat split). reflexivity. }
  split; [|split].
  - split.
    + intros [st' H]. destruct scope; [| | reflexivity |]; exfalso.
      * destruct Hsingle as (st1 & E & _). rewrite E in H. discriminate.
      * destruct Hfuture as (st1 & E & _). rewrite E in H. discriminate.
      * unfold deleteRecurringTransaction in H.
        rewrite Hget, effective_before_start, effective_after_end, H1, H2 in H.
        discriminate.
    + intros ->. unfold deleteRecurringTransaction.
      rewrite Hget, effective_before_start, effective_after_end, H1, H2.
      unfold RecurringTransactionModel.deleteRecurringTransaction.
      rewrite Hget. cbn [bind]. eexists. reflexivity.
  - intros [->| ->]; [|exact Hfuture].
    destruct Hsingle as (st' & E & Hrec & _). exists st'. split; [exact E|].
    exists existing. unfold getRecurringTransactionById in *. rewrite Hrec. exact Hget.
  - intros ->. exact Hsingle.
Qed.

(** ** The generation engine: what it reads and what it writes *)

(** [st'] has the users, categories and series of [st], and the ledger of
    [st] followed by new entries. *)
Definition extends (st st' : Store) : Prop :=
  users st' = users st /\ categories st' = categories st /\
  recurringTransactions st' = recurringTransactions st /\
  exists l, transactions st' = transactions st ++ l.

Lemma extends_refl (st : Store) : extends st st.
Proof. repeat split. exists []. rewrite app_nil_r. reflexivity. Qed.

Lemma extends_trans (a b c : Store) : extends a b -> extends b c -> extends a c.
Proof.
  intros (U1 & C1 & R1 & l1 & T1) (U2 & C2 & R2 & l2 & T2).
  repeat split; try congruence.
  exists (l1 ++ l2). rewrite T2, T1, app_assoc. reflexivity.
Qed.

Lemma extends_log (st : Store) (e : LogEvent) : extends st (log st e).
Proof. repeat split. exists []. cbn. rewrite app_nil_r. reflexivity. Qed.

Lemma createTransaction_cases (input : CreateTransactionInput) (st : Store) :
  (exists row,
     createTransaction input st
     = Return (set_transactions st (transactions st ++ [row])) row /\
     tx_userId row = cti_userId input /\
     tx_categoryId row = cti_categoryId input /\
     tx_amount row = cti_amount input /\
     tx_date row = dayOfString (cti_date input) /\
     tx_recurringTransactionId row = cti_recurringTransactionId input /\
     tx_isOverride row = orElse (cti_isOverride input) false /\
     TransactionModel.referencesHold st (cti_userId input) (cti_categoryId input)
       (cti_recurringTransactionId input) = true) \/
  (createTransaction input st = Throw st "Foreign key constraint failed" /\
   TransactionModel.referencesHold st (cti_userId input) (cti_categoryId input)
     (cti_recurringTransactionId input) = false).
Proof.
  unfold createTransaction. cbn [tx_userId tx_categoryId tx_recurringTransactionId].
  destruct (TransactionModel.referencesHold st _ _ _) eqn:E.
  - left. eexists. split; [reflexivity|]. cbn. repeat split; reflexivity.
  - right. split; reflexivity.
Qed.

Lemma processDateForRecurring_extends (date : Z) (recurring : RecurringTransaction)
  (dateStr : DateString) (st : Store) :
  extends st (fst (processDateForRecurring date recurring dateStr st)).
Proof.
  unfold processDateForRecurring.
  destruct (negb _); [apply extends_refl|].
  destruct (findOverride _ _ _); [apply extends_refl|].
  destruct (findGenerated _ _ _); [apply extends_refl|].
  destruct (createTransaction_cases
              (mkCreateTransactionInput (rt_userId recurring) (rt_categoryId recurring)
                 (rt_amount recurring) (rt_type recurring) (rt_description recurring)
                 dateStr (Some (rt_id recurring)) (Some false)) st)
    as [(row & -> & _)|[-> _]]; cbn [fst].
  - repeat split. exists [row]. reflexivity.
  - apply extends_log.
Qed.

Lemma catchUpLoop_extends (recurring : RecurringTransaction) (s : Z) (e : option Z)
  (ee : Z) (maxDates n : nat) :
  forall w, extends (cu_store w) (cu_store (catchUpLoop recurring s e ee maxDates n w)).
Proof.
  induction n as [|n IH]; intros w; cbn [catchUpLoop]; [apply extends_refl|].
  destruct (negb _); [apply extends_refl|].
  destruct (afterEnd _ _); [apply extends_refl|].
  match goal with
  | |- context [processDateForRecurring ?d ?r ?s ?st] =>
      pose proof (processDateForRecurring_extends d r s st) as Hp;
      destruct (processDateForRecurring d r s st) as [st1 result]
  end.
  cbn [fst] in Hp.
  destruct (pr_nextOccurrence result) as [nx|]; cbn [cu_store]; [|exact Hp].
  destruct n as [|n'].
  - cbn [cu_store]. eapply extends_trans; [exact Hp|apply extends_log].
  - eapply extends_trans; [exact Hp|]. specialize (IH (mkCatchUp st1
      (setHours nx 0 0 0 0)
      (if pr_created result then Some (if cu_currentDate w <? s
         then setHours s 0 0 0 0 else cu_currentDate w) else cu_lastProcessedDate w)
      (S (cu_processedCount w))
      (if pr_created result then S (cu_created w) else cu_created w)
      (if pr_created result then cu_skipped w else S (cu_skipped w)))).
    exact IH.
Qed.

(** The policy argument built by [generateTransactionsFromRecurring] and the
    one built by [processDateForRecurring] decide alike. *)
Definition policyOf (recurring : RecurringTransaction) : Recurrence :=
  mkRecurrence (setHours (ofDay (rt_startDate recurring)) 0 0 0 0)
    (option_map (fun e => setHours (ofDay e) 23 59 59 999) (rt_endDate recurring))
    (rt_frequency recurring).

Lemma isDateValidOccurrence_policyOf (d : Z) (r : RecurringTransaction) :
  isDateValidOccurrence d (policyOf r) = isDateValidOccurrence d (recurrenceOf r).
Proof.
  unfold isDateValidOccurrence, policyOf, recurrenceOf.
  cbn [startDate endDate frequency].
  rewrite setHours_midnight_idem.
  destruct (rt_endDate r) as [e|]; cbn [option_map]; [|reflexivity].
  rewrite setHours_endOfDay_idem. reflexivity.
Qed.

Lemma isDateValidOccurrence_midnight (d : Z) (p : Recurrence) :
  isDateValidOccurrence (setHours d 0 0 0 0) p = isDateValidOccurrence d p.
Proof. unfold isDateValidOccurrence. rewrite setHours_midnight_idem. reflexivity. Qed.

Lemma ofDay_Day (d : Z) : ofDay (Day d) = setHours d 0 0 0 0.
Proof. rewrite setHours_midnight. unfold ofDay, MakeDate. lia. Qed.

Lemma findNextValidLoop_valid (p : Recurrence) (e : option Z) (n : nat) :
  forall c d, findNextValidLoop p e n c = Some d -> isDateValidOccurrence d p = true.
Proof.
  induction n as [|n IH]; intros c d; cbn [findNextValidLoop]; [discriminate|].
  destruct (isDateValidOccurrence c p) eqn:Hv; [intros [= <-]; exact Hv|].
  destruct (afterEnd _ _); [discriminate|].
  destruct (_ <=? _); [discriminate|]. apply IH.
Qed.

Lemma findNextValidOccurrence_valid (c : Z) (p : Recurrence) (n : nat) (d : Z) :
  findNextValidOccurrence c p n = Some d -> isDateValidOccurrence d p = true.
Proof.
  unfold findNextValidOccurrence. destruct (afterEnd _ _); [discriminate|].
  apply findNextValidLoop_valid.
Qed.

(** Processing a series returns, and writes nothing but new entries of the
    ledger and lines of the console: the two updates of the pointer are
    lookups. *)
Lemma generateForRecurring_extends (target : Z) (maxCatchUpDays : nat)
  (recurring : RecurringTransaction) (st : Store) (res : GenerateResult) :
  exists st' res',
    generateForRecurring target maxCatchUpDays recurring st res = Return st' res' /\
    extends st st'.
Proof.
  unfold generateForRecurring.
  destruct (negb (rt_isActive recurring)); [eexists _, _; split; [reflexivity|apply extends_refl]|].
  cbv zeta.
  destruct (_ <? _); [eexists _, _; split; [reflexivity|apply extends_refl]|].
  match goal with
  | |- context [match ?start with Some _ => _ | None => _ end] =>
      destruct start as [c0|]
  end.
  - match goal with
    | |- context [catchUpLoop ?r ?s ?e ?ee ?m ?n ?w] =>
        pose proof (catchUpLoop_extends r s e ee m n w) as Hext;
        generalize dependent (catchUpLoop r s e ee m n w)
    end.
    intros w Hext. cbn [cu_store] in Hext.
    match goal with
    | |- context [match ?o with Some _ => _ | None => _ end] => destruct o as [d|]
    end.
    + rewrite update_of_unread_keys by (repeat split). cbn [bind].
      eexists _, _. split; [reflexivity|exact Hext].
    + eexists _, _. split; [reflexivity|exact Hext].
  - rewrite update_of_unread_keys by (repeat split). cbn [bind].
    eexists _, _. split; [reflexivity|apply extends_refl].
Qed.

(** ** The loop over the due series *)

Lemma insertByNext_perm (r : RecurringTransaction) (l : list RecurringTransaction) :
  Permutation (insertByNext r l) (r :: l).
Proof.
  induction l as [|x l IH]; cbn; [reflexivity|].
  destruct (_ <? _); [reflexivity|].
  rewrite IH. apply perm_swap.
Qed.

Lemma orderByNext_perm (l : list RecurringTransaction) : Permutation (orderByNext l) l.
Proof.
  induction l as [|x l IH]; cbn; [reflexivity|].
  rewrite insertByNext_perm. constructor. exact IH.
Qed.

Lemma getDue_In (date : DateString) (st : Store) (r : RecurringTransaction) :
  In r (getDueRecurringTransactions date st) ->
  In r (recurringTransactions st) /\ isDue (parseDate date) r = true.
Proof.
  unfold getDueRecurringTransactions. intros H.
  apply (Permutation_in _ (orderByNext_perm _)) in H.
  apply filter_In in H. exact H.
Qed.

Section RowFacts2.
Context {A : Type} (key : A -> Id).

Lemma findRow_updateRow_other (i j : Id) (f : A -> A) (l : list A) :
  (forall y, key (f y) = key y) -> i <> j ->
  findRow key i (updateRow key j f l) = findRow key i l.
Proof.
  intros Hf Hne. unfold findRow. induction l as [|y l IH]; cbn; [reflexivity|].
  destruct (Nat.eqb (key y) j) eqn:E; cbn.
  - rewrite Hf. apply Nat.eqb_eq in E.
    destruct (Nat.eqb (key y) i) eqn:E'; [|reflexivity].
    apply Nat.eqb_eq in E'. congruence.
  - rewrite IH. reflexivity.
Qed.

Lemma findRow_In_NoDup (l : list A) (x : A) :
  NoDup (map key l) -> In x l -> findRow key (key x) l = Some x.
Proof.
  unfold findRow. induction l as [|y l IH]; cbn; intros Hnd Hin; [contradiction|].
  inversion Hnd as [|? ? Hy Hnd']; subst.
  destruct Hin as [->|Hin]; [rewrite Nat.eqb_refl; reflexivity|].
  destruct (Nat.eqb (key y) (key x)) eqn:E; [|auto].
  apply Nat.eqb_eq in E. exfalso. apply Hy. rewrite E. apply in_map. exact Hin.
Qed.

Lemma same_key_eq (l : list A) (x y : A) :
  NoDup (map key l) -> In x l -> In y l -> key x = key y -> x = y.
Proof.
  intros Hnd Hx Hy E.
  pose proof (findRow_In_NoDup l x Hnd Hx) as H1.
  pose proof (findRow_In_NoDup l y Hnd Hy) as H2.
  rewrite E in H1. congruence.
Qed.
End RowFacts2.

Lemma generateForAll_extends (target : Z) (maxCatchUpDays : nat)
  (dueRecurring : list RecurringTransaction) :
  forall st res,
    exists st' res',
      generateForAll target maxCatchUpDays dueRecurring st res = Return st' res' /\
      extends st st'.
Proof.
  induction dueRecurring as [|r rest IH]; intros st res; cbn [generateForAll].
  - eexists _, _. split; [reflexivity|apply extends_refl].
  - destruct (generateForRecurring_extends target maxCatchUpDays r st res)
      as (st1 & res1 & -> & H1).
    cbn [bind]. destruct (IH st1 res1) as (st' & res' & -> & H2).
    eexists _, _. split; [reflexivity|]. eapply extends_trans; eassumption.
Qed.

Lemma generate_extends (now : Z) (targetDate : option DateString) (maxCatchUpDays : nat)
  (st : Store) :
  exists st' res,
    generateTransactionsFromRecurring now targetDate maxCatchUpDays st = Return st' res /\
    extends st st'.
Proof. unfold generateTransactionsFromRecurring. apply generateForAll_extends. Qed.

(** ** The pointer after generation *)

(** A weekly series that starts on Thursday 2026-01-01 and whose pointer was
    left on Saturday 2026-01-03. *)
Definition desyncSeries : RecurringTransaction :=
  mkRecurring 1%nat 7%nat 3%nat 100 income None weekly (day 2026 1 1) None
              (day 2026 1 3) true.

Definition desyncStore : Store := mkStore [7%nat] [3%nat] [desyncSeries] [] [].

(** C1.  Generation never writes the pointer of a series.  The two places
    that store it hand the series model an object with the key
    [nextOccurrence]; the model reads [next_occurrence], finds nothing to
    write, and answers with a lookup.  So generation returns with the table of
    the series as it found it, and a pointer that is not an occurrence of its
    series is not repaired: the pointer of [desyncStore] is on 2026-01-03,
    which is not an occurrence, before and after the generation up to
    2026-01-05. *)
Theorem generate_never_writes_the_pointer :
  (forall (now : Z) (targetDate : option DateString) (maxCatchUpDays : nat) (st : Store),
     exists st' res,
       generateTransactionsFromRecurring now targetDate maxCatchUpDays st
       = Return st' res /\
       recurringTransactions st' = recurringTransactions st) /\
  (exists st' res,
     generateTransactionsFromRecurring 0 (Some (mkDateString 2026 1 5))
       defaultMaxCatchUpDays desyncStore = Return st' res /\
     getRecurringTransactionById 1%nat st' = Some desyncSeries /\
     rt_nextOccurrence desyncSeries = day 2026 1 3 /\
     isDateValidOccurrence (ofDay (rt_nextOccurrence desyncSeries))
       (recurrenceOf desyncSeries) = false).
Proof.
  split.
  - intros now targetDate maxCatchUpDays st.
    destruct (generate_extends now targetDate maxCatchUpDays st)
      as (st' & res & H & _ & _ & Hr & _).
    exists st', res. split; assumption.
  - eexists _, _. split; [vm_compute; reflexivity|].
    split; [vm_compute; reflexivity|]. split; vm_compute; reflexivity.
Qed.

(** ** The window of a series: end date not before start date *)

Definition endNotBeforeStart (r : RecurringTransaction) : Prop :=
  match rt_endDate r with
  | Some e => rt_startDate r <= e
  | None => True
  end.

Definition seriesInvariant (st : Store) : Prop :=
  Forall endNotBeforeStart (recurringTransactions st).

Lemma updateRow_Forall_found {A : Type} (key : A -> Id) (P : A -> Prop) (i : Id)
  (f : A -> A) (l : list A) (x : A) :
  findRow key i l = Some x -> P (f x) -> Forall P l -> Forall P (updateRow key i f l).
Proof.
  unfold findRow. intros Hfind Hfx. induction 1 as [|y l Hy Hl IH]; cbn; [constructor|].
  cbn in Hfind. destruct (Nat.eqb (key y) i).
  - injection Hfind as ->. constructor; assumption.
  - constructor; auto.
Qed.

Lemma Day_parseDate_format (t : Z) : Day (parseDate (formatDateToString t)) = Day t.
Proof. rewrite Day_parseDate. apply dayOfString_format. Qed.

Lemma updateRecurring_storeOf (i : Id) (input : UpdateRecurringTransactionInput)
  (st : Store) :
  storeOf (updateRecurringTransaction i input st) = st \/
  exists r,
    getRecurringTransactionById i st = Some r /\
    updateRecurringTransaction i input st
    = Return (set_recurringTransactions st
                (updateRow rt_id i (applyUpdate input) (recurringTransactions st)))
             (Some (applyUpdate input r)).
Proof.
  unfold updateRecurringTransaction.
  destruct (isNoUpdate input); [left; reflexivity|].
  destruct (getRecurringTransactionById i st) as [r|]; [|left; reflexivity].
  destruct (writtenReferencesHold st input); [|left; reflexivity].
  right. exists r. split; reflexivity.
Qed.

Lemma seriesInvariant_update (i : Id) (input : UpdateRecurringTransactionInput)
  (st : Store) :
  seriesInvariant st ->
  (forall r, getRecurringTransactionById i st = Some r ->
             endNotBeforeStart (applyUpdate input r)) ->
  seriesInvariant (storeOf (updateRecurringTransaction i input st)).
Proof.
  intros Hinv Hr.
  destruct (updateRecurring_storeOf i input st) as [->|(r & Hget & ->)]; [exact Hinv|].
  cbn [storeOf]. unfold seriesInvariant.
  cbn [recurringTransactions set_recurringTransactions].
  eapply updateRow_Forall_found; [exact Hget|apply Hr; exact Hget|exact Hinv].
Qed.

Lemma storeOf_bind_return {A B : Type} (m : Outcome A) (f : A -> B) :
  storeOf (bind m (fun st1 a => Return st1 (f a))) = storeOf m.
Proof. destruct m; reflexivity. Qed.

Lemma createTransaction_rows (input : CreateTransactionInput) (st : Store) :
  recurringTransactions (storeOf (createTransaction input st)) = recurringTransactions st.
Proof.
  destruct (createTransaction_cases input st) as [(row & -> & _)|[-> _]]; reflexivity.
Qed.

Lemma updateTransaction_rows (i : Id) (input : UpdateTransactionInput) (st : Store) :
  recurringTransactions (storeOf (updateTransaction i input st)) = recurringTransactions st.
Proof.
  unfold updateTransaction. destruct (noTransactionUpdate input); [reflexivity|].
  destruct (getTransactionById i st); [|reflexivity].
  destruct (TransactionModel.writtenReferencesHold st input); reflexivity.
Qed.

Lemma deleteTransaction_rows (i : Id) (st : Store) :
  recurringTransactions (storeOf (deleteTransaction i st)) = recurringTransactions st.
Proof.
  unfold deleteTransaction. destruct (getTransactionById i st); reflexivity.
Qed.

(** What the model reads of an object of the service has no date. *)
Lemma readUpdateInput_window (o : SeriesObject) (r : RecurringTransaction) :
  endNotBeforeStart r -> endNotBeforeStart (applyUpdate (readUpdateInput o) r).
Proof. intros H. exact H. Qed.

Lemma seriesInvariant_delete (id : Id) (eff : DateString) (scope : Scope) (st : Store) :
  seriesInvariant st ->
  seriesInvariant (storeOf (deleteRecurringTransaction id eff scope st)).
Proof.
  intros Hinv. unfold deleteRecurringTransaction.
  destruct (getRecurringTransactionById id st) as [existing|] eqn:Hget; [|exact Hinv].
  destruct (_ <? _); [exact Hinv|]. destruct (afterEnd _ _); [exact Hinv|].
  destruct scope.
  - destruct (findOnDay _ _ _ _ _) as [t|]; [|exact Hinv].
    rewrite storeOf_bind_return. unfold seriesInvariant.
    rewrite deleteTransaction_rows. exact Hinv.
  - rewrite update_of_unread_keys by (repeat split). exact Hinv.
  - rewrite storeOf_bind_return.
    unfold RecurringTransactionModel.deleteRecurringTransaction. rewrite Hget.
    cbn [storeOf]. unfold seriesInvariant. cbn [recurringTransactions].
    apply deleteRow_Forall. exact Hinv.
  - exact Hinv.
Qed.

Lemma seriesInvariant_edit (id : Id) (eff : DateString) (scope : Scope)
  (updates : SeriesUpdates) (st : Store) :
  seriesInvariant st ->
  seriesInvariant (storeOf (editRecurringTransaction id eff scope updates st)).
Proof.
  intros Hinv. unfold editRecurringTransaction.
  destruct (getRecurringTransactionById id st) as [existing|] eqn:Hget; [|exact Hinv].
  destruct (_ <? _); [exact Hinv|]. destruct (afterEnd _ _); [exact Hinv|].
  destruct scope.
  - destruct (findOnDay _ _ _ _ _) as [t|]; rewrite storeOf_bind_return;
      unfold seriesInvariant;
      [rewrite updateTransaction_rows|rewrite createTransaction_rows]; exact Hinv.
  - rewrite update_of_unread_keys by (repeat split). cbn [bind].
    rewrite create_of_service_object. exact Hinv.
  - rewrite storeOf_bind_return. apply seriesInvariant_update; [exact Hinv|].
    intros r Hr. apply readUpdateInput_window.
    apply (Forall_forall endNotBeforeStart (recurringTransactions st)); [exact Hinv|].
    apply (findRow_Some rt_id _ _ _ Hr).
  - exact Hinv.
Qed.

(** C6.  On a store where no series ends before it starts, generation, the
    scoped delete and the scoped edit leave a store with the same property,
    in every scope, for every input, whether they return or throw.  None of
    them writes a start date or an end date: the end date that the scope
    [future] means to write goes to the model under the key [endDate], which
    the model does not read, and the edit of scope [all] reaches the model
    with its amount, type, description and frequency only.  In particular the
    delete of scope [future] on the start date of a series returns and leaves
    the store as it is. *)
Theorem window_invariant_preserved :
  forall st : Store,
    seriesInvariant st ->
    (forall now targetDate maxCatchUpDays,
       seriesInvariant
         (storeOf (generateTransactionsFromRecurring now targetDate maxCatchUpDays st))) /\
    (forall id effectiveDate scope,
       seriesInvariant (storeOf (deleteRecurringTransaction id effectiveDate scope st))) /\
    (forall id effectiveDate scope updates,
       seriesInvariant
         (storeOf (editRecurringTransaction id effectiveDate scope updates st))) /\
    (forall id effectiveDate existing,
       getRecurringTransactionById id st = Some existing ->
       dayOfString effectiveDate = rt_startDate existing ->
       insideWindow effectiveDate existing ->
       deleteRecurringTransaction id effectiveDate future st
       = Return st (mkDeleteResult false)).
Proof.
  intros st Hinv. split; [|split; [|split]].
  - intros now targetDate maxCatchUpDays.
    destruct (generate_extends now targetDate maxCatchUpDays st)
      as (st' & res & -> & _ & _ & Hr & _).
    cbn [storeOf]. unfold seriesInvariant. rewrite Hr. exact Hinv.
  - intros id eff scope. apply seriesInvariant_delete. exact Hinv.
  - intros id eff scope updates. apply seriesInvariant_edit. exact Hinv.
  - intros id eff existing Hget _ Hin. apply scoped_delete_future with existing; assumption.
Qed.

Lemma window_invariant_preserved_witness :
  (forall now targetDate maxCatchUpDays,
     seriesInvariant
       (storeOf (generateTransactionsFromRecurring now targetDate maxCatchUpDays
                   dailyStore))) /\
  (forall id effectiveDate scope,
     seriesInvariant
       (storeOf (deleteRecurringTransaction id effectiveDate scope dailyStore))) /\
  (forall id effectiveDate scope updates,
     seriesInvariant
       (storeOf (editRecurringTransaction id effectiveDate scope updates dailyStore))) /\
  (forall id effectiveDate existing,
     getRecurringTransactionById id dailyStore = Some existing ->
     dayOfString effectiveDate = rt_startDate existing ->
     insideWindow effectiveDate existing ->
     deleteRecurringTransaction id effectiveDate future dailyStore
     = Return dailyStore (mkDeleteResult false)).
Proof.
  apply (window_invariant_preserved dailyStore).
  constructor; [exact I|constructor].
Defined.

(** ** A failed creation *)




(** Two due series, the first with a missing category. *)
Definition secondSeries : RecurringTransaction :=
  mkRecurring 2%nat 7%nat 4%nat 25 expense None daily (day 2026 1 1) None
              (day 2026 1 1) true.

Definition mixedStore : Store :=
  mkStore [7%nat] [4%nat] [dailySeries; secondSeries] [] [].

(** ** Witness of the scoped delete *)

Definition ledgerStore : Store :=
  mkStore [7%nat] [3%nat] [dailySeries]
    [mkTransaction 1%nat 7%nat 3%nat 100 income None (day 2026 1 15) (Some 1%nat) false]
    [].

Lemma scoped_delete_reports_and_writes_witness :
  exists st',
    deleteRecurringTransaction 1%nat (mkDateString 2026 1 15) single ledgerStore
    = Return st' (mkDeleteResult false) /\
    exists r, getRecurringTransactionById 1%nat st' = Some r.
Proof.
  destruct (scoped_delete_reports_and_writes 1%nat (mkDateString 2026 1 15) single
              ledgerStore dailySeries) as (_ & H & _).
  - vm_compute. reflexivity.
  - split; [vm_compute; discriminate|exact I].
  - vm_compute. constructor; [intros []|constructor].
  - apply H. left. reflexivity.
Defined.

(** ** The edit of scope [future], then generation *)

Definition amount150 : SeriesUpdates :=
  mkUpdates None (Some 150) None None None None None.

(** The store after the edit of scope [future] of the daily series at
    2026-01-15, after generation up to 2026-01-14, and after generation up to
    2026-01-20. *)
Definition splitStore : Store :=
  storeOf (editRecurringTransaction 1%nat (mkDateString 2026 1 15) future amount150
             dailyStore).

Definition splitStore14 : Store :=
  storeOf (generateTransactionsFromRecurring 0 (Some (mkDateString 2026 1 14))
             defaultMaxCatchUpDays splitStore).

Definition splitStore20 : Store :=
  storeOf (generateTransactionsFromRecurring 0 (Some (mkDateString 2026 1 20))
             defaultMaxCatchUpDays splitStore14).

(** The entries of the ledger as (amount, day of January 2026, series). *)
Definition ledgerOf (st : Store) : list (Z * Z * option Id) :=
  map (fun t => (tx_amount t, tx_date t - day 2025 12 31, tx_recurringTransactionId t))
      (transactions st).

(** C2.  The edit of scope [future] does not split the series.  The end date
    of the original goes to the model under the key [endDate], which the
    model does not read, and the new series goes to it without the keys
    [user_id], [start_date] and [next_occurrence]: the database refuses the
    row and the edit throws, with the store as it was.  The series keeps its
    amount and has no end date, no series of amount 150 exists, and the two
    generations produce the entries of 2026-01-01 to 2026-01-20 at the old
    amount: 14 by the first, and 6 by the second, which finds the 14 again
    and skips them. *)
Theorem future_edit_throws_and_nothing_splits :
  editRecurringTransaction 1%nat (mkDateString 2026 1 15) future amount150 dailyStore
  = Throw dailyStore "Invalid prisma.recurringTransaction.create() invocation" /\
  generateTransactionsFromRecurring 0 (Some (mkDateString 2026 1 14))
    defaultMaxCatchUpDays splitStore
  = Return splitStore14 (mkGenerateResult 14 0) /\
  generateTransactionsFromRecurring 0 (Some (mkDateString 2026 1 20))
    defaultMaxCatchUpDays splitStore14
  = Return splitStore20 (mkGenerateResult 6 14) /\
  recurringTransactions splitStore20 = [dailySeries] /\
  ledgerOf splitStore20
  = [(100, 1, Some 1%nat); (100, 2, Some 1%nat); (100, 3, Some 1%nat);
     (100, 4, Some 1%nat); (100, 5, Some 1%nat); (100, 6, Some 1%nat);
     (100, 7, Some 1%nat); (100, 8, Some 1%nat); (100, 9, Some 1%nat);
     (100, 10, Some 1%nat); (100, 11, Some 1%nat); (100, 12, Some 1%nat);
     (100, 13, Some 1%nat); (100, 14, Some 1%nat); (100, 15, Some 1%nat);
     (100, 16, Some 1%nat); (100, 17, Some 1%nat); (100, 18, Some 1%nat);
     (100, 19, Some 1%nat); (100, 20, Some 1%nat)].
Proof.
  split; [vm_compute; reflexivity|]. split; [vm_compute; reflexivity|].
  split; [vm_compute; reflexivity|]. split; vm_compute; reflexivity.
Qed.

(** ** The catch-up loop *)

(** A [Date] at midnight. *)
Definition isMidnight (t : Z) : Prop := setHours t 0 0 0 0 = t.

Lemma isMidnight_setHours (t : Z) : isMidnight (setHours t 0 0 0 0).
Proof. apply setHours_midnight_idem. Qed.

Lemma isMidnight_ofDay (d : Z) : isMidnight (ofDay d).
Proof. apply setHours_midnight_ofDay. Qed.

Lemma isMidnight_TimeWithinDay (t : Z) : isMidnight t -> TimeWithinDay t = 0.
Proof.
  unfold isMidnight. rewrite setHours_midnight. intros H.
  unfold TimeWithinDay, Day, msPerDay in *. Z.to_euclidean_division_equations; lia.
Qed.

Lemma isMidnight_MakeDate (d : Z) : isMidnight (MakeDate d 0).
Proof.
  unfold isMidnight. rewrite setHours_midnight, Day_MakeDate by (unfold msPerDay; lia).
  unfold MakeDate. lia.
Qed.

Lemma calculateNextOccurrence_midnight (c : Z) (f : FrequencyType) :
  isMidnight c -> isMidnight (calculateNextOccurrence c f).
Proof.
  intros H. apply isMidnight_TimeWithinDay in H.
  unfold calculateNextOccurrence, setDate, setMonth, setFullYear.
  rewrite H. destruct f; apply isMidnight_MakeDate.
Qed.

Lemma ofDay_Day_midnight (t : Z) : isMidnight t -> ofDay (Day t) = t.
Proof. intros H. rewrite ofDay_Day. exact H. Qed.

(** The warnings of the catch-up limit on the console. *)
Definition isCapWarning (e : LogEvent) : bool :=
  match e with
  | WarnCatchUpLimit _ _ _ => true
  | ErrorCreateFailed _ _ => false
  end.

Definition capWarnings (st : Store) : nat := List.length (filter isCapWarning (console st)).

(** [st'] is a later store: same users and categories, the same series up to
    their contents, and the ledger of [st] followed by new entries. *)
Definition grows (st st' : Store) : Prop :=
  users st' = users st /\ categories st' = categories st /\
  map rt_id (recurringTransactions st') = map rt_id (recurringTransactions st) /\
  exists l, transactions st' = transactions st ++ l.

Lemma grows_refl (st : Store) : grows st st.
Proof. repeat split. exists []. rewrite app_nil_r. reflexivity. Qed.

Lemma grows_trans (a b c : Store) : grows a b -> grows b c -> grows a c.
Proof.
  intros (U1 & C1 & R1 & l1 & T1) (U2 & C2 & R2 & l2 & T2).
  repeat split; try congruence.
  exists (l1 ++ l2). rewrite T2, T1, app_assoc. reflexivity.
Qed.

Lemma extends_grows (st st' : Store) : extends st st' -> grows st st'.
Proof. intros (U & C & R & T). repeat split; try assumption. rewrite R. reflexivity. Qed.

Lemma grows_log (st : Store) (e : LogEvent) : grows st (log st e).
Proof. apply extends_grows, extends_log. Qed.

Lemma referencesHold_grows (st st' : Store) (u c : Id) (i : option Id) :
  grows st st' ->
  TransactionModel.referencesHold st' u c i = TransactionModel.referencesHold st u c i.
Proof.
  intros (U & C & R & _). unfold TransactionModel.referencesHold. rewrite U, C, R.
  reflexivity.
Qed.

(** No entry of the series will be created on date [c]: one exists, or the
    database refuses the references of the series. *)
Definition covered (r : RecurringTransaction) (st : Store) (c : Z) : Prop :=
  findGenerated r c st <> None \/
  TransactionModel.referencesHold st (rt_userId r) (rt_categoryId r) (Some (rt_id r))
  = false.

Lemma find_app_Some {A : Type} (p : A -> bool) (l l' : list A) :
  find p l <> None -> find p (l ++ l') <> None.
Proof.
  induction l as [|x l IH]; cbn; [congruence|].
  destruct (p x); [congruence|exact IH].
Qed.

Lemma covered_grows (r : RecurringTransaction) (st st' : Store) (c : Z) :
  grows st st' -> covered r st c -> covered r st' c.
Proof.
  intros Hg [H|H].
  - left. destruct Hg as (_ & _ & _ & l & T). unfold findGenerated in *.
    rewrite T. apply find_app_Some. exact H.
  - right. rewrite (referencesHold_grows _ _ _ _ _ Hg). exact H.
Qed.

Lemma capWarnings_log_error (st : Store) (i : Id) (m : string) :
  capWarnings (log st (ErrorCreateFailed i m)) = capWarnings st.
Proof.
  unfold capWarnings, log. cbn [console]. rewrite filter_app, length_app. cbn. lia.
Qed.

(** *** One date *)

Lemma processDate_invalid (c : Z) (r : RecurringTransaction) (s : DateString) (st : Store) :
  isDateValidOccurrence c (recurrenceOf r) = false ->
  processDateForRecurring c r s st
  = (st, mkProcessResult false true
           (findNextValidOccurrence c (recurrenceOf r) defaultMaxIterations)).
Proof. intros H. unfold processDateForRecurring. rewrite H. reflexivity. Qed.

Lemma processDate_covered (c : Z) (r : RecurringTransaction) (s : DateString) (st : Store) :
  isDateValidOccurrence c (recurrenceOf r) = true ->
  covered r st c ->
  exists st1,
    processDateForRecurring c r s st
    = (st1, mkProcessResult false true (Some (calculateNextOccurrence c (rt_frequency r))))
    /\ transactions st1 = transactions st /\ grows st st1.
Proof.
  intros Hv Hc. unfold processDateForRecurring. rewrite Hv. cbn [negb].
  destruct (findOverride r c st); [exists st; repeat split; apply grows_refl|].
  destruct (findGenerated r c st) eqn:Hg; [exists st; repeat split; apply grows_refl|].
  destruct Hc as [Hc|Hc]; [congruence|].
  unfold createTransaction. cbn [tx_userId tx_categoryId tx_recurringTransactionId
    cti_userId cti_categoryId cti_recurringTransactionId].
  rewrite Hc. eexists. split; [reflexivity|]. split; [reflexivity|apply grows_log].
Qed.

Lemma eqOptId_refl (i : Id) : eqOptId (Some i) (Some i) = true.
Proof. cbn. apply Nat.eqb_refl. Qed.

Lemma find_app_last {A : Type} (p : A -> bool) (l : list A) (x : A) :
  p x = true -> find p (l ++ [x]) <> None.
Proof.
  intros H. induction l as [|y l IH]; cbn.
  - rewrite H. discriminate.
  - destruct (p y); [discriminate|exact IH].
Qed.

(** Processing an occurrence leaves it covered. *)
Lemma processDate_valid (c : Z) (r : RecurringTransaction) (st : Store) :
  isDateValidOccurrence c (recurrenceOf r) = true ->
  isMidnight c ->
  exists st1 b,
    processDateForRecurring c r (formatDateToString c) st
    = (st1, mkProcessResult b (negb b) (Some (calculateNextOccurrence c (rt_frequency r))))
    /\ extends st st1 /\ capWarnings st1 = capWarnings st /\ covered r st1 c.
Proof.
  intros Hv Hm.
  pose proof (processDateForRecurring_extends c r (formatDateToString c) st) as Hext.
  unfold processDateForRecurring in *. rewrite Hv in *. cbn [negb] in *.
  destruct (findOverride r c st) eqn:Ho.
  { exists st, false. repeat split; try apply Hext. left.
    unfold findOverride in Ho. unfold findGenerated.
    apply find_some in Ho as [Hin Hp]. apply andb_true_iff in Hp as [Hp _].
    intros Hn. pose proof (find_none _ _ Hn _ Hin) as Hf. cbn beta in Hf. congruence. }
  destruct (findGenerated r c st) eqn:Hg.
  { exists st, false. repeat split; try apply Hext. left. congruence. }
  destruct (createTransaction_cases
              (mkCreateTransactionInput (rt_userId r) (rt_categoryId r) (rt_amount r)
                 (rt_type r) (rt_description r) (formatDateToString c)
                 (Some (rt_id r)) (Some false)) st)
    as [(row & E & Hu & _ & _ & Hd & Hrec & _)|[E Href]];
    rewrite E in *; cbn [fst] in Hext.
  - eexists _, true. split; [reflexivity|]. split; [exact Hext|]. split; [reflexivity|].
    left. unfold findGenerated. cbn [transactions set_transactions].
    apply find_app_last. cbn [cti_userId cti_date cti_recurringTransactionId] in *.
    rewrite Hu, Hd, Hrec, Nat.eqb_refl, eqOptId_refl, dayOfString_format,
      (ofDay_Day_midnight c Hm), Z.eqb_refl. reflexivity.
  - eexists _, false. split; [reflexivity|]. split; [exact Hext|].
    split; [apply capWarnings_log_error|]. right.
    rewrite (referencesHold_grows st); [exact Href|apply grows_log].
Qed.

(** *** The calendar advance moves forward *)

Lemma MakeDay_next_month (y m d : Z) :
  0 <= m < 12 -> MakeDay y (m + 1) d = MakeDay y m d + daysInMonth y m.
Proof.
  intros Hm. destruct (Z.eq_dec m 11) as [->|Hne].
  - unfold MakeDay. change ((11 + 1) / 12) with 1. change ((11 + 1) mod 12) with 0.
    change (11 / 12) with 0. change (11 mod 12) with 11.
    replace (y + 0) with y by lia. rewrite DayFromYear_succ. unfold daysInMonth.
    destruct (isLeap y), (isLeap (y + 1)); eval_monthOffset; zbool; bsimpl; lia.
  - rewrite !MakeDay_in_range by lia. unfold daysInMonth.
    month_cases m Hm; try lia; destruct (isLeap y); eval_monthOffset; zbool; bsimpl; lia.
Qed.

Lemma MakeDay_next_year (y m d : Z) :
  0 <= m < 12 -> MakeDay y m d + 364 <= MakeDay (y + 1) m d.
Proof.
  intros Hm. rewrite !MakeDay_in_range by lia. rewrite DayFromYear_succ.
  month_cases m Hm; destruct (isLeap y), (isLeap (y + 1)); eval_monthOffset; lia.
Qed.

Lemma daysInMonth_pos (y m : Z) : 28 <= daysInMonth y m <= 31.
Proof. unfold daysInMonth. destruct (isLeap y); zbool; bsimpl; lia. Qed.

Lemma date_as_MakeDate (c : Z) :
  c = MakeDate (MakeDay (YearFromTime c) (MonthFromTime c) (DateFromTime c))
               (TimeWithinDay c).
Proof. rewrite MakeDay_fields. symmetry. apply MakeDate_Day. Qed.

Lemma calculateNextOccurrence_gt (c : Z) (f : FrequencyType) :
  c < calculateNextOccurrence c f.
Proof.
  destruct (fields_valid c) as [Hm _]. unfold getMonth in Hm.
  unfold calculateNextOccurrence. destruct f.
  - rewrite setDate_shift. unfold msPerDay. lia.
  - rewrite setDate_shift. unfold msPerDay. lia.
  - unfold setMonth, getMonth. rewrite MakeDay_next_month by exact Hm.
    pose proof (daysInMonth_pos (YearFromTime c) (MonthFromTime c)).
    rewrite (date_as_MakeDate c) at 1. unfold MakeDate, msPerDay. lia.
  - unfold setFullYear, getFullYear.
    pose proof (MakeDay_next_year (YearFromTime c) (MonthFromTime c) (DateFromTime c) Hm).
    rewrite (date_as_MakeDate c) at 1. unfold MakeDate, msPerDay. lia.
Qed.

(** *** What the search returns *)

Lemma findNextValidLoop_ge (p : Recurrence) (e : option Z) (n : nat) :
  forall c v, findNextValidLoop p e n c = Some v -> c <= v.
Proof.
  induction n as [|n IH]; intros c v; cbn [findNextValidLoop]; [discriminate|].
  destruct (isDateValidOccurrence c p); [intros [= <-]; lia|].
  destruct (afterEnd _ _); [discriminate|].
  destruct (Z.leb_spec (calculateNextOccurrence c (frequency p)) c) as [Hle|Hgt];
    [discriminate|].
  intros Hs. apply IH in Hs. lia.
Qed.

Lemma findNextValidLoop_midnight (p : Recurrence) (e : option Z) (n : nat) :
  forall c v, isMidnight c -> findNextValidLoop p e n c = Some v -> isMidnight v.
Proof.
  induction n as [|n IH]; intros c v Hc; cbn [findNextValidLoop]; [discriminate|].
  destruct (isDateValidOccurrence c p); [intros [= <-]; exact Hc|].
  destruct (afterEnd _ _); [discriminate|].
  destruct (_ <=? _); [discriminate|].
  apply IH. apply calculateNextOccurrence_midnight. exact Hc.
Qed.

Lemma clampToStart_midnight (c : Z) (p : Recurrence) : isMidnight (clampToStart c p).
Proof. unfold clampToStart. destruct (_ <? _); apply isMidnight_setHours. Qed.

Lemma clampToStart_ge (c : Z) (p : Recurrence) : setHours c 0 0 0 0 <= clampToStart c p.
Proof. unfold clampToStart. destruct (Z.ltb_spec (setHours c 0 0 0 0)
         (setHours (startDate p) 0 0 0 0)); lia. Qed.

Lemma findNextValidOccurrence_unfold (c : Z) (p : Recurrence) (n : nat) :
  findNextValidOccurrence c p n
  = if afterEnd (clampToStart c p)
         (option_map (fun e => setHours e 23 59 59 999) (endDate p))
    then None
    else findNextValidLoop p
           (option_map (fun e => setHours e 23 59 59 999) (endDate p)) n
           (clampToStart c p).
Proof. reflexivity. Qed.

Lemma findNextValidOccurrence_Some (c : Z) (p : Recurrence) (n : nat) (v : Z) :
  findNextValidOccurrence c p n = Some v ->
  setHours c 0 0 0 0 <= v /\ isMidnight v /\ isDateValidOccurrence v p = true.
Proof.
  intros H. pose proof (findNextValidOccurrence_valid _ _ _ _ H) as Hv.
  rewrite findNextValidOccurrence_unfold in H.
  destruct (afterEnd _ _); [discriminate|].
  pose proof (findNextValidLoop_ge _ _ _ _ _ H).
  pose proof (findNextValidLoop_midnight _ _ _ _ _ (clampToStart_midnight c p) H).
  pose proof (clampToStart_ge c p). repeat split; [lia|assumption|assumption].
Qed.

(** The normalised window of a series, as the generation engine computes
    it, and the effective end of a run. *)
Definition startOf (r : RecurringTransaction) : Z :=
  setHours (ofDay (rt_startDate r)) 0 0 0 0.

Definition endOf (r : RecurringTransaction) : option Z :=
  option_map (fun e => setHours (ofDay e) 23 59 59 999) (rt_endDate r).

Definition effectiveEnd (r : RecurringTransaction) (target : Z) : Z :=
  match endOf r with
  | Some e => if e <? target then e else target
  | None => target
  end.

Lemma startOf_midnight (r : RecurringTransaction) : isMidnight (startOf r).
Proof. apply isMidnight_setHours. Qed.

Lemma valid_in_window (c : Z) (r : RecurringTransaction) :
  isDateValidOccurrence c (recurrenceOf r) = true ->
  startOf r <= setHours c 0 0 0 0 /\ afterEnd (setHours c 0 0 0 0) (endOf r) = false.
Proof.
  intros H. unfold isDateValidOccurrence in H. cbn [recurrenceOf startDate endDate] in H.
  fold (startOf r) in H.
  destruct (Z.ltb_spec (setHours c 0 0 0 0) (startOf r)); [discriminate|].
  split; [assumption|]. unfold endOf.
  destruct (rt_endDate r) as [x|]; cbn [option_map] in *; [|reflexivity].
  destruct (afterEnd _ _); [discriminate|reflexivity].
Qed.

(** *** The catch-up loop of one series *)

Section CatchUpWalk.

Variable r : RecurringTransaction.
Variable ee : Z.
Variable N : nat.

(** The loop of the series [r] for the effective end [ee] and the limit [N]. *)
Definition walk (n : nat) (w : CatchUp) : CatchUp :=
  catchUpLoop r (startOf r) (endOf r) ee N n w.

Definition limitReached (st : Store) (nx : Z) : Store :=
  log st (WarnCatchUpLimit (rt_id r) N (formatDateToString (setHours nx 0 0 0 0))).

Lemma walk_O (w : CatchUp) : walk 0 w = w.
Proof. reflexivity. Qed.

Lemma walk_stop (n : nat) (w : CatchUp) :
  ee < cu_currentDate w \/ afterEnd (cu_currentDate w) (endOf r) = true ->
  walk n w = w.
Proof.
  intros H. destruct n as [|n]; [reflexivity|]. unfold walk. cbn [catchUpLoop].
  destruct (Z.leb_spec (cu_currentDate w) ee) as [Hle|Hgt]; cbn [negb]; [|reflexivity].
  destruct H as [H|H]; [lia|]. rewrite H. reflexivity.
Qed.

Lemma walk_invalid (n : nat) (st : Store) (c : Z) (last : option Z)
  (count cr sk : nat) :
  c <= ee -> afterEnd c (endOf r) = false -> startOf r <= c ->
  isDateValidOccurrence c (recurrenceOf r) = false ->
  walk (S n) (mkCatchUp st c last count cr sk)
  = match findNextValidOccurrence c (recurrenceOf r) defaultMaxIterations with
    | None => mkCatchUp st c last count cr (S sk)
    | Some nx =>
        match n with
        | O => mkCatchUp (limitReached st nx) (setHours nx 0 0 0 0) last (S count) cr (S sk)
        | S _ => walk n (mkCatchUp st (setHours nx 0 0 0 0) last (S count) cr (S sk))
        end
    end.
Proof.
  intros Hle Hend Hs Hv. unfold walk. cbn [catchUpLoop cu_currentDate cu_store
    cu_lastProcessedDate cu_processedCount cu_created cu_skipped].
  apply Z.leb_le in Hle. rewrite Hle, Hend. cbn [negb].
  apply Z.ltb_ge in Hs. rewrite Hs.
  rewrite (processDate_invalid _ _ _ _ Hv). cbn [pr_created pr_nextOccurrence].
  destruct (findNextValidOccurrence _ _ _); [|reflexivity].
  destruct n; reflexivity.
Qed.

Lemma walk_valid (n : nat) (st st1 : Store) (c nx : Z) (b : bool) (last : option Z)
  (count cr sk : nat) :
  c <= ee -> afterEnd c (endOf r) = false -> startOf r <= c ->
  processDateForRecurring c r (formatDateToString c) st
  = (st1, mkProcessResult b (negb b) (Some nx)) ->
  walk (S n) (mkCatchUp st c last count cr sk)
  = match n with
    | O => mkCatchUp (limitReached st1 nx) (setHours nx 0 0 0 0)
             (if b then Some c else last) (S count)
             (if b then S cr else cr) (if b then sk else S sk)
    | S _ => walk n (mkCatchUp st1 (setHours nx 0 0 0 0)
                       (if b then Some c else last) (S count)
                       (if b then S cr else cr) (if b then sk else S sk))
    end.
Proof.
  intros Hle Hend Hs Hp. unfold walk. cbn [catchUpLoop cu_currentDate cu_store
    cu_lastProcessedDate cu_processedCount cu_created cu_skipped].
  apply Z.leb_le in Hle. rewrite Hle, Hend. cbn [negb].
  apply Z.ltb_ge in Hs. rewrite Hs, Hp. cbn [pr_created pr_nextOccurrence].
  destruct n; reflexivity.
Qed.

End CatchUpWalk.

(** *** One series *)

(** The date the catch-up loop of a series starts from, if any. *)
Definition firstDate (r : RecurringTransaction) (ee : Z) : option Z :=
  let currentDate := setHours (ofDay (rt_nextOccurrence r)) 0 0 0 0 in
  if negb (isDateValidOccurrence currentDate (policyOf r)) then
    match findNextValidOccurrence currentDate (policyOf r) defaultMaxIterations with
    | None => None
    | Some nextValid =>
        if ee <? nextValid then None else Some (setHours nextValid 0 0 0 0)
    end
  else Some currentDate.

(** The pointer to store after the loop, if any. *)
Definition nextToStore (r : RecurringTransaction) (ee : Z) (w : CatchUp) : option Z :=
  match cu_lastProcessedDate w with
  | Some lastProcessedDate =>
      validOrNext (calculateNextOccurrence lastProcessedDate (rt_frequency r)) (policyOf r)
  | None =>
      if Nat.ltb 0 (cu_processedCount w) then validOrNext (cu_currentDate w) (policyOf r)
      else if cu_currentDate w <=? ee then
        if negb (getTime (cu_currentDate w) =? getTime (ofDay (rt_nextOccurrence r)))
        then validOrNext (cu_currentDate w) (policyOf r)
        else None
      else None
  end.

Definition skipOne (res : GenerateResult) : GenerateResult :=
  mkGenerateResult (created res) (S (skipped res)).

(** The body of the loop over the due series, step by step. *)
Lemma generateForRecurring_steps (target : Z) (N : nat) (r : RecurringTransaction)
  (st : Store) (res : GenerateResult) :
  generateForRecurring target N r st res
  = if negb (rt_isActive r) then Return st (skipOne res)
    else if effectiveEnd r target <? setHours (ofDay (rt_nextOccurrence r)) 0 0 0 0
    then Return st (skipOne res)
    else
      match firstDate r (effectiveEnd r target) with
      | None =>
          let* (st1, _) :=
            updateRecurringTransaction (rt_id r)
              (readUpdateInput
                 (setNextOccurrence
                    (formatDateToString
                       (calculateNextOccurrence
                          (setHours (ofDay (rt_nextOccurrence r)) 0 0 0 0)
                          (rt_frequency r))))) st in
          Return st1 (skipOne res)
      | Some c0 =>
          let w := walk r (effectiveEnd r target) N N
                     (mkCatchUp st c0 None 0 (created res) (skipped res)) in
          match nextToStore r (effectiveEnd r target) w with
          | Some d =>
              let* (st1, _) :=
                updateRecurringTransaction (rt_id r)
                  (readUpdateInput (setNextOccurrence (formatDateToString d)))
                  (cu_store w) in
              Return st1 (mkGenerateResult (cu_created w) (cu_skipped w))
          | None => Return (cu_store w) (mkGenerateResult (cu_created w) (cu_skipped w))
          end
      end.
Proof. reflexivity. Qed.

(** Processing a series: it is skipped, or its catch-up loop runs from the
    first date and the counts of the loop are the counts returned.  The
    pointer that the source computes goes to the model under a key that the
    model does not read, and nothing is written for it. *)
Lemma generateForRecurring_unfold (target : Z) (N : nat) (r : RecurringTransaction)
  (st : Store) (res : GenerateResult) :
  generateForRecurring target N r st res
  = if negb (rt_isActive r) then Return st (skipOne res)
    else if effectiveEnd r target <? setHours (ofDay (rt_nextOccurrence r)) 0 0 0 0
    then Return st (skipOne res)
    else
      match firstDate r (effectiveEnd r target) with
      | None => Return st (skipOne res)
      | Some c0 =>
          let w := walk r (effectiveEnd r target) N N
                     (mkCatchUp st c0 None 0 (created res) (skipped res)) in
          Return (cu_store w) (mkGenerateResult (cu_created w) (cu_skipped w))
      end.
Proof.
  rewrite generateForRecurring_steps.
  destruct (negb (rt_isActive r)); [reflexivity|].
  destruct (_ <? _); [reflexivity|].
  destruct (firstDate r (effectiveEnd r target)) as [c0|].
  - cbv zeta. destruct (nextToStore _ _ _); [|reflexivity].
    rewrite update_of_unread_keys by (repeat split). reflexivity.
  - rewrite update_of_unread_keys by (repeat split). reflexivity.
Qed.

Lemma firstDate_valid (r : RecurringTransaction) (ee c : Z) :
  firstDate r ee = Some c ->
  isMidnight c /\ isDateValidOccurrence c (recurrenceOf r) = true /\ startOf r <= c.
Proof.
  unfold firstDate. intros H.
  assert (Hc : isMidnight c /\ isDateValidOccurrence c (policyOf r) = true).
  { destruct (isDateValidOccurrence _ (policyOf r)) eqn:Hv; cbn [negb] in H.
    - injection H as <-. split; [apply isMidnight_setHours|exact Hv].
    - destruct (findNextValidOccurrence _ _ _) as [nv|] eqn:Hn; [|discriminate].
      destruct (ee <? nv); [discriminate|]. injection H as <-.
      apply findNextValidOccurrence_Some in Hn as (_ & _ & Hvn).
      split; [apply isMidnight_setHours|].
      rewrite isDateValidOccurrence_midnight. exact Hvn. }
  destruct Hc as [Hm Hv]. rewrite isDateValidOccurrence_policyOf in Hv.
  split; [exact Hm|]. split; [exact Hv|].
  apply valid_in_window in Hv as [Hs _]. rewrite Hm in Hs. exact Hs.
Qed.

Lemma endOf_policy (r : RecurringTransaction) :
  option_map (fun e => setHours e 23 59 59 999) (endDate (recurrenceOf r)) = endOf r.
Proof. unfold endOf, recurrenceOf. cbn [endDate]. destruct (rt_endDate r); reflexivity. Qed.

Lemma clampToStart_recurrence (c : Z) (r : RecurringTransaction) :
  clampToStart c (recurrenceOf r)
  = if setHours c 0 0 0 0 <? startOf r then startOf r else setHours c 0 0 0 0.
Proof. reflexivity. Qed.

Lemma walk_grows (r : RecurringTransaction) (ee : Z) (N n : nat) (w : CatchUp) :
  grows (cu_store w) (cu_store (walk r ee N n w)).
Proof. apply extends_grows. apply catchUpLoop_extends. Qed.

(** *** The dates of a walk do not depend on the store *)

(** What [processDateForRecurring] answers: it created the entry or it
    skipped the date, and the next date is the calendar advance of an
    occurrence or the next occurrence found, whatever the store holds. *)
Lemma processDate_result (c : Z) (r : RecurringTransaction) (s : DateString) (st : Store) :
  exists st1 b,
    processDateForRecurring c r s st
    = (st1, mkProcessResult b (negb b)
              (if isDateValidOccurrence c (recurrenceOf r)
               then Some (calculateNextOccurrence c (rt_frequency r))
               else findNextValidOccurrence c (recurrenceOf r) defaultMaxIterations)).
Proof.
  unfold processDateForRecurring.
  destruct (isDateValidOccurrence c (recurrenceOf r)); cbn [negb];
    [|exists st, false; reflexivity].
  destruct (findOverride r c st); [exists st, false; reflexivity|].
  destruct (findGenerated r c st); [exists st, false; reflexivity|].
  destruct (createTransaction _ st) as [st1 row|st1 message].
  - exists st1, true. reflexivity.
  - eexists _, false. reflexivity.
Qed.

Section WalkPath.

Variable r : RecurringTransaction.
Variable ee : Z.
Variable N : nat.

(** Two walks from the same date visit the same dates: they stop at the same
    date after the same number of dates, and each has counted every date
    once, as created or as skipped. *)
Lemma walk_path (n : nat) :
  forall st st' c l l' k cr sk cr' sk',
    let w := walk r ee N n (mkCatchUp st c l k cr sk) in
    let w' := walk r ee N n (mkCatchUp st' c l' k cr' sk') in
    cu_currentDate w = cu_currentDate w' /\
    cu_processedCount w = cu_processedCount w' /\
    (cu_created w + cu_skipped w + (cr' + sk')
     = cu_created w' + cu_skipped w' + (cr + sk))%nat.
Proof.
  induction n as [|n IH]; intros st st' c l l' k cr sk cr' sk'.
  - cbn. repeat split. lia.
  - unfold walk in *. cbn [catchUpLoop cu_currentDate cu_store cu_lastProcessedDate
      cu_processedCount cu_created cu_skipped].
    destruct (negb _); [cbn; repeat split; lia|].
    destruct (afterEnd _ _); [cbn; repeat split; lia|].
    match goal with
    | |- context [processDateForRecurring ?d r ?s st] =>
        destruct (processDate_result d r s st) as (st1 & b & ->);
        destruct (processDate_result d r s st') as (st1' & b' & ->);
        generalize (if isDateValidOccurrence d (recurrenceOf r)
                    then Some (calculateNextOccurrence d (rt_frequency r))
                    else findNextValidOccurrence d (recurrenceOf r) defaultMaxIterations)
    end.
    intros [nx|]; cbn [pr_created pr_nextOccurrence].
    + destruct n as [|n'].
      * cbn [cu_currentDate cu_processedCount cu_created cu_skipped].
        repeat split. destruct b, b'; lia.
      * match goal with
        | |- context [catchUpLoop r ?s ?e ee N (S n')
                        (mkCatchUp st1 ?d ?la ?ka ?ca ?sa)] =>
            match goal with
            | |- context [catchUpLoop r s e ee N (S n')
                            (mkCatchUp st1' d ?lb ?kb ?cb ?sb)] =>
                destruct (IH st1 st1' d la lb ka ca sa cb sb) as (H1 & H2 & H3)
            end
        end.
        split; [exact H1|]. split; [exact H2|]. destruct b, b'; lia.
    + cbn [cu_currentDate cu_processedCount cu_created cu_skipped].
      repeat split. destruct b, b'; lia.
Qed.


(** A walk that is made again, on the store that the first one left or on a
    later one, creates nothing and leaves the ledger as it is. *)
Lemma walk_again (n : nat) :
  forall st c l k cr sk,
    isMidnight c -> startOf r <= c ->
    forall st2 l2 k2 cr2 sk2,
      grows (cu_store (walk r ee N n (mkCatchUp st c l k cr sk))) st2 ->
      cu_created (walk r ee N n (mkCatchUp st2 c l2 k2 cr2 sk2)) = cr2 /\
      transactions (cu_store (walk r ee N n (mkCatchUp st2 c l2 k2 cr2 sk2)))
      = transactions st2.
Proof.
  induction n as [|n IH]; intros st c l k cr sk Hm Hs st2 l2 k2 cr2 sk2 Hg;
    [split; reflexivity|].
  destruct (Z.ltb_spec ee c) as [Hee|Hee];
    [rewrite walk_stop by (left; exact Hee); split; reflexivity|].
  destruct (afterEnd c (endOf r)) eqn:Hend;
    [rewrite walk_stop by (right; exact Hend); split; reflexivity|].
  destruct (isDateValidOccurrence c (recurrenceOf r)) eqn:Hv.
  - destruct (processDate_valid c r st Hv Hm) as (st1 & b & Hp & Hext & _ & Hcov).
    rewrite (walk_valid r ee N n st st1 c _ b l k cr sk Hee Hend Hs Hp) in Hg.
    assert (Hg1 : grows st1 st2).
    { destruct n as [|n'].
      - cbn [cu_store] in Hg. eapply grows_trans; [apply grows_log|exact Hg].
      - eapply grows_trans; [|exact Hg].
        apply (walk_grows r ee N (S n')
                 (mkCatchUp st1
                    (setHours (calculateNextOccurrence c (rt_frequency r)) 0 0 0 0)
                    (if b then Some c else l) (S k)
                    (if b then S cr else cr) (if b then sk else S sk))). }
    destruct (processDate_covered c r (formatDateToString c) st2 Hv
                (covered_grows r st1 st2 c Hg1 Hcov)) as (st3 & Hp2 & HT & Hg3).
    rewrite (walk_valid r ee N n st2 st3 c _ false l2 k2 cr2 sk2 Hee Hend Hs Hp2).
    destruct n as [|n']; [split; [reflexivity|exact HT]|].
    pose proof (calculateNextOccurrence_midnight c (rt_frequency r) Hm) as Hmn.
    pose proof (calculateNextOccurrence_gt c (rt_frequency r)) as Hgt.
    rewrite Hmn in *.
    destruct (IH st1 (calculateNextOccurrence c (rt_frequency r))
                (if b then Some c else l) (S k)
                (if b then S cr else cr) (if b then sk else S sk) Hmn ltac:(lia)
                st3 l2 (S k2) cr2 (S sk2)) as [H1 H2].
    + eapply grows_trans; [exact Hg|exact Hg3].
    + split; [exact H1|]. rewrite H2. exact HT.
  - rewrite (walk_invalid r ee N n st c l k cr sk Hee Hend Hs Hv) in Hg.
    rewrite (walk_invalid r ee N n st2 c l2 k2 cr2 sk2 Hee Hend Hs Hv).
    destruct (findNextValidOccurrence c (recurrenceOf r) defaultMaxIterations)
      as [nx|] eqn:Hnx; [|split; reflexivity].
    destruct n as [|n']; [split; reflexivity|].
    destruct (findNextValidOccurrence_Some _ _ _ _ Hnx) as (_ & Hmx & Hvx).
    apply valid_in_window in Hvx as [Hsx _].
    apply (IH st (setHours nx 0 0 0 0) l (S k) cr (S sk)
              (isMidnight_setHours nx) Hsx st2 l2 (S k2) cr2 (S sk2) Hg).
Qed.

End WalkPath.

(** *** One series, on two stores *)

(** Whatever the store, a series accounts for the same number of dates. *)
Lemma generateForRecurring_path (target : Z) (N : nat) (r : RecurringTransaction)
  (st : Store) (res : GenerateResult) (st' : Store) (res' : GenerateResult) :
  exists s1 r1 s1' r1',
    generateForRecurring target N r st res = Return s1 r1 /\
    generateForRecurring target N r st' res' = Return s1' r1' /\
    (created r1 + skipped r1 + (created res' + skipped res')
     = created r1' + skipped r1' + (created res + skipped res))%nat.
Proof.
  rewrite !generateForRecurring_unfold.
  destruct (negb (rt_isActive r));
    [eexists _, _, _, _; split; [reflexivity|split; [reflexivity|cbn; lia]]|].
  destruct (_ <? _);
    [eexists _, _, _, _; split; [reflexivity|split; [reflexivity|cbn; lia]]|].
  destruct (firstDate r (effectiveEnd r target)) as [c0|];
    [|eexists _, _, _, _; split; [reflexivity|split; [reflexivity|cbn; lia]]].
  cbv zeta. eexists _, _, _, _. split; [reflexivity|]. split; [reflexivity|].
  cbn [created skipped].
  destruct (walk_path r (effectiveEnd r target) N N st st' c0 None None 0%nat
              (created res) (skipped res) (created res') (skipped res'))
    as (_ & _ & H).
  exact H.
Qed.


(** A series that is processed again, on the store that the first run left
    or on a later one, creates nothing. *)
Lemma generateForRecurring_again (target : Z) (N : nat) (r : RecurringTransaction)
  (st : Store) (res : GenerateResult) :
  exists st1 res1,
    generateForRecurring target N r st res = Return st1 res1 /\
    extends st st1 /\
    forall st2 res2,
      grows st1 st2 ->
      exists st3 res3,
        generateForRecurring target N r st2 res2 = Return st3 res3 /\
        created res3 = created res2 /\
        transactions st3 = transactions st2 /\ grows st2 st3.
Proof.
  destruct (generateForRecurring_extends target N r st res) as (st1 & res1 & E & Hext).
  exists st1, res1. split; [exact E|]. split; [exact Hext|].
  intros st2 res2 Hg. rewrite generateForRecurring_unfold in E |- *.
  destruct (negb (rt_isActive r));
    [eexists _, _; split; [reflexivity|repeat split; apply grows_refl]|].
  destruct (_ <? _);
    [eexists _, _; split; [reflexivity|repeat split; apply grows_refl]|].
  destruct (firstDate r (effectiveEnd r target)) as [c0|] eqn:Hfirst;
    [|eexists _, _; split; [reflexivity|repeat split; apply grows_refl]].
  cbv zeta in E |- *. injection E as <- _.
  destruct (firstDate_valid r _ c0 Hfirst) as (Hm0 & _ & Hs0).
  destruct (walk_again r (effectiveEnd r target) N N st c0 None 0%nat
              (created res) (skipped res) Hm0 Hs0
              st2 None 0%nat (created res2) (skipped res2) Hg) as [H1 H2].
  eexists _, _. split; [reflexivity|]. cbn [created].
  split; [exact H1|]. split; [exact H2|].
  apply (walk_grows r (effectiveEnd r target) N N
           (mkCatchUp st2 c0 None 0 (created res2) (skipped res2))).
Qed.

(** *** All the due series, on two stores *)

Lemma generateForAll_path (target : Z) (N : nat) (due : list RecurringTransaction) :
  forall st res st' res',
    exists s1 r1 s1' r1',
      generateForAll target N due st res = Return s1 r1 /\
      generateForAll target N due st' res' = Return s1' r1' /\
      (created r1 + skipped r1 + (created res' + skipped res')
       = created r1' + skipped r1' + (created res + skipped res))%nat.
Proof.
  induction due as [|r rest IH]; intros st res st' res'; cbn [generateForAll].
  - eexists _, _, _, _. split; [reflexivity|]. split; [reflexivity|]. lia.
  - destruct (generateForRecurring_path target N r st res st' res')
      as (sa & ra & sa' & ra' & -> & -> & Ha).
    cbn [bind]. destruct (IH sa ra sa' ra') as (s1 & r1 & s1' & r1' & -> & -> & H).
    eexists _, _, _, _. split; [reflexivity|]. split; [reflexivity|]. lia.
Qed.

Lemma generateForAll_again (target : Z) (N : nat) (due : list RecurringTransaction) :
  forall st res,
    exists st1 res1,
      generateForAll target N due st res = Return st1 res1 /\
      extends st st1 /\
      forall st2 res2,
        grows st1 st2 ->
        exists st3 res3,
          generateForAll target N due st2 res2 = Return st3 res3 /\
          created res3 = created res2 /\
          transactions st3 = transactions st2 /\ grows st2 st3.
Proof.
  induction due as [|r rest IH]; intros st res; cbn [generateForAll].
  - exists st, res. split; [reflexivity|]. split; [apply extends_refl|].
    intros st2 res2 _. exists st2, res2. repeat split. apply grows_refl.
  - destruct (generateForRecurring_again target N r st res)
      as (sa & ra & -> & Hext_a & Hagain_a).
    cbn [bind]. destruct (IH sa ra) as (st1 & res1 & -> & Hext & Hagain).
    exists st1, res1. split; [reflexivity|].
    split; [eapply extends_trans; eassumption|].
    intros st2 res2 Hg.
    destruct (Hagain_a st2 res2) as (sb & rb & -> & Hc & HT & Hgb).
    { eapply grows_trans; [apply extends_grows; exact Hext|exact Hg]. }
    cbn [bind].
    destruct (Hagain sb rb) as (st3 & res3 & -> & Hc3 & HT3 & Hg3).
    { eapply grows_trans; eassumption. }
    exists st3, res3. split; [reflexivity|]. split; [congruence|].
    split; [congruence|]. eapply grows_trans; eassumption.
Qed.

(** The due series are read in the table of the series, which generation
    does not write. *)
Lemma getDue_same (date : DateString) (st st' : Store) :
  recurringTransactions st' = recurringTransactions st ->
  getDueRecurringTransactions date st' = getDueRecurringTransactions date st.
Proof. intros H. unfold getDueRecurringTransactions. rewrite H. reflexivity. Qed.

(** *** A failed creation is counted and the walk goes on *)



(** Two due series, the first with a missing category: its three dates are
    skipped, and the three entries of the second series are created. *)
Example generation_goes_on_after_failures :
  exists st',
    generateTransactionsFromRecurring 0 (Some (mkDateString 2026 1 3))
      defaultMaxCatchUpDays mixedStore
    = Return st' (mkGenerateResult 3 3) /\
    map tx_recurringTransactionId (transactions st') = [Some 2%nat; Some 2%nat; Some 2%nat].
Proof. eexists. split; vm_compute; reflexivity. Qed.

(** *** The calendar advance, month by month and year by year *)

(** Months counted from year 0. *)
Definition monthIndex (c : Z) : Z := 12 * getFullYear c + getMonth c.

Definition daysInIndex (k : Z) : Z := daysInMonth (k / 12) (k mod 12).

Lemma daysInIndex_bound (k : Z) : 28 <= daysInIndex k <= 31.
Proof. apply daysInMonth_pos. Qed.

Lemma MakeDay_index (y m d : Z) :
  MakeDay y m d = MakeDay ((12 * y + m) / 12) ((12 * y + m) mod 12) d.
Proof.
  unfold MakeDay.
  replace ((12 * y + m) / 12) with (y + m / 12)
    by (Z.to_euclidean_division_equations; lia).
  replace ((12 * y + m) mod 12) with (m mod 12)
    by (Z.to_euclidean_division_equations; lia).
  rewrite Z.mod_mod by lia.
  replace (m mod 12 / 12) with 0 by (Z.to_euclidean_division_equations; lia).
  replace (y + m / 12 + 0) with (y + m / 12) by lia. reflexivity.
Qed.

Lemma MakeDay_overflow (y m d : Z) :
  0 <= m < 12 -> MakeDay y m d = MakeDay y (m + 1) (d - daysInMonth y m).
Proof.
  intros Hm. rewrite MakeDay_next_month by exact Hm.
  replace d with ((d - daysInMonth y m) + daysInMonth y m) at 1 by lia.
  apply MakeDay_date_shift.
Qed.

Lemma civil_index (k d : Z) :
  1 <= d <= daysInIndex k ->
  let n := MakeDay (k / 12) (k mod 12) d in
  12 * YearFromDay n + MonthFromDay n = k /\ DateFromDay n = d.
Proof.
  intros Hd n.
  destruct (civil_MakeDay (k / 12) (k mod 12) d) as (Hy & Hm & Hdd).
  { split; [apply Z.mod_pos_bound; lia|exact Hd]. }
  fold n in Hy, Hm, Hdd. rewrite Hy, Hm, Hdd. split; [|reflexivity].
  Z.to_euclidean_division_equations; lia.
Qed.

Lemma Day_setMonth (c m : Z) :
  Day (setMonth c m) = MakeDay (YearFromTime c) m (DateFromTime c).
Proof. unfold setMonth. apply Day_MakeDate, TimeWithinDay_bound. Qed.

Lemma Day_setFullYear (c y : Z) :
  Day (setFullYear c y) = MakeDay y (MonthFromTime c) (DateFromTime c).
Proof. unfold setFullYear. apply Day_MakeDate, TimeWithinDay_bound. Qed.

(** The next month: the same day of the month, or, when the month is too
    short, one of the first three days of the month after. *)
Lemma monthly_step (c : Z) :
  let c' := calculateNextOccurrence c monthly in
  (getDate c <= daysInIndex (monthIndex c + 1) /\
   getDate c' = getDate c /\ monthIndex c' = monthIndex c + 1) \/
  (daysInIndex (monthIndex c + 1) < getDate c /\ getDate c' <= 3).
Proof.
  intros c'. destruct (fields_valid c) as [Hm Hd].
  pose proof (daysInMonth_pos (getFullYear c) (getMonth c)) as Hdim.
  assert (HD : Day c' = MakeDay ((monthIndex c + 1) / 12) ((monthIndex c + 1) mod 12)
                          (getDate c)).
  { unfold c', calculateNextOccurrence. rewrite Day_setMonth.
    rewrite MakeDay_index. unfold monthIndex, getFullYear, getMonth, getDate.
    replace (12 * YearFromTime c + (MonthFromTime c + 1))
      with (12 * YearFromTime c + MonthFromTime c + 1) by lia.
    reflexivity. }
  set (k := monthIndex c + 1) in *.
  destruct (Z.le_gt_cases (getDate c) (daysInIndex k)) as [Hle|Hgt].
  - left. split; [exact Hle|].
    destruct (civil_index k (getDate c)) as [Hk Hdd]; [lia|].
    rewrite <- HD in Hk, Hdd. split; [exact Hdd|exact Hk].
  - right. split; [exact Hgt|].
    assert (HD' : Day c' = MakeDay ((k + 1) / 12) ((k + 1) mod 12)
                             (getDate c - daysInIndex k)).
    { rewrite HD. rewrite MakeDay_overflow by (apply Z.mod_pos_bound; lia).
      rewrite MakeDay_index.
      replace (12 * (k / 12) + (k mod 12 + 1)) with (k + 1)
        by (Z.to_euclidean_division_equations; lia).
      reflexivity. }
    pose proof (daysInIndex_bound k). pose proof (daysInIndex_bound (k + 1)).
    destruct (civil_index (k + 1) (getDate c - daysInIndex k)) as [_ Hdd]; [lia|].
    rewrite <- HD' in Hdd. unfold getDate, DateFromTime at 1. rewrite Hdd. lia.
Qed.

Lemma leap_then_common (y : Z) : isLeap y = true -> isLeap (y + 1) = false.
Proof.
  intros H. destruct (isLeap_cases y) as [[_ Hy]|[Hy _]]; [|congruence].
  destruct (isLeap_cases (y + 1)) as [[_ Hy1]|[Hy1 _]]; [|exact Hy1].
  exfalso. Z.to_euclidean_division_equations; lia.
Qed.

Lemma daysInMonth_february (y : Z) : daysInMonth y 1 = if isLeap y then 29 else 28.
Proof. reflexivity. Qed.

Lemma daysInMonth_other (y y' m : Z) : m <> 1 -> daysInMonth y m = daysInMonth y' m.
Proof.
  intros Hm. unfold daysInMonth. destruct (Z.eqb_spec m 1); [contradiction|reflexivity].
Qed.

(** The next year: the same day and month, or the first of March after a
    29th of February. *)
Lemma yearly_step (c : Z) :
  let c' := calculateNextOccurrence c yearly in
  getFullYear c' = getFullYear c + 1 /\
  ((getMonth c = 1 /\ getDate c = 29 /\ getMonth c' = 2 /\ getDate c' = 1) \/
   (~ (getMonth c = 1 /\ getDate c = 29) /\
    getMonth c' = getMonth c /\ getDate c' = getDate c)).
Proof.
  intros c'. destruct (fields_valid c) as [Hm Hd].
  assert (HD : Day c' = MakeDay (getFullYear c + 1) (getMonth c) (getDate c)).
  { unfold c', calculateNextOccurrence. apply Day_setFullYear. }
  unfold getFullYear, getMonth, getDate, YearFromTime, MonthFromTime, DateFromTime in *.
  set (y := YearFromDay (Day c)) in *. set (m := MonthFromDay (Day c)) in *.
  set (d := DateFromDay (Day c)) in *.
  destruct (Z.eq_dec m 1) as [Hm1|Hm1].
  - rewrite Hm1 in *. rewrite daysInMonth_february in Hd.
    destruct (Z.eq_dec d 29) as [Hd29|Hd29].
    + rewrite Hd29 in *.
      assert (Hl : isLeap y = true) by (destruct (isLeap y); [reflexivity|lia]).
      pose proof (leap_then_common y Hl) as Hl1.
      assert (HD' : Day c' = MakeDay (y + 1) 2 1).
      { rewrite HD. rewrite (MakeDay_overflow (y + 1) 1 29) by lia.
        rewrite daysInMonth_february, Hl1. reflexivity. }
      destruct (civil_MakeDay (y + 1) 2 1) as (Hy' & Hm' & Hd').
      { split; [lia|]. cbv. split; discriminate. }
      rewrite <- HD' in *. split; [exact Hy'|]. left. auto.
    + destruct (civil_MakeDay (y + 1) 1 d) as (Hy' & Hm' & Hd').
      { split; [lia|]. rewrite daysInMonth_february.
        destruct (isLeap y), (isLeap (y + 1)); lia. }
      rewrite <- HD in *. split; [exact Hy'|]. right.
      split; [intros [_ E]; contradiction|]. split; assumption.
  - destruct (civil_MakeDay (y + 1) m d) as (Hy' & Hm' & Hd').
    { split; [lia|]. rewrite (daysInMonth_other (y + 1) y m Hm1). exact Hd. }
    rewrite <- HD in *. split; [exact Hy'|]. right.
    split; [intros [E _]; contradiction|]. split; assumption.
Qed.

(** Among 24 months in a row, one is a February of 28 days. *)
Lemma short_february_ahead (k : Z) :
  exists j, 0 <= j < 24 /\ daysInIndex (k + j) = 28.
Proof.
  set (y := k / 12). set (m := k mod 12).
  assert (Hk : k = 12 * y + m) by (unfold y, m; Z.to_euclidean_division_equations; lia).
  assert (Hm : 0 <= m < 12) by (apply Z.mod_pos_bound; lia).
  assert (Hfeb : forall y', daysInIndex (12 * y' + 1) = if isLeap y' then 29 else 28).
  { intros y'. unfold daysInIndex.
    replace ((12 * y' + 1) / 12) with y' by (Z.to_euclidean_division_equations; lia).
    replace ((12 * y' + 1) mod 12) with 1 by (Z.to_euclidean_division_equations; lia).
    reflexivity. }
  destruct (Z.le_gt_cases m 1) as [Hle|Hgt].
  - destruct (isLeap y) eqn:Hl.
    + exists (13 - m). split; [lia|].
      replace (k + (13 - m)) with (12 * (y + 1) + 1) by lia.
      rewrite Hfeb, (leap_then_common y Hl). reflexivity.
    + exists (1 - m). split; [lia|].
      replace (k + (1 - m)) with (12 * y + 1) by lia. rewrite Hfeb, Hl. reflexivity.
  - destruct (isLeap (y + 1)) eqn:Hl.
    + exists (25 - m). split; [lia|].
      replace (k + (25 - m)) with (12 * (y + 1 + 1) + 1) by lia.
      rewrite Hfeb, (leap_then_common _ Hl). reflexivity.
    + exists (13 - m). split; [lia|].
      replace (k + (13 - m)) with (12 * (y + 1) + 1) by lia. rewrite Hfeb, Hl. reflexivity.
Qed.

(** *** Dates that stay off the pattern *)

(** The rule of the frequency alone, the window left aside. *)
Definition onPattern (c : Z) (r : RecurringTransaction) : bool :=
  match rt_frequency r with
  | daily => true
  | weekly =>
      (getDay c =? getDay (startOf r)) &&
      ((0 <=? (c - startOf r) / msPerDay) && (Z.rem ((c - startOf r) / msPerDay) 7 =? 0))
  | monthly =>
      if 28 <? getDate (startOf r)
      then getDate c =? Z.min (getDate (startOf r)) (daysInIndex (monthIndex c))
      else getDate c =? getDate (startOf r)
  | yearly =>
      if (getMonth (startOf r) =? 1) && (getDate (startOf r) =? 29) then
        (getMonth c =? 1) &&
        (if isLeap (getFullYear c) then getDate c =? 29 else getDate c =? 28)
      else (getMonth c =? getMonth (startOf r)) && (getDate c =? getDate (startOf r))
  end.

Lemma daysInIndex_monthIndex (c : Z) :
  daysInIndex (monthIndex c) = daysInMonth (getFullYear c) (getMonth c).
Proof.
  destruct (fields_valid c) as [Hm _]. unfold daysInIndex, monthIndex.
  replace ((12 * getFullYear c + getMonth c) / 12) with (getFullYear c)
    by (Z.to_euclidean_division_equations; lia).
  replace ((12 * getFullYear c + getMonth c) mod 12) with (getMonth c)
    by (Z.to_euclidean_division_equations; lia).
  reflexivity.
Qed.

Lemma valid_pattern (c : Z) (r : RecurringTransaction) :
  isMidnight c ->
  isDateValidOccurrence c (recurrenceOf r)
  = negb (c <? startOf r) && negb (afterEnd c (endOf r)) && onPattern c r.
Proof.
  intros Hm. unfold isDateValidOccurrence. rewrite endOf_policy, Hm.
  change (setHours (startDate (recurrenceOf r)) 0 0 0 0) with (startOf r).
  change (frequency (recurrenceOf r)) with (rt_frequency r).
  destruct (c <? startOf r); [reflexivity|].
  destruct (afterEnd c (endOf r)); [reflexivity|].
  cbn [negb andb]. unfold onPattern. destruct (rt_frequency r).
  - reflexivity.
  - unfold getTime. change (1000 * 60 * 60 * 24) with msPerDay.
    destruct (getDay c =? getDay (startOf r)); reflexivity.
  - destruct (fields_valid c) as [Hmc _].
    rewrite lastDayOfMonth_daysInMonth by exact Hmc.
    rewrite daysInIndex_monthIndex. reflexivity.
  - rewrite isLeapYear_isLeap.
    destruct (_ && _); [|reflexivity].
    destruct (getMonth c =? 1); reflexivity.
Qed.

Lemma advance_S (f : FrequencyType) (k : nat) (c : Z) :
  advance f (S k) c = advance f k (calculateNextOccurrence c f).
Proof. reflexivity. Qed.

Lemma advance_O (f : FrequencyType) (c : Z) : advance f 0 c = c.
Proof. reflexivity. Qed.

Lemma advance_succ_r (f : FrequencyType) (k : nat) :
  forall c, advance f (S k) c = calculateNextOccurrence (advance f k c) f.
Proof.
  induction k as [|k IH]; intros c; [reflexivity|].
  rewrite (advance_S f (S k)), IH. reflexivity.
Qed.

Lemma advance_add (f : FrequencyType) (j k : nat) :
  forall c, advance f (j + k) c = advance f k (advance f j c).
Proof.
  induction j as [|j IH]; intros c; [reflexivity|].
  cbn [Nat.add]. rewrite !advance_S. apply IH.
Qed.

Lemma advance_ge (f : FrequencyType) (k : nat) : forall c, c <= advance f k c.
Proof.
  induction k as [|k IH]; intros c; cbn [advance]; [lia|].
  pose proof (calculateNextOccurrence_gt c f). specialize (IH (calculateNextOccurrence c f)).
  lia.
Qed.

Lemma advance_mono (f : FrequencyType) (j k : nat) (c : Z) :
  (j <= k)%nat -> advance f j c <= advance f k c.
Proof.
  intros H. replace k with (j + (k - j))%nat by lia. rewrite advance_add. apply advance_ge.
Qed.

Lemma advance_midnight (f : FrequencyType) (k : nat) :
  forall c, isMidnight c -> isMidnight (advance f k c).
Proof.
  induction k as [|k IH]; intros c Hm; [exact Hm|]. cbn [advance].
  apply IH, calculateNextOccurrence_midnight, Hm.
Qed.

(** Weeks *)

Lemma weekly_step (c : Z) (r : RecurringTransaction) :
  rt_frequency r = weekly -> startOf r <= c ->
  onPattern (calculateNextOccurrence c weekly) r = onPattern c r.
Proof.
  intros Hf Hs. unfold onPattern. rewrite Hf.
  unfold calculateNextOccurrence. rewrite setDate_shift.
  assert (E1 : getDay (c + 7 * msPerDay) = getDay c).
  { unfold getDay, WeekDay. rewrite Day_shift.
    replace (Day c + 7 + 4) with (Day c + 4 + 1 * 7) by lia. apply Z.mod_add. lia. }
  assert (E2 : (c + 7 * msPerDay - startOf r) / msPerDay = (c - startOf r) / msPerDay + 7).
  { replace (c + 7 * msPerDay - startOf r) with (c - startOf r + 7 * msPerDay) by lia.
    apply Z.div_add. unfold msPerDay. lia. }
  rewrite E1, E2, !rem_zero_mod by lia.
  assert (H0 : 0 <= (c - startOf r) / msPerDay).
  { apply Z.div_pos; [lia|unfold msPerDay; lia]. }
  replace ((c - startOf r) / msPerDay + 7) with ((c - startOf r) / msPerDay + 1 * 7) by lia.
  rewrite Z.mod_add by lia.
  destruct (Z.leb_spec 0 ((c - startOf r) / msPerDay)); [|lia].
  destruct (Z.leb_spec 0 ((c - startOf r) / msPerDay + 1 * 7)); [|lia].
  reflexivity.
Qed.

Lemma weekly_stable (c : Z) (r : RecurringTransaction) (k : nat) :
  rt_frequency r = weekly -> startOf r <= c ->
  onPattern (advance weekly k c) r = onPattern c r.
Proof.
  intros Hf. revert c. induction k as [|k IH]; intros c Hs;
    [rewrite advance_O; reflexivity|].
  rewrite advance_S, IH.
  - apply weekly_step; assumption.
  - apply Z.le_trans with (1 := Hs), Z.lt_le_incl, calculateNextOccurrence_gt.
Qed.

(** Months *)

Lemma monthly_keep (c : Z) (k : nat) :
  getDate c <= 28 ->
  getDate (advance monthly k c) = getDate c /\
  monthIndex (advance monthly k c) = monthIndex c + Z.of_nat k.
Proof.
  intros Hd. induction k as [|k [IH1 IH2]]; [rewrite advance_O; split; lia|].
  rewrite advance_succ_r.
  pose proof (daysInIndex_bound (monthIndex (advance monthly k c) + 1)) as Hb.
  destruct (monthly_step (advance monthly k c)) as [(_ & H1 & H2)|(H1 & _)]; [|lia].
  split; [congruence|lia].
Qed.

Lemma onPattern_monthly_small (c : Z) (r : RecurringTransaction) :
  rt_frequency r = monthly -> getDate c <= 27 -> 28 < getDate (startOf r) ->
  onPattern c r = false.
Proof.
  intros Hf Hd Hs. unfold onPattern. rewrite Hf.
  destruct (Z.ltb_spec 28 (getDate (startOf r))); [|lia].
  pose proof (daysInIndex_bound (monthIndex c)). apply Z.eqb_neq. lia.
Qed.

Lemma monthly_tail (c : Z) (r : RecurringTransaction) (k : nat) :
  rt_frequency r = monthly ->
  getDate c <= 27 \/ (getDate c <= 28 /\ getDate (startOf r) <= 28) ->
  onPattern c r = false -> onPattern (advance monthly k c) r = false.
Proof.
  intros Hf Hc Hp.
  destruct (monthly_keep c k) as [Hd _]; [lia|].
  destruct (Z.ltb_spec 28 (getDate (startOf r))) as [Hs|Hs].
  - apply onPattern_monthly_small; [exact Hf|lia|exact Hs].
  - unfold onPattern in *. rewrite Hf in *.
    destruct (Z.ltb_spec 28 (getDate (startOf r))); [lia|]. rewrite Hd. exact Hp.
Qed.

(** A day of the month after the 28th is lost at the first month that is
    too short. *)
Lemma monthly_drop (b : nat) :
  forall c,
    29 <= getDate c ->
    (exists j, 1 <= j <= Z.of_nat b /\ daysInIndex (monthIndex c + j) < getDate c) ->
    exists k : nat, (1 <= k <= b)%nat /\ getDate (advance monthly k c) <= 3.
Proof.
  induction b as [|b IH]; intros c Hd (j & Hj & Hshort); [lia|].
  destruct (monthly_step c) as [(Hfit & Hsame & Hidx)|(_ & Hdrop)].
  - destruct (Z.eq_dec j 1) as [->|Hne]; [lia|].
    destruct (IH (calculateNextOccurrence c monthly)) as (k & Hk & Hkd).
    + lia.
    + exists (j - 1). split; [lia|]. rewrite Hidx, Hsame.
      replace (monthIndex c + 1 + (j - 1)) with (monthIndex c + j) by lia. exact Hshort.
    + exists (S k). split; [lia|]. rewrite advance_S. exact Hkd.
  - exists 1%nat. split; [lia|]. rewrite advance_S, advance_O. exact Hdrop.
Qed.

Lemma monthly_stable (c : Z) (r : RecurringTransaction) :
  rt_frequency r = monthly ->
  (forall j : nat, (j <= 24)%nat -> onPattern (advance monthly j c) r = false) ->
  forall k : nat, onPattern (advance monthly k c) r = false.
Proof.
  intros Hf Hyp.
  assert (Htail : exists j : nat,
            (j <= 24)%nat /\
            (getDate (advance monthly j c) <= 27 \/
             (getDate (advance monthly j c) <= 28 /\ getDate (startOf r) <= 28))).
  { destruct (Z.le_gt_cases (getDate c) 27) as [H27|H27]; [exists O; split; [lia|auto]|].
    destruct (Z.le_gt_cases (getDate c) 28) as [H28|H28].
    - destruct (Z.le_gt_cases (getDate (startOf r)) 28) as [Hs|Hs];
        [exists O; rewrite advance_O; split; [lia|auto]|].
      exfalso. destruct (short_february_ahead (monthIndex c)) as (j & Hj & Hfeb).
      destruct (monthly_keep c (Z.to_nat j) H28) as [Hd Hi].
      rewrite Z2Nat.id in Hi by lia.
      specialize (Hyp (Z.to_nat j) ltac:(lia)).
      unfold onPattern in Hyp. rewrite Hf in Hyp.
      destruct (Z.ltb_spec 28 (getDate (startOf r))); [|lia].
      rewrite Hd, Hi, Hfeb in Hyp. apply Z.eqb_neq in Hyp. lia.
    - destruct (short_february_ahead (monthIndex c + 1)) as (j & Hj & Hfeb).
      destruct (monthly_drop 24 c) as (k & Hk & Hkd); [lia| |].
      + exists (j + 1). split; [lia|].
        replace (monthIndex c + (j + 1)) with (monthIndex c + 1 + j) by lia. lia.
      + exists k. split; [lia|]. left. lia. }
  destruct Htail as (j & Hj & Hc). intros k.
  destruct (Nat.le_gt_cases k j) as [Hle|Hgt]; [apply Hyp; lia|].
  replace k with (j + (k - j))%nat by lia. rewrite advance_add.
  apply monthly_tail; [exact Hf|exact Hc|apply Hyp; exact Hj].
Qed.

(** Years *)

Lemma yearly_keep (c : Z) (k : nat) :
  ~ (getMonth c = 1 /\ getDate c = 29) ->
  getFullYear (advance yearly k c) = getFullYear c + Z.of_nat k /\
  getMonth (advance yearly k c) = getMonth c /\
  getDate (advance yearly k c) = getDate c.
Proof.
  intros Hc. induction k as [|k (IH1 & IH2 & IH3)];
    [rewrite advance_O; repeat split; lia|].
  rewrite advance_succ_r.
  destruct (yearly_step (advance yearly k c)) as [Hy [(H1 & H2 & _)|(_ & H1 & H2)]].
  - exfalso. apply Hc. split; congruence.
  - repeat split; [lia|congruence|congruence].
Qed.

Lemma yearly_tail (c : Z) (r : RecurringTransaction) (k : nat) :
  rt_frequency r = yearly ->
  ~ (getMonth c = 1 /\ getDate c = 29) ->
  ~ (getMonth (startOf r) = 1 /\ getDate (startOf r) = 29 /\
     getMonth c = 1 /\ getDate c = 28) ->
  onPattern c r = false -> onPattern (advance yearly k c) r = false.
Proof.
  intros Hf Hc Hs Hp. destruct (yearly_keep c k Hc) as (Hy & Hm & Hd).
  unfold onPattern in *. rewrite Hf in *. rewrite Hm, Hd.
  destruct ((getMonth (startOf r) =? 1) && (getDate (startOf r) =? 29)) eqn:E;
    [|exact Hp].
  apply andb_true_iff in E as [E1 E2]. apply Z.eqb_eq in E1, E2.
  destruct (Z.eqb_spec (getMonth c) 1) as [Hm1|Hm1]; [|reflexivity].
  cbn [andb].
  assert (getDate c <> 29) by tauto. assert (getDate c <> 28) by tauto.
  destruct (isLeap (getFullYear (advance yearly k c))); apply Z.eqb_neq; assumption.
Qed.

Lemma yearly_stable (c : Z) (r : RecurringTransaction) :
  rt_frequency r = yearly ->
  (forall j : nat, (j <= 24)%nat -> onPattern (advance yearly j c) r = false) ->
  forall k : nat, onPattern (advance yearly k c) r = false.
Proof.
  intros Hf Hyp.
  assert (Htail : exists j : nat,
            (j <= 24)%nat /\
            ~ (getMonth (advance yearly j c) = 1 /\ getDate (advance yearly j c) = 29) /\
            ~ (getMonth (startOf r) = 1 /\ getDate (startOf r) = 29 /\
               getMonth (advance yearly j c) = 1 /\ getDate (advance yearly j c) = 28)).
  { destruct (yearly_step c) as [Hy [(H1 & H2 & H3 & H4)|(Hc & _)]].
    - exists 1%nat. rewrite advance_S, advance_O. split; [lia|]. split; intros H; lia.
    - destruct (Z.eq_dec (getMonth c) 1) as [Hm|Hm];
        [|exists O; rewrite advance_O; split; [lia|]; split; [exact Hc|tauto]].
      destruct (Z.eq_dec (getDate c) 28) as [Hd|Hd];
        [|exists O; rewrite advance_O; split; [lia|]; split; [exact Hc|tauto]].
      destruct (Z.eq_dec (getMonth (startOf r)) 1) as [Hsm|Hsm];
        [|exists O; rewrite advance_O; split; [lia|]; split; [exact Hc|tauto]].
      destruct (Z.eq_dec (getDate (startOf r)) 29) as [Hsd|Hsd];
        [|exists O; rewrite advance_O; split; [lia|]; split; [exact Hc|tauto]].
      exfalso.
      assert (Hrule : forall j : nat,
                onPattern (advance yearly j c) r
                = negb (isLeap (getFullYear c + Z.of_nat j))).
      { intros j. destruct (yearly_keep c j Hc) as (Hyj & Hmj & Hdj).
        unfold onPattern. rewrite Hf, Hsm, Hsd, Hmj, Hdj, Hyj, Hm, Hd.
        cbn [Z.eqb Pos.eqb andb]. destruct (isLeap _); reflexivity. }
      pose proof (Hyp 0%nat ltac:(lia)) as H0. pose proof (Hyp 1%nat ltac:(lia)) as H1.
      rewrite Hrule in H0, H1. apply negb_false_iff in H0, H1.
      replace (getFullYear c + Z.of_nat 0) with (getFullYear c) in H0 by lia.
      replace (getFullYear c + Z.of_nat 1) with (getFullYear c + 1) in H1 by lia.
      rewrite (leap_then_common _ H0) in H1. discriminate H1. }
  destruct Htail as (j & Hj & Hc & Hs). intros k.
  destruct (Nat.le_gt_cases k j) as [Hle|Hgt]; [apply Hyp; lia|].
  replace k with (j + (k - j))%nat by lia. rewrite advance_add.
  apply yearly_tail; [exact Hf|exact Hc|exact Hs|apply Hyp; exact Hj].
Qed.

(** A date from which 25 dates in a row are off the pattern is never
    followed by a date on the pattern. *)
Lemma pattern_stable (c : Z) (r : RecurringTransaction) :
  startOf r <= c ->
  (forall j : nat, (j <= 24)%nat ->
     onPattern (advance (rt_frequency r) j c) r = false) ->
  forall k : nat, onPattern (advance (rt_frequency r) k c) r = false.
Proof.
  intros Hs Hyp. destruct (rt_frequency r) eqn:Hf.
  - specialize (Hyp O ltac:(lia)). unfold onPattern in Hyp. rewrite Hf in Hyp.
    discriminate Hyp.
  - intros k. rewrite weekly_stable by assumption.
    specialize (Hyp O ltac:(lia)). rewrite advance_O in Hyp. exact Hyp.
  - apply monthly_stable; assumption.
  - apply yearly_stable; assumption.
Qed.

(** *** The window of a series and the search *)

(** The start date is an occurrence whenever the window is not empty. *)
Lemma start_valid (r : RecurringTransaction) :
  afterEnd (startOf r) (endOf r) = false ->
  isDateValidOccurrence (startOf r) (recurrenceOf r) = true.
Proof.
  intros He. rewrite (valid_pattern _ r (startOf_midnight r)), He, Z.ltb_irrefl.
  cbn [negb andb]. unfold onPattern. destruct (rt_frequency r).
  - reflexivity.
  - rewrite Z.eqb_refl, Z.sub_diag. reflexivity.
  - destruct (28 <? getDate (startOf r)); [|apply Z.eqb_refl].
    destruct (fields_valid (startOf r)) as [_ Hd].
    rewrite daysInIndex_monthIndex. apply Z.eqb_eq. lia.
  - destruct (Z.eqb_spec (getMonth (startOf r)) 1) as [Hm|Hm]; cbn [andb].
    + destruct (Z.eqb_spec (getDate (startOf r)) 29) as [Hd|Hd].
      * destruct (fields_valid (startOf r)) as [_ Hv].
        rewrite Hm, Hd, daysInMonth_february in Hv.
        destruct (isLeap (getFullYear (startOf r))); [reflexivity|lia].
      * rewrite !Z.eqb_refl. reflexivity.
    + rewrite !Z.eqb_refl. reflexivity.
Qed.

Lemma findNextValidLoop_S (p : Recurrence) (e : option Z) (n : nat) (c : Z) :
  findNextValidLoop p e (S n) c
  = if isDateValidOccurrence c p then Some c
    else if afterEnd (calculateNextOccurrence c (frequency p)) e then None
    else if calculateNextOccurrence c (frequency p) <=? c then None
    else findNextValidLoop p e n (calculateNextOccurrence c (frequency p)).
Proof. reflexivity. Qed.

(** * Further properties of the engine *)

(** ** The calendar advance *)

Lemma calculateNextOccurrence_TimeWithinDay (c : Z) (f : FrequencyType) :
  TimeWithinDay (calculateNextOccurrence c f) = TimeWithinDay c.
Proof.
  unfold calculateNextOccurrence, setDate, setMonth, setFullYear.
  destruct f; apply TimeWithinDay_MakeDate, TimeWithinDay_bound.
Qed.

Lemma calculateNextOccurrence_day (c : Z) (f : FrequencyType) :
  c + msPerDay <= calculateNextOccurrence c f.
Proof.
  destruct (fields_valid c) as [Hm _]. unfold getMonth in Hm.
  pose proof (date_as_MakeDate c) as E.
  unfold calculateNextOccurrence. destruct f.
  - rewrite setDate_shift. lia.
  - rewrite setDate_shift. unfold msPerDay. lia.
  - unfold setMonth, getMonth. rewrite MakeDay_next_month by exact Hm.
    pose proof (daysInMonth_pos (YearFromTime c) (MonthFromTime c)) as Hdim.
    revert E Hdim.
    generalize (MakeDay (YearFromTime c) (MonthFromTime c) (DateFromTime c)),
      (TimeWithinDay c), (daysInMonth (YearFromTime c) (MonthFromTime c)).
    clear. intros n tm dim E Hdim. unfold MakeDate, msPerDay in *. lia.
  - unfold setFullYear, getFullYear.
    pose proof (MakeDay_next_year (YearFromTime c) (MonthFromTime c) (DateFromTime c) Hm)
      as Hyear.
    revert E Hyear.
    generalize (MakeDay (YearFromTime c) (MonthFromTime c) (DateFromTime c)),
      (MakeDay (YearFromTime c + 1) (MonthFromTime c) (DateFromTime c)),
      (TimeWithinDay c).
    clear. intros n n' tm E Hyear. unfold MakeDate, msPerDay in *. lia.
Qed.

(** X1.  The calendar advance moves every date forward by at least one day
    and keeps its time of day, for every frequency; the daily and the weekly
    advance move it by exactly one and seven days.  So the date computed by
    [calculateNextOccurrence] is never at or before the date it was computed
    from, and the guard against a search that does not advance never fires. *)
Theorem calculateNextOccurrence_moves_forward :
  forall (c : Z) (f : FrequencyType),
    c + msPerDay <= calculateNextOccurrence c f /\
    (calculateNextOccurrence c f <=? c) = false /\
    TimeWithinDay (calculateNextOccurrence c f) = TimeWithinDay c /\
    calculateNextOccurrence c daily = c + msPerDay /\
    calculateNextOccurrence c weekly = c + 7 * msPerDay.
Proof.
  intros c f. pose proof (calculateNextOccurrence_day c f) as H.
  split; [exact H|]. split; [apply Z.leb_gt; unfold msPerDay in H; lia|].
  split; [apply calculateNextOccurrence_TimeWithinDay|].
  unfold calculateNextOccurrence. rewrite !setDate_shift. split; lia.
Qed.

Lemma parseDate_format (t : Z) : parseDate (formatDateToString t) = setHours t 0 0 0 0.
Proof.
  unfold parseDate, formatDateToString, newDate. cbn [ds_year ds_month ds_day].
  replace (getMonth t + 1 - 1) with (getMonth t) by lia.
  unfold getFullYear, getMonth, getDate. rewrite MakeDay_fields. reflexivity.
Qed.

(** X2.  Date strings and dates round-trip.  Formatting a date and parsing
    the string back gives the midnight of that date; parsing the string of
    a date of the calendar and formatting the result gives the string
    back. *)
Theorem date_string_round_trip :
  (forall t : Z, parseDate (formatDateToString t) = setHours t 0 0 0 0) /\
  (forall s : DateString,
     validYMD (ds_year s) (ds_month s - 1) (ds_day s) ->
     formatDateToString (parseDate s) = s).
Proof.
  split; [exact parseDate_format|].
  intros [y m d] Hv. cbn [ds_year ds_month ds_day] in Hv.
  unfold formatDateToString, parseDate, newDate, getFullYear, getMonth, getDate,
    YearFromTime, MonthFromTime, DateFromTime.
  cbn [ds_year ds_month ds_day].
  rewrite Day_MakeDate by (unfold msPerDay; lia).
  destruct (civil_MakeDay y (m - 1) d Hv) as (Hy & Hm & Hd).
  rewrite Hy, Hm, Hd. f_equal. lia.
Qed.

Lemma date_string_round_trip_witness :
  formatDateToString (parseDate (mkDateString 2024 2 29)) = mkDateString 2024 2 29.
Proof.
  apply (proj2 date_string_round_trip (mkDateString 2024 2 29)).
  split; [cbn; lia|]. vm_compute. split; discriminate.
Defined.

(** X3.  [getPreviousDay] is the inverse of the daily advance, on both
    sides and across the ends of months and years: it moves the date back by
    exactly one day and keeps the time of day. *)
Theorem getPreviousDay_inverts_daily_advance :
  forall t : Z,
    getPreviousDay (calculateNextOccurrence t daily) = t /\
    calculateNextOccurrence (getPreviousDay t) daily = t /\
    Day (getPreviousDay t) = Day t - 1 /\
    TimeWithinDay (getPreviousDay t) = TimeWithinDay t.
Proof.
  intros t. unfold calculateNextOccurrence.
  rewrite !setDate_shift, !getPreviousDay_shift.
  split; [lia|]. split; [lia|].
  replace (t - msPerDay) with (t + (-1) * msPerDay) by lia.
  split; [rewrite Day_shift; lia|].
  unfold TimeWithinDay. apply Z.mod_add. unfold msPerDay. lia.
Qed.

(** ** The occurrence policy: the remaining rules *)

Lemma valid_iff_window_pattern (c : Z) (r : RecurringTransaction) :
  isDateValidOccurrence c (recurrenceOf r) = true <->
  withinWindow c (recurrenceOf r) /\ onPattern (setHours c 0 0 0 0) r = true.
Proof.
  rewrite <- isDateValidOccurrence_midnight.
  rewrite (valid_pattern _ r (isMidnight_setHours c)).
  rewrite window_checks, endOf_policy.
  change (setHours (startDate (recurrenceOf r)) 0 0 0 0) with (startOf r).
  rewrite !andb_true_iff, !negb_true_iff. tauto.
Qed.

Lemma withinWindow_days (c : Z) (r : RecurringTransaction) :
  withinWindow c (recurrenceOf r) <->
  rt_startDate r <= Day c /\
  match rt_endDate r with Some e => Day c <= e | None => True end.
Proof.
  unfold withinWindow, recurrenceOf. cbn [startDate endDate]. rewrite Day_ofDay.
  destruct (rt_endDate r) as [e|]; cbn [option_map]; [rewrite Day_ofDay|]; tauto.
Qed.

Lemma startOf_days (r : RecurringTransaction) : startOf r = rt_startDate r * msPerDay.
Proof. unfold startOf. rewrite setHours_midnight, Day_ofDay. reflexivity. Qed.

Lemma onPattern_weekly (c : Z) (r : RecurringTransaction) :
  rt_frequency r = weekly -> rt_startDate r <= Day c ->
  onPattern (setHours c 0 0 0 0) r = true <-> (Day c - rt_startDate r) mod 7 = 0.
Proof.
  intros Hf Hs. unfold onPattern. rewrite Hf, startOf_days, setHours_midnight.
  replace (Day c * msPerDay - rt_startDate r * msPerDay)
    with ((Day c - rt_startDate r) * msPerDay) by lia.
  rewrite Z.div_mul by (unfold msPerDay; lia).
  rewrite rem_zero_mod by lia.
  unfold getDay, WeekDay.
  replace (Day (Day c * msPerDay)) with (Day c)
    by (unfold Day at 2; rewrite Z.div_mul by (unfold msPerDay; lia); reflexivity).
  replace (Day (rt_startDate r * msPerDay)) with (rt_startDate r)
    by (unfold Day; rewrite Z.div_mul by (unfold msPerDay; lia); reflexivity).
  rewrite !andb_true_iff, Z.eqb_eq, Z.leb_le, Z.eqb_eq.
  generalize (Day c) (rt_startDate r) Hs. clear. intros a b Hab.
  split.
  - tauto.
  - intros H. split; [|split; [lia|exact H]].
    Z.to_euclidean_division_equations; lia.
Qed.

(** X4.  The daily and the weekly rule.  A date is an occurrence of a daily
    series exactly when its day lies in the window of the series, and an
    occurrence of a weekly series exactly when, moreover, its day is a whole
    number of weeks after the start day; the time of day of the date and the
    test on the day of the week add nothing. *)
Theorem daily_and_weekly_occurrences :
  forall (c : Z) (r : RecurringTransaction),
    (rt_frequency r = daily ->
     (isDateValidOccurrence c (recurrenceOf r) = true <->
      rt_startDate r <= Day c /\
      match rt_endDate r with Some e => Day c <= e | None => True end)) /\
    (rt_frequency r = weekly ->
     (isDateValidOccurrence c (recurrenceOf r) = true <->
      (rt_startDate r <= Day c /\
       match rt_endDate r with Some e => Day c <= e | None => True end) /\
      (Day c - rt_startDate r) mod 7 = 0)).
Proof.
  intros c r. split; intros Hf; rewrite valid_iff_window_pattern, withinWindow_days.
  - unfold onPattern. rewrite Hf. tauto.
  - split.
    + intros [Hw Hp]. split; [exact Hw|]. apply onPattern_weekly; tauto.
    + intros [Hw Hp]. split; [exact Hw|]. apply onPattern_weekly; tauto.
Qed.

Lemma daily_and_weekly_occurrences_witness :
  isDateValidOccurrence (ofDay (day 2026 1 15)) (recurrenceOf desyncSeries) = true <->
  (rt_startDate desyncSeries <= Day (ofDay (day 2026 1 15)) /\
   match rt_endDate desyncSeries with
   | Some e => Day (ofDay (day 2026 1 15)) <= e
   | None => True
   end) /\
  (Day (ofDay (day 2026 1 15)) - rt_startDate desyncSeries) mod 7 = 0.
Proof.
  apply (proj2 (daily_and_weekly_occurrences (ofDay (day 2026 1 15)) desyncSeries)).
  reflexivity.
Defined.

(** X5.  The start date of a series is an occurrence of the series, for
    every frequency and every start date (the 29th of February and the 31st
    of a month included), as soon as the end date, if any, is not before
    it. *)
Theorem start_date_is_an_occurrence :
  forall r : RecurringTransaction,
    match rt_endDate r with Some e => rt_startDate r <= e | None => True end ->
    isDateValidOccurrence (ofDay (rt_startDate r)) (recurrenceOf r) = true.
Proof.
  intros r He.
  replace (ofDay (rt_startDate r)) with (startOf r)
    by (unfold startOf; apply setHours_midnight_ofDay).
  apply start_valid. unfold startOf, endOf.
  destruct (rt_endDate r) as [e|]; cbn [option_map afterEnd]; [|reflexivity].
  rewrite setHours_endOfDay, setHours_midnight, !Day_ofDay.
  apply Z.ltb_ge. unfold msPerDay. lia.
Qed.

Lemma start_date_is_an_occurrence_witness :
  isDateValidOccurrence (ofDay (rt_startDate dailySeries)) (recurrenceOf dailySeries)
  = true.
Proof. apply (start_date_is_an_occurrence dailySeries). exact I. Defined.

Lemma calculateNextOccurrence_setHours (c : Z) (f : FrequencyType) :
  setHours (calculateNextOccurrence c f) 0 0 0 0
  = calculateNextOccurrence (setHours c 0 0 0 0) f.
Proof.
  assert (Ht : TimeWithinDay (setHours c 0 0 0 0) = 0)
    by apply isMidnight_TimeWithinDay, isMidnight_setHours.
  unfold calculateNextOccurrence, setDate, setMonth, setFullYear, getDate, getMonth,
    getFullYear, YearFromTime, MonthFromTime, DateFromTime.
  rewrite Ht, Day_setHours_midnight.
  destruct f; unfold setHours at 1; rewrite Day_MakeDate by apply TimeWithinDay_bound;
    reflexivity.
Qed.

(** A series whose occurrences the calendar advance follows: every daily
    and weekly series, a monthly series that starts on the 28th or before,
    and a yearly series that does not start on a 29th of February. *)
Definition regularSeries (r : RecurringTransaction) : Prop :=
  match rt_frequency r with
  | daily | weekly => True
  | monthly => getDate (startOf r) <= 28
  | yearly => ~ (getMonth (startOf r) = 1 /\ getDate (startOf r) = 29)
  end.

Lemma onPattern_advance (m : Z) (r : RecurringTransaction) :
  regularSeries r -> startOf r <= m -> onPattern m r = true ->
  onPattern (calculateNextOccurrence m (rt_frequency r)) r = true.
Proof.
  unfold regularSeries. intros Hreg Hs Hp. destruct (rt_frequency r) eqn:Hf.
  - unfold onPattern. rewrite Hf. reflexivity.
  - rewrite weekly_step; assumption.
  - unfold onPattern in *. rewrite Hf in *.
    destruct (Z.ltb_spec 28 (getDate (startOf r))); [lia|].
    apply Z.eqb_eq in Hp. apply Z.eqb_eq.
    pose proof (daysInIndex_bound (monthIndex m + 1)).
    destruct (monthly_step m) as [(_ & H1 & _)|(H1 & _)]; lia.
  - unfold onPattern in *. rewrite Hf in *.
    destruct ((getMonth (startOf r) =? 1) && (getDate (startOf r) =? 29)) eqn:E.
    + apply andb_true_iff in E as [E1 E2]. apply Z.eqb_eq in E1, E2. tauto.
    + apply andb_true_iff in Hp as [Hp1 Hp2]. apply Z.eqb_eq in Hp1, Hp2.
      destruct (yearly_step m) as [_ [(H1 & H2 & _)|(_ & H1 & H2)]].
      * exfalso. apply Hreg. split; congruence.
      * rewrite H1, H2, Hp1, Hp2, !Z.eqb_refl. reflexivity.
Qed.

(** X6.  On a regular series the calendar advance of an occurrence is the
    next occurrence, unless it falls after the end date: the repair search
    is not needed to follow such a series. *)
Theorem advance_of_an_occurrence_is_an_occurrence :
  forall (c : Z) (r : RecurringTransaction),
    regularSeries r ->
    isDateValidOccurrence c (recurrenceOf r) = true ->
    match rt_endDate r with
    | Some e => Day (calculateNextOccurrence c (rt_frequency r)) <= e
    | None => True
    end ->
    isDateValidOccurrence (calculateNextOccurrence c (rt_frequency r)) (recurrenceOf r)
    = true.
Proof.
  intros c r Hreg Hv He.
  apply valid_iff_window_pattern in Hv as [Hw Hp].
  apply valid_iff_window_pattern. apply withinWindow_days in Hw as [Hs _].
  pose proof (calculateNextOccurrence_day c (rt_frequency r)) as Hday.
  split.
  - apply withinWindow_days. split; [|exact He].
    apply Day_mono in Hday. rewrite <- (Z.mul_1_l msPerDay), Day_shift in Hday. lia.
  - rewrite calculateNextOccurrence_setHours.
    apply onPattern_advance; [exact Hreg| |exact Hp].
    rewrite startOf_days, setHours_midnight. unfold msPerDay. lia.
Qed.

Lemma advance_of_an_occurrence_is_an_occurrence_witness :
  isDateValidOccurrence
    (calculateNextOccurrence (ofDay (day 2026 1 1)) (rt_frequency desyncSeries))
    (recurrenceOf desyncSeries) = true.
Proof.
  apply (advance_of_an_occurrence_is_an_occurrence (ofDay (day 2026 1 1)) desyncSeries).
  - exact I.
  - vm_compute. reflexivity.
  - exact I.
Defined.

(** ** The search limit *)

Lemma findNextValidLoop_None (r : RecurringTransaction) (n : nat) :
  forall c,
    afterEnd c (endOf r) = false ->
    findNextValidLoop (recurrenceOf r) (endOf r) n c = None ->
    (exists k : nat,
       (forall j : nat, (j <= k)%nat ->
          isDateValidOccurrence (advance (rt_frequency r) j c) (recurrenceOf r) = false) /\
       afterEnd (advance (rt_frequency r) (S k) c) (endOf r) = true) \/
    ((forall j : nat, (j < n)%nat ->
        isDateValidOccurrence (advance (rt_frequency r) j c) (recurrenceOf r) = false) /\
     (forall j : nat, (j <= n)%nat ->
        afterEnd (advance (rt_frequency r) j c) (endOf r) = false)).
Proof.
  induction n as [|n IH]; intros c He H.
  - right. split; [intros j Hj; lia|].
    intros j Hj. replace j with O by lia. rewrite advance_O. exact He.
  - rewrite findNextValidLoop_S in H.
    change (frequency (recurrenceOf r)) with (rt_frequency r) in H.
    destruct (isDateValidOccurrence c (recurrenceOf r)) eqn:Hv; [discriminate H|].
    assert (H0 : forall j : nat, (j <= 0)%nat ->
              isDateValidOccurrence (advance (rt_frequency r) j c) (recurrenceOf r)
              = false).
    { intros j Hj. replace j with O by lia. rewrite advance_O. exact Hv. }
    destruct (afterEnd (calculateNextOccurrence c (rt_frequency r)) (endOf r)) eqn:Hn.
    { left. exists O. split; [exact H0|]. rewrite advance_S, advance_O. exact Hn. }
    destruct (Z.leb_spec (calculateNextOccurrence c (rt_frequency r)) c) as [Hle|_].
    { pose proof (calculateNextOccurrence_gt c (rt_frequency r)). lia. }
    destruct (IH _ Hn H) as [(k & Hk & Hend)|[Hall Hopen]].
    + left. exists (S k). split.
      * intros [|j] Hj; [rewrite advance_O; exact Hv|].
        rewrite advance_S. apply Hk. lia.
      * rewrite advance_S. exact Hend.
    + right. split.
      * intros [|j] Hj; [rewrite advance_O; exact Hv|].
        rewrite advance_S. apply Hall. lia.
      * intros [|j] Hj; [rewrite advance_O; exact He|].
        rewrite advance_S. apply Hopen. lia.
Qed.

Lemma afterEnd_later (a b : Z) (e : option Z) :
  a <= b -> afterEnd a e = true -> afterEnd b e = true.
Proof.
  intros Hab. unfold afterEnd. destruct e as [x|]; [|discriminate].
  intros H. apply Z.ltb_lt in H. apply Z.ltb_lt. lia.
Qed.

Lemma invalid_after_end (v : Z) (r : RecurringTransaction) :
  isMidnight v -> afterEnd v (endOf r) = true ->
  isDateValidOccurrence v (recurrenceOf r) = false.
Proof.
  intros Hm He. rewrite (valid_pattern v r Hm), He.
  destruct (v <? startOf r); reflexivity.
Qed.

(** X7.  The limit of the search never hides an occurrence.  When
    [findNextValidOccurrence] gives up with its 100 iterations, no date
    reached from its starting point by the calendar advance is an occurrence
    of the series, however many times the advance is applied. *)
Theorem search_limit_hides_no_occurrence :
  forall (c : Z) (r : RecurringTransaction),
    findNextValidOccurrence c (recurrenceOf r) defaultMaxIterations = None ->
    forall k : nat,
      isDateValidOccurrence
        (advance (rt_frequency r) k (clampToStart c (recurrenceOf r))) (recurrenceOf r)
      = false.
Proof.
  intros c r H k.
  rewrite findNextValidOccurrence_unfold, endOf_policy in H.
  set (c0 := clampToStart c (recurrenceOf r)) in *.
  assert (Hm0 : isMidnight c0) by apply clampToStart_midnight.
  assert (Hs0 : startOf r <= c0).
  { unfold c0. rewrite clampToStart_recurrence.
    destruct (Z.ltb_spec (setHours c 0 0 0 0) (startOf r)); lia. }
  assert (Hmk : forall j, isMidnight (advance (rt_frequency r) j c0))
    by (intros j; apply advance_midnight, Hm0).
  destruct (afterEnd c0 (endOf r)) eqn:He.
  { apply invalid_after_end; [apply Hmk|].
    apply (afterEnd_later c0); [apply advance_ge|exact He]. }
  destruct (findNextValidLoop_None r _ c0 He H) as [(j & Hj & Hend)|[Hall Hopen]].
  - destruct (Nat.le_gt_cases k j) as [Hle|Hgt]; [apply Hj; exact Hle|].
    apply invalid_after_end; [apply Hmk|].
    apply (afterEnd_later (advance (rt_frequency r) (S j) c0)); [|exact Hend].
    apply advance_mono. lia.
  - rewrite (valid_pattern _ r (Hmk k)).
    rewrite (pattern_stable c0 r Hs0); [apply andb_false_r|].
    intros j Hj.
    specialize (Hall j ltac:(unfold defaultMaxIterations; lia)).
    specialize (Hopen j ltac:(unfold defaultMaxIterations; lia)).
    rewrite (valid_pattern _ r (Hmk j)), Hopen in Hall.
    pose proof (advance_ge (rt_frequency r) j c0).
    destruct (Z.ltb_spec (advance (rt_frequency r) j c0) (startOf r)); [lia|].
    exact Hall.
Qed.

(** A monthly series that starts on a 31st: the advance of 2026-01-31 is
    2026-03-03, and from there on every date is a 3rd. *)
Definition endOfMonthSeries : RecurringTransaction :=
  mkRecurring 1%nat 7%nat 3%nat 100 income None monthly (day 2026 1 31) None
              (day 2026 3 3) true.

Lemma search_limit_hides_no_occurrence_witness :
  findNextValidOccurrence (ofDay (day 2026 3 3)) (recurrenceOf endOfMonthSeries)
    defaultMaxIterations = None /\
  forall k : nat,
    isDateValidOccurrence
      (advance monthly k
         (clampToStart (ofDay (day 2026 3 3)) (recurrenceOf endOfMonthSeries)))
      (recurrenceOf endOfMonthSeries) = false.
Proof.
  assert (H : findNextValidOccurrence (ofDay (day 2026 3 3))
                (recurrenceOf endOfMonthSeries) defaultMaxIterations = None)
    by (vm_compute; reflexivity).
  split; [exact H|].
  exact (search_limit_hides_no_occurrence (ofDay (day 2026 3 3)) endOfMonthSeries H).
Defined.

(** ** What generation adds to the ledger *)

(** A ledger that grows at its end, one entry at a time; every new entry
    satisfies [P] of the ledger it is added to. *)
Inductive grownBy (P : list Transaction -> Transaction -> Prop)
  : list Transaction -> nat -> list Transaction -> Prop :=
| grown_none (l : list Transaction) : grownBy P l 0 l
| grown_entry (l l' : list Transaction) (k : nat) (t : Transaction) :
    grownBy P l k l' -> P l' t -> grownBy P l (S k) (l' ++ [t]).

Lemma grownBy_trans (P : list Transaction -> Transaction -> Prop)
  (a b c : list Transaction) (j k : nat) :
  grownBy P a j b -> grownBy P b k c -> grownBy P a (j + k) c.
Proof.
  intros Hab Hbc. induction Hbc as [|b c k t Hbc IH Ht].
  - rewrite Nat.add_0_r. exact Hab.
  - rewrite Nat.add_succ_r. apply grown_entry; [apply IH; exact Hab|exact Ht].
Qed.

Lemma grownBy_impl (P Q : list Transaction -> Transaction -> Prop)
  (a b : list Transaction) (k : nat) :
  (forall l t, P l t -> Q l t) -> grownBy P a k b -> grownBy Q a k b.
Proof. intros HPQ H. induction H; constructor; auto. Qed.

Lemma grownBy_length (P : list Transaction -> Transaction -> Prop)
  (a b : list Transaction) (k : nat) :
  grownBy P a k b -> List.length b = (List.length a + k)%nat.
Proof.
  intros H. induction H as [|a b k t H IH Ht]; [lia|].
  rewrite length_app, IH. cbn. lia.
Qed.

Lemma grownBy_app (P : list Transaction -> Transaction -> Prop)
  (a b : list Transaction) (k : nat) :
  grownBy P a k b ->
  exists l, b = a ++ l /\ List.length l = k /\
            forall l1 t l2, l = l1 ++ t :: l2 -> P (a ++ l1) t.
Proof.
  intros H. induction H as [a|a b k t H (l & -> & Hlen & Hl) Ht].
  - exists []. rewrite app_nil_r. split; [reflexivity|]. split; [reflexivity|].
    intros [|] ? ? E; discriminate E.
  - exists (l ++ [t]). rewrite app_assoc. split; [reflexivity|].
    split; [rewrite length_app; cbn; lia|].
    intros l1 t1 l2 E.
    destruct l2 as [|t2 l2] using rev_ind.
    + apply (app_inj_tail l l1 t t1) in E as [-> ->]. exact Ht.
    + clear IHl2. rewrite app_comm_cons, app_assoc in E.
      apply app_inj_tail in E as [-> _]. apply (Hl l1 t1 l2). reflexivity.
Qed.

(** [t] is the entry that generation creates for the series [r]. *)
Definition generatedEntry (r : RecurringTransaction) (t : Transaction) : Prop :=
  tx_userId t = rt_userId r /\ tx_categoryId t = rt_categoryId r /\
  tx_amount t = rt_amount r /\ tx_type t = rt_type r /\
  tx_description t = orNull (rt_description r) /\
  tx_recurringTransactionId t = Some (rt_id r) /\ tx_isOverride t = false.

(** Two entries of the same owner, series and day. *)
Definition sameOccurrence (t0 t : Transaction) : Prop :=
  tx_userId t0 = tx_userId t /\
  tx_recurringTransactionId t0 = tx_recurringTransactionId t /\
  tx_date t0 = tx_date t.

(** What holds of an entry [t] that the loop of the series [r] adds to
    [ledger], between the dates [lo] and [hi]. *)
Definition addedFor (r : RecurringTransaction) (lo hi : Z) (ledger : list Transaction)
  (t : Transaction) : Prop :=
  generatedEntry r t /\
  isDateValidOccurrence (ofDay (tx_date t)) (recurrenceOf r) = true /\
  lo <= ofDay (tx_date t) <= hi /\
  forall t0, In t0 ledger -> ~ sameOccurrence t0 t.

Lemma findGenerated_None (r : RecurringTransaction) (c : Z) (st : Store)
  (t0 : Transaction) :
  isMidnight c -> findGenerated r c st = None -> In t0 (transactions st) ->
  ~ (tx_userId t0 = rt_userId r /\ tx_recurringTransactionId t0 = Some (rt_id r) /\
     tx_date t0 = Day c).
Proof.
  intros Hm Hnone Hin (Hu & Hr & Hd).
  pose proof (find_none _ _ Hnone t0 Hin) as Hf. cbn beta in Hf.
  rewrite Hu, Hr, Hd, Nat.eqb_refl, eqOptId_refl, (ofDay_Day_midnight c Hm), Z.eqb_refl
    in Hf.
  discriminate Hf.
Qed.

(** One date of the loop: the ledger is left as it is, or the entry of the
    date is added to it. *)
Lemma processDate_ledger (c : Z) (r : RecurringTransaction) (st : Store) :
  isDateValidOccurrence c (recurrenceOf r) = true ->
  isMidnight c ->
  exists st1 b,
    processDateForRecurring c r (formatDateToString c) st
    = (st1, mkProcessResult b (negb b) (Some (calculateNextOccurrence c (rt_frequency r))))
    /\ (b = false /\ transactions st1 = transactions st \/
        b = true /\
        exists t,
          transactions st1 = transactions st ++ [t] /\
          generatedEntry r t /\ tx_date t = Day c /\
          findGenerated r c st = None).
Proof.
  intros Hv Hm. unfold processDateForRecurring. rewrite Hv. cbn [negb].
  destruct (findOverride r c st); [exists st, false; split; [reflexivity|left; auto]|].
  destruct (findGenerated r c st) eqn:Hg;
    [exists st, false; split; [reflexivity|left; auto]|].
  unfold createTransaction.
  cbn [cti_userId cti_categoryId cti_amount cti_type cti_description cti_date
       cti_recurringTransactionId cti_isOverride tx_userId tx_categoryId
       tx_recurringTransactionId].
  destruct (TransactionModel.referencesHold st _ _ _).
  - eexists _, true. split; [reflexivity|]. right. split; [reflexivity|].
    eexists. cbn [transactions set_transactions]. split; [reflexivity|].
    split; [repeat split|]. split; [|reflexivity].
    cbn [tx_date]. apply Day_parseDate_format.
  - eexists _, false. split; [reflexivity|]. left. split; reflexivity.
Qed.

Lemma walk_ledger (r : RecurringTransaction) (ee : Z) (N : nat) (lo : Z) (n : nat) :
  forall w,
    isMidnight (cu_currentDate w) -> startOf r <= cu_currentDate w ->
    lo <= cu_currentDate w ->
    exists k : nat,
      (k <= n)%nat /\
      cu_created (walk r ee N n w) = (cu_created w + k)%nat /\
      grownBy (addedFor r lo ee) (transactions (cu_store w)) k
        (transactions (cu_store (walk r ee N n w))).
Proof.
  induction n as [|n IH]; intros [st c last count cr sk];
    cbn [cu_currentDate cu_created cu_store]; intros Hm Hs Hlo.
  { exists O. rewrite walk_O. cbn [cu_created cu_store].
    split; [lia|]. split; [lia|constructor]. }
  assert (Hstopped :
      ee < c \/ afterEnd c (endOf r) = true ->
      exists k : nat,
        (k <= S n)%nat /\
        cu_created (walk r ee N (S n) (mkCatchUp st c last count cr sk)) = (cr + k)%nat /\
        grownBy (addedFor r lo ee) (transactions st) k
          (transactions (cu_store (walk r ee N (S n) (mkCatchUp st c last count cr sk))))).
  { intros Hstop. exists O.
    rewrite (walk_stop r ee N (S n) (mkCatchUp st c last count cr sk) Hstop).
    cbn [cu_created cu_store]. split; [lia|]. split; [lia|constructor]. }
  destruct (Z.leb_spec c ee) as [Hle|Hgt]; [|apply Hstopped; left; exact Hgt].
  destruct (afterEnd c (endOf r)) eqn:Hend; [apply Hstopped; right; reflexivity|].
  clear Hstopped.
  destruct (isDateValidOccurrence c (recurrenceOf r)) eqn:Hv.
  - destruct (processDate_ledger c r st Hv Hm) as (st1 & b & Hp & Hledger).
    rewrite (walk_valid r ee N n st st1 c _ b last count cr sk Hle Hend Hs Hp).
    assert (Hstep : exists j : nat,
              (j <= 1)%nat /\ (if b then S cr else cr) = (cr + j)%nat /\
              grownBy (addedFor r lo ee) (transactions st) j (transactions st1)).
    { destruct Hledger as [[-> ->]|(-> & t & -> & Hgen & Hd & Hnone)].
      - exists O. split; [lia|]. split; [lia|constructor].
      - exists 1%nat. split; [lia|]. split; [lia|].
        apply grown_entry; [constructor|].
        split; [exact Hgen|]. rewrite Hd, (ofDay_Day_midnight c Hm).
        split; [exact Hv|]. split; [lia|].
        intros t0 Hin (Hu & Hr & Hd0). destruct Hgen as (Hu' & _ & _ & _ & _ & Hr' & _).
        apply (findGenerated_None r c st t0 Hm Hnone Hin).
        repeat split; congruence. }
    destruct Hstep as (j & Hj & Hcr & Hgrown).
    destruct n as [|n'].
    + exists j. cbn [cu_created cu_store limitReached log transactions].
      split; [lia|]. split; [exact Hcr|exact Hgrown].
    + set (c1 := setHours (calculateNextOccurrence c (rt_frequency r)) 0 0 0 0).
      pose proof (calculateNextOccurrence_gt c (rt_frequency r)) as Hgt.
      assert (Hc1 : c1 = calculateNextOccurrence c (rt_frequency r))
        by apply (calculateNextOccurrence_midnight c (rt_frequency r) Hm).
      destruct (IH (mkCatchUp st1 c1 (if b then Some c else last) (S count)
                      (if b then S cr else cr) (if b then sk else S sk)))
        as (k & Hk & Hcreated & Hrest); cbn [cu_currentDate];
        [apply isMidnight_setHours|lia|lia|].
      cbn [cu_created cu_store] in Hcreated, Hrest.
      exists (j + k)%nat. split; [lia|]. split; [lia|].
      eapply grownBy_trans; eassumption.
  - rewrite (walk_invalid r ee N n st c last count cr sk Hle Hend Hs Hv).
    destruct (findNextValidOccurrence c (recurrenceOf r) defaultMaxIterations)
      as [nx|] eqn:Hnx.
    + destruct (findNextValidOccurrence_Some _ _ _ _ Hnx) as (Hge & Hmnx & _).
      rewrite Hm in Hge.
      destruct n as [|n'].
      * exists O. cbn [cu_created cu_store limitReached log transactions].
        split; [lia|]. split; [lia|constructor].
      * destruct (IH (mkCatchUp st (setHours nx 0 0 0 0) last (S count) cr (S sk)))
          as (k & Hk & Hcreated & Hrest); cbn [cu_currentDate];
          [apply isMidnight_setHours|rewrite Hmnx; lia|rewrite Hmnx; lia|].
        cbn [cu_created cu_store] in Hcreated, Hrest.
        exists k. split; [lia|]. split; [exact Hcreated|exact Hrest].
    + exists O. cbn [cu_created cu_store]. split; [lia|]. split; [lia|constructor].
Qed.

Lemma firstDate_from (r : RecurringTransaction) (ee c : Z) :
  firstDate r ee = Some c ->
  setHours (ofDay (rt_nextOccurrence r)) 0 0 0 0 <= c /\ c <= ee \/
  c = setHours (ofDay (rt_nextOccurrence r)) 0 0 0 0.
Proof.
  unfold firstDate.
  set (cur := setHours (ofDay (rt_nextOccurrence r)) 0 0 0 0).
  destruct (isDateValidOccurrence cur (policyOf r)); cbn [negb].
  - intros [= <-]. right. reflexivity.
  - destruct (findNextValidOccurrence cur (policyOf r) defaultMaxIterations)
      as [nv|] eqn:Hn; [|discriminate].
    destruct (Z.ltb_spec ee nv); [discriminate|]. intros [= <-].
    apply findNextValidOccurrence_Some in Hn as (Hge & Hm & _).
    unfold cur in Hge. rewrite setHours_midnight_idem in Hge. fold cur in Hge.
    rewrite Hm. left. lia.
Qed.

(** One due series: what its loop adds to the ledger. *)
Lemma generateForRecurring_ledger (target : Z) (N : nat) (r : RecurringTransaction)
  (st : Store) (res : GenerateResult) :
  exists st' res' (k : nat),
    generateForRecurring target N r st res = Return st' res' /\
    (k <= N)%nat /\ created res' = (created res + k)%nat /\
    grows st st' /\
    grownBy (addedFor r (ofDay (rt_nextOccurrence r)) target) (transactions st) k
      (transactions st').
Proof.
  rewrite generateForRecurring_unfold.
  assert (Hnothing :
            exists st' res' (k : nat),
              Return st (skipOne res) = Return st' res' /\
              (k <= N)%nat /\ created res' = (created res + k)%nat /\
              grows st st' /\
              grownBy (addedFor r (ofDay (rt_nextOccurrence r)) target)
                (transactions st) k (transactions st')).
  { exists st, (skipOne res), O. split; [reflexivity|]. split; [lia|].
    split; [cbn; lia|]. split; [apply grows_refl|constructor]. }
  destruct (negb (rt_isActive r)); [exact Hnothing|].
  destruct (_ <? _); [exact Hnothing|].
  assert (Hee : effectiveEnd r target <= target).
  { unfold effectiveEnd. destruct (endOf r) as [e|]; [|lia].
    destruct (Z.ltb_spec e target); lia. }
  destruct (firstDate r (effectiveEnd r target)) as [c0|] eqn:Hfirst;
    [clear Hnothing|exact Hnothing].
  - cbv zeta.
    destruct (firstDate_valid r _ c0 Hfirst) as (Hm0 & _ & Hs0).
    assert (Hlo : ofDay (rt_nextOccurrence r) <= c0).
    { rewrite <- (setHours_midnight_ofDay (rt_nextOccurrence r)).
      destruct (firstDate_from r _ c0 Hfirst) as [[H _]| ->]; lia. }
    destruct (walk_ledger r (effectiveEnd r target) N (ofDay (rt_nextOccurrence r)) N
                (mkCatchUp st c0 None 0 (created res) (skipped res)) Hm0 Hs0 Hlo)
      as (k & Hk & Hcreated & Hgrown).
    cbn [cu_created cu_store] in Hcreated, Hgrown.
    set (w := walk r (effectiveEnd r target) N N
                (mkCatchUp st c0 None 0 (created res) (skipped res))) in *.
    pose proof (walk_grows r (effectiveEnd r target) N N
                  (mkCatchUp st c0 None 0 (created res) (skipped res))) as Hg.
    fold w in Hg. cbn [cu_store] in Hg.
    exists (cu_store w), (mkGenerateResult (cu_created w) (cu_skipped w)), k.
    split; [reflexivity|]. split; [exact Hk|]. split; [exact Hcreated|].
    split; [exact Hg|].
    eapply grownBy_impl; [|exact Hgrown].
    intros l t (H1 & H2 & H3 & H4). split; [exact H1|]. split; [exact H2|].
    split; [lia|exact H4].
Qed.

(** All the due series. *)
Lemma generateForAll_ledger (target : Z) (N : nat) (Q : RecurringTransaction -> Prop)
  (due : list RecurringTransaction) :
  forall (st : Store) (res : GenerateResult),
    (forall r, In r due -> Q r) ->
    exists st' res' (k : nat),
      generateForAll target N due st res = Return st' res' /\
      (k <= N * List.length due)%nat /\ created res' = (created res + k)%nat /\
      grows st st' /\
      grownBy (fun l t => exists r, Q r /\
                 addedFor r (ofDay (rt_nextOccurrence r)) target l t)
        (transactions st) k (transactions st').
Proof.
  induction due as [|r due IH]; intros st res Hdue.
  - exists st, res, O. cbn. split; [reflexivity|]. split; [lia|]. split; [lia|].
    split; [apply grows_refl|constructor].
  - cbn [generateForAll].
    pose proof (Hdue r (or_introl eq_refl)) as HQ.
    destruct (generateForRecurring_ledger target N r st res)
      as (st1 & res1 & k1 & Hgen & Hk1 & Hcr1 & Hg1 & Hgrown1).
    rewrite Hgen. cbn [bind].
    destruct (IH st1 res1) as (st' & res' & k & Hall & Hk & Hcr & Hg & Hgrown).
    { intros r2 H2. apply Hdue. right. exact H2. }
    exists st', res', (k1 + k)%nat. split; [exact Hall|].
    split; [cbn [List.length]; lia|]. split; [lia|].
    split; [eapply grows_trans; eassumption|].
    eapply grownBy_trans; [|exact Hgrown].
    eapply grownBy_impl; [|exact Hgrown1].
    intros l t H. exists r. split; assumption.
Qed.

(** The target date of a run: the date given, or the day of the clock. *)
Definition runTarget (now : Z) (targetDate : option DateString) : Z :=
  match targetDate with
  | Some s => setHours (newDate (ds_year s) (ds_month s - 1) (ds_day s)) 0 0 0 0
  | None => setHours now 0 0 0 0
  end.

(** What holds of an entry that a run of the generation adds to [ledger]. *)
Definition addedByRun (st : Store) (target : Z) (ledger : list Transaction)
  (t : Transaction) : Prop :=
  exists r,
    (In r (recurringTransactions st) /\ rt_isActive r = true) /\
    addedFor r (ofDay (rt_nextOccurrence r)) target ledger t.

Lemma getDue_length (date : DateString) (st : Store) :
  (List.length (getDueRecurringTransactions date st)
   <= List.length (recurringTransactions st))%nat.
Proof.
  unfold getDueRecurringTransactions.
  rewrite (Permutation_length (orderByNext_perm _)). apply filter_length_le.
Qed.

Lemma generate_ledger (now : Z) (targetDate : option DateString) (N : nat) (st : Store) :
  exists st' res,
    generateTransactionsFromRecurring now targetDate N st = Return st' res /\
    (created res <= N * List.length (recurringTransactions st))%nat /\
    grows st st' /\
    grownBy (addedByRun st (runTarget now targetDate)) (transactions st) (created res)
      (transactions st').
Proof.
  unfold generateTransactionsFromRecurring. fold (runTarget now targetDate).
  set (target := runTarget now targetDate).
  destruct (generateForAll_ledger target N
              (fun r => In r (recurringTransactions st) /\ rt_isActive r = true)
              (getDueRecurringTransactions (formatDateToString target) st) st
              (mkGenerateResult 0 0))
    as (st' & res' & k & Hall & Hk & Hcr & Hg & Hgrown).
  { intros r Hr. apply getDue_In in Hr as [Hin Hdue].
    split; [exact Hin|]. unfold isDue in Hdue.
    destruct (rt_isActive r); [reflexivity|discriminate Hdue]. }
  exists st', res'. split; [exact Hall|]. cbn [created Nat.add] in Hcr. subst k.
  split; [|split; [exact Hg|exact Hgrown]].
  pose proof (getDue_length (formatDateToString target) st) as Hlen. nia.
Qed.

(** X8.  Generation counts what it adds.  It returns on every store; the
    ledger it leaves is longer than the ledger it found by exactly the number
    it reports as created, and that number is at most [maxCatchUpDays] for
    each series of the table. *)
Theorem generation_counts_what_it_adds :
  forall (now : Z) (targetDate : option DateString) (maxCatchUpDays : nat) (st : Store),
    exists st' res,
      generateTransactionsFromRecurring now targetDate maxCatchUpDays st
      = Return st' res /\
      List.length (transactions st')
      = (List.length (transactions st) + created res)%nat /\
      (created res <= maxCatchUpDays * List.length (recurringTransactions st))%nat.
Proof.
  intros now targetDate N st.
  destruct (generate_ledger now targetDate N st) as (st' & res & Hrun & Hk & _ & Hgrown).
  exists st', res. split; [exact Hrun|]. split; [|exact Hk].
  apply (grownBy_length _ _ _ _ Hgrown).
Qed.

Lemma ofDay_le (a b : Z) : ofDay a <= ofDay b <-> a <= b.
Proof. unfold ofDay, MakeDate, msPerDay. lia. Qed.

(** The entries that a run adds, one by one. *)
Lemma generate_added (now : Z) (targetDate : option DateString) (N : nat) (st : Store) :
  exists st' res l,
    generateTransactionsFromRecurring now targetDate N st = Return st' res /\
    grows st st' /\
    transactions st' = transactions st ++ l /\
    forall t, In t l ->
      exists r,
        In r (recurringTransactions st) /\ rt_isActive r = true /\
        generatedEntry r t /\
        isDateValidOccurrence (ofDay (tx_date t)) (recurrenceOf r) = true /\
        rt_nextOccurrence r <= tx_date t <= Day (runTarget now targetDate) /\
        forall t0, In t0 (transactions st) -> ~ sameOccurrence t0 t.
Proof.
  destruct (generate_ledger now targetDate N st) as (st' & res & Hrun & _ & Hg & Hgrown).
  destruct (grownBy_app _ _ _ _ Hgrown) as (l & Hl & _ & Hall).
  exists st', res, l. split; [exact Hrun|]. split; [exact Hg|]. split; [exact Hl|].
  intros t Ht. apply in_split in Ht as (l1 & l2 & ->).
  destruct (Hall l1 t l2 eq_refl) as (r & [Hin Hact] & Hgen & Hv & [Hlo Hhi] & Hfresh).
  exists r. split; [exact Hin|]. split; [exact Hact|]. split; [exact Hgen|].
  split; [exact Hv|]. split; [split; [apply ofDay_le; exact Hlo|]|].
  - apply Day_mono in Hhi. rewrite Day_ofDay in Hhi. exact Hhi.
  - intros t0 H0. apply Hfresh. apply in_or_app. left. exact H0.
Qed.

(** ** Generation, run twice *)

(** Two runs for the same target, the second on the store that the first
    one left. *)
Lemma generate_again (now now' : Z) (targetDate targetDate' : option DateString)
  (N : nat) (st : Store) :
  runTarget now' targetDate' = runTarget now targetDate ->
  exists st1 res1 st2 res2,
    generateTransactionsFromRecurring now targetDate N st = Return st1 res1 /\
    generateTransactionsFromRecurring now' targetDate' N st1 = Return st2 res2 /\
    created res2 = 0%nat /\
    skipped res2 = (created res1 + skipped res1)%nat /\
    transactions st2 = transactions st1 /\
    recurringTransactions st2 = recurringTransactions st.
Proof.
  intros Htarget. unfold generateTransactionsFromRecurring.
  fold (runTarget now targetDate). fold (runTarget now' targetDate').
  rewrite Htarget. generalize (runTarget now targetDate). intros target.
  destruct (generateForAll_again target N
              (getDueRecurringTransactions (formatDateToString target) st) st
              (mkGenerateResult 0 0))
    as (st1 & res1 & E1 & (_ & _ & HR1 & _) & Hagain).
  destruct (Hagain st1 (mkGenerateResult 0 0) (grows_refl st1))
    as (st2 & res2 & E2 & Hcr & HT & _).
  destruct (generateForAll_extends target N
              (getDueRecurringTransactions (formatDateToString target) st) st1
              (mkGenerateResult 0 0))
    as (st2' & res2' & E2' & (_ & _ & HR2 & _)).
  rewrite E2 in E2'. injection E2' as <- <-.
  destruct (generateForAll_path target N
              (getDueRecurringTransactions (formatDateToString target) st) st
              (mkGenerateResult 0 0) st1 (mkGenerateResult 0 0))
    as (sa & ra & sb & rb & Ea & Eb & Hsum).
  rewrite E1 in Ea. injection Ea as <- <-.
  rewrite E2 in Eb. injection Eb as <- <-.
  exists st1, res1, st2, res2. split; [exact E1|].
  rewrite (getDue_same (formatDateToString target) st st1 HR1).
  split; [exact E2|].
  cbn [created skipped] in Hcr, Hsum.
  split; [exact Hcr|]. split; [lia|]. split; [exact HT|]. congruence.
Qed.

(** C3.  Generation run twice for the same target date creates nothing the
    second time.  Both runs return.  The second run reports [created = 0]
    and leaves the ledger and the series as the first run left them: no
    duplicate is created.  Every entry that the first run added is the
    generated entry of a series of the store and is found by the search
    that precedes a creation; and the second run counts as skipped every
    date that the first run counted, as created or as skipped.  The reading
    of the clock plays no part when a target date is given; without a target
    date the same holds for two runs at the same reading of the clock. *)
Theorem generate_twice_creates_nothing :
  forall (now now' : Z) (d : DateString) (maxCatchUpDays : nat) (st : Store),
    (exists st1 res1 l st2 res2,
       generateTransactionsFromRecurring now (Some d) maxCatchUpDays st
       = Return st1 res1 /\
       transactions st1 = transactions st ++ l /\
       List.length l = created res1 /\
       (forall t, In t l ->
          exists r, In r (recurringTransactions st1) /\ generatedEntry r t /\
                    findGenerated r (ofDay (tx_date t)) st1 <> None) /\
       generateTransactionsFromRecurring now' (Some d) maxCatchUpDays st1
       = Return st2 res2 /\
       created res2 = 0%nat /\
       skipped res2 = (created res1 + skipped res1)%nat /\
       transactions st2 = transactions st1 /\
       recurringTransactions st2 = recurringTransactions st1) /\
    (exists st1 res1 st2 res2,
       generateTransactionsFromRecurring now None maxCatchUpDays st = Return st1 res1 /\
       generateTransactionsFromRecurring now None maxCatchUpDays st1 = Return st2 res2 /\
       created res2 = 0%nat /\
       skipped res2 = (created res1 + skipped res1)%nat /\
       transactions st2 = transactions st1 /\
       recurringTransactions st2 = recurringTransactions st1).
Proof.
  intros now now' d N st. split.
  - destruct (generate_again now now' (Some d) (Some d) N st eq_refl)
      as (st1 & res1 & st2 & res2 & E1 & E2 & Hcr & Hsk & HT & HR).
    destruct (generate_ledger now (Some d) N st) as (st1' & res1' & E1' & _ & _ & Hgrown).
    rewrite E1 in E1'. injection E1' as <- <-.
    destruct (generate_extends now (Some d) N st) as (st1' & res1' & E1' & _ & _ & HR1 & _).
    rewrite E1 in E1'. injection E1' as <- <-.
    destruct (grownBy_app _ _ _ _ Hgrown) as (l & Hl & Hlen & Hall).
    exists st1, res1, l, st2, res2.
    split; [exact E1|]. split; [exact Hl|]. split; [exact Hlen|].
    split; [|split; [exact E2|split; [exact Hcr|split; [exact Hsk|split;
                                                        [exact HT|congruence]]]]].
    intros t Ht. pose proof Ht as Hsplit. apply in_split in Hsplit as (l1 & l2 & E).
    destruct (Hall l1 t l2 E) as (r & [Hin _] & Hgen & _).
    exists r. split; [rewrite HR1; exact Hin|]. split; [exact Hgen|].
    destruct Hgen as (Hu & _ & _ & _ & _ & Hr & _).
    unfold findGenerated. intros Hnone.
    assert (Hin1 : In t (transactions st1))
      by (rewrite Hl; apply in_or_app; right; exact Ht).
    pose proof (find_none _ _ Hnone t Hin1) as Hf. cbn beta in Hf.
    rewrite Hu, Hr, Nat.eqb_refl, eqOptId_refl, Z.eqb_refl in Hf. discriminate Hf.
  - destruct (generate_again now now None None N st eq_refl)
      as (st1 & res1 & st2 & res2 & E1 & E2 & Hcr & Hsk & HT & HR).
    destruct (generate_extends now None N st) as (st1' & res1' & E1' & _ & _ & HR1 & _).
    rewrite E1 in E1'. injection E1' as <- <-.
    exists st1, res1, st2, res2. repeat (split; [assumption|]). congruence.
Qed.

(** X9.  Generation only adds entries to the end of the ledger, and every
    entry it adds is the generated entry of an active series of the store:
    it carries the owner, category, amount and type of the series, refers to
    the series, is no override, and its day is an occurrence of the series
    that is neither before the stored pointer nor after the target date. *)
Theorem generation_adds_occurrences_of_active_series :
  forall (now : Z) (targetDate : option DateString) (maxCatchUpDays : nat) (st : Store),
    exists st' res l,
      generateTransactionsFromRecurring now targetDate maxCatchUpDays st
      = Return st' res /\
      transactions st' = transactions st ++ l /\
      forall t, In t l ->
        exists r,
          In r (recurringTransactions st) /\ rt_isActive r = true /\
          generatedEntry r t /\
          isDateValidOccurrence (ofDay (tx_date t)) (recurrenceOf r) = true /\
          rt_nextOccurrence r <= tx_date t <= Day (runTarget now targetDate).
Proof.
  intros now targetDate N st.
  destruct (generate_added now targetDate N st) as (st' & res & l & Hrun & _ & Hl & Hall).
  exists st', res, l. split; [exact Hrun|]. split; [exact Hl|].
  intros t Ht. destruct (Hall t Ht) as (r & H1 & H2 & H3 & H4 & H5 & _).
  exists r. auto.
Qed.

(** The owner, series and day of an entry. *)
Definition occurrenceKey (t : Transaction) : Id * option Id * Z :=
  (tx_userId t, tx_recurringTransactionId t, tx_date t).

Definition linked (t : Transaction) : bool :=
  match tx_recurringTransactionId t with Some _ => true | None => false end.

(** No two entries that come from a series have the same owner, series and
    day. *)
Definition uniqueOccurrences (ledger : list Transaction) : Prop :=
  NoDup (map occurrenceKey (filter linked ledger)).

Lemma uniqueOccurrences_entry (ledger : list Transaction) (t : Transaction) :
  uniqueOccurrences ledger -> linked t = true ->
  (forall t0, In t0 ledger -> ~ sameOccurrence t0 t) ->
  uniqueOccurrences (ledger ++ [t]).
Proof.
  unfold uniqueOccurrences. intros Hnd Hl Hfresh.
  rewrite filter_app. cbn [filter]. rewrite Hl, map_app. cbn [map].
  apply (Permutation_NoDup (Permutation_cons_append _ _)).
  constructor; [|exact Hnd].
  intros Hin. apply in_map_iff in Hin as (t0 & Hkey & Hin0).
  apply filter_In in Hin0 as [Hin0 _].
  apply (Hfresh t0 Hin0). unfold occurrenceKey in Hkey.
  injection Hkey as H1 H2 H3. repeat split; assumption.
Qed.

(** X10.  Generation creates no duplicate.  When it adds an entry, no entry
    that is in the ledger at that moment (old or just added, generated or
    override) has the same owner, series and day; so a ledger without two
    entries of the same owner, series and day is still one after
    generation. *)
Theorem generation_creates_no_duplicate :
  forall (now : Z) (targetDate : option DateString) (maxCatchUpDays : nat) (st : Store),
    exists st' res l,
      generateTransactionsFromRecurring now targetDate maxCatchUpDays st
      = Return st' res /\
      transactions st' = transactions st ++ l /\
      (forall l1 t l2, l = l1 ++ t :: l2 ->
         forall t0, In t0 (transactions st ++ l1) -> ~ sameOccurrence t0 t) /\
      (uniqueOccurrences (transactions st) -> uniqueOccurrences (transactions st')).
Proof.
  intros now targetDate N st.
  destruct (generate_ledger now targetDate N st) as (st' & res & Hrun & _ & _ & Hgrown).
  destruct (grownBy_app _ _ _ _ Hgrown) as (l & Hl & _ & Hall).
  exists st', res, l. split; [exact Hrun|]. split; [exact Hl|]. split.
  - intros l1 t l2 E. destruct (Hall l1 t l2 E) as (r & _ & _ & _ & _ & Hfresh).
    exact Hfresh.
  - clear Hl Hall. intros Hu. induction Hgrown as [|a b k t Hgrown IH Ht]; [exact Hu|].
    destruct Ht as (r & _ & (_ & _ & _ & _ & _ & Hr & _) & _ & _ & Hfresh).
    apply uniqueOccurrences_entry; [apply IH; exact Hu| |exact Hfresh].
    unfold linked. rewrite Hr. reflexivity.
Qed.

(** ** Scoped delete, then generation *)

Lemma deleteRow_key_gone {A : Type} (key : A -> Id) (i : Id) (l : list A) :
  NoDup (map key l) -> ~ In i (map key (deleteRow key i l)).
Proof.
  induction l as [|x l IH]; cbn; intros Hnd; [tauto|].
  inversion Hnd as [|? ? Hx Hnd']; subst.
  destruct (Nat.eqb (key x) i) eqn:E.
  - apply Nat.eqb_eq in E. subst i. exact Hx.
  - apply Nat.eqb_neq in E. cbn. intros [H|H]; [contradiction|].
    exact (IH Hnd' H).
Qed.

(** What a scoped delete that returns has checked and written. *)
Lemma scoped_delete_returns (id : Id) (eff : DateString) (scope : Scope)
  (st st1 : Store) (dr : DeleteResult) :
  deleteRecurringTransaction id eff scope st = Return st1 dr ->
  exists existing,
    getRecurringTransactionById id st = Some existing /\
    insideWindow eff existing /\
    (scope = future -> st1 = st /\ dr = mkDeleteResult false) /\
    (scope = all ->
     recurringTransactions st1 = deleteRow rt_id id (recurringTransactions st)).
Proof.
  unfold deleteRecurringTransaction.
  destruct (getRecurringTransactionById id st) as [existing|] eqn:Hget; [|discriminate].
  rewrite effective_before_start, effective_after_end.
  destruct (Z.ltb_spec (dayOfString eff) (rt_startDate existing)) as [|Hs]; [discriminate|].
  destruct (match rt_endDate existing with
            | Some e => e <? dayOfString eff
            | None => false
            end) eqn:He; [discriminate|].
  intros H. exists existing. split; [reflexivity|]. split.
  { split; [exact Hs|]. destruct (rt_endDate existing); [apply Z.ltb_ge; exact He|exact I]. }
  split; intros ->.
  - rewrite update_of_unread_keys in H by (repeat split). cbn [bind] in H.
    injection H as <- <-. split; reflexivity.
  - unfold RecurringTransactionModel.deleteRecurringTransaction in H.
    rewrite Hget in H. cbn [bind] in H. injection H as <- _. reflexivity.
Qed.

(** X11.  A delete of scope [future] writes nothing.  The service hands the
    series model an object whose only key is [endDate]; the model reads
    [end_date], finds no column to write and returns the row it looks up.
    So the call returns for every effective date in the window of an
    existing series, and whenever it returns the store is the one it was
    given and the result is [deleted: false]: the series keeps the end date
    it had, and a later generation still adds its entries on and after the
    effective date, as it does for the daily series deleted from
    2026-01-04 on and generated up to 2026-01-10. *)
Theorem future_delete_writes_nothing :
  forall (id : Id) (eff : DateString) (st : Store),
    (forall existing,
       getRecurringTransactionById id st = Some existing ->
       insideWindow eff existing ->
       deleteRecurringTransaction id eff future st = Return st (mkDeleteResult false)) /\
    (forall st1 dr,
       deleteRecurringTransaction id eff future st = Return st1 dr ->
       st1 = st /\ dr = mkDeleteResult false) /\
    (exists st2 l,
       deleteRecurringTransaction 1%nat (mkDateString 2026 1 4) future dailyStore
       = Return dailyStore (mkDeleteResult false) /\
       generateTransactionsFromRecurring 0 (Some (mkDateString 2026 1 10))
         defaultMaxCatchUpDays dailyStore = Return st2 (mkGenerateResult 10 0) /\
       transactions st2 = transactions dailyStore ++ l /\
       map tx_date l = map (fun k => day 2026 1 1 + k) [0; 1; 2; 3; 4; 5; 6; 7; 8; 9] /\
       Forall (fun t => tx_recurringTransactionId t = Some 1%nat) l).
Proof.
  intros id eff st. split; [|split].
  - intros existing Hget Hin. exact (scoped_delete_future id eff st existing Hget Hin).
  - intros st1 dr H.
    destruct (scoped_delete_returns _ _ _ _ _ _ H) as (_ & _ & _ & Hfut & _).
    exact (Hfut eq_refl).
  - eexists. eexists. split; [vm_compute; reflexivity|].
    split; [vm_compute; reflexivity|].
    split; [vm_compute; reflexivity|].
    split; [vm_compute; reflexivity|].
    repeat constructor.
Qed.

(** X12.  A series deleted with scope [all] generates nothing more: no
    entry added by a later generation refers to it. *)
Theorem deleted_series_generates_nothing :
  forall (id : Id) (eff : DateString) (st st1 : Store) (dr : DeleteResult),
    NoDup (map rt_id (recurringTransactions st)) ->
    deleteRecurringTransaction id eff all st = Return st1 dr ->
    forall (now : Z) (targetDate : option DateString) (maxCatchUpDays : nat),
    exists st2 res l,
      generateTransactionsFromRecurring now targetDate maxCatchUpDays st1
      = Return st2 res /\
      transactions st2 = transactions st1 ++ l /\
      forall t, In t l -> tx_recurringTransactionId t <> Some id.
Proof.
  intros id eff st st1 dr Hnd Hdel now targetDate N.
  destruct (scoped_delete_returns _ _ _ _ _ _ Hdel) as (existing & _ & _ & _ & Hall).
  specialize (Hall eq_refl).
  destruct (generate_added now targetDate N st1) as (st2 & res & l & Hrun & _ & Hl & Hadd).
  exists st2, res, l. split; [exact Hrun|]. split; [exact Hl|].
  intros t Ht Hid.
  destruct (Hadd t Ht) as (r & Hin & _ & Hgen & _).
  destruct Hgen as (_ & _ & _ & _ & _ & Hr & _).
  assert (Hrid : rt_id r = id) by congruence.
  apply (deleteRow_key_gone rt_id id _ Hnd). rewrite <- Hall, <- Hrid.
  apply in_map. exact Hin.
Qed.

Lemma deleted_series_generates_nothing_witness :
  exists st1 st2 res l,
    deleteRecurringTransaction 1%nat (mkDateString 2026 1 4) all dailyStore
    = Return st1 (mkDeleteResult true) /\
    generateTransactionsFromRecurring 0 (Some (mkDateString 2026 1 10))
      defaultMaxCatchUpDays st1 = Return st2 res /\
    transactions st2 = transactions st1 ++ l /\
    forall t, In t l -> tx_recurringTransactionId t <> Some 1%nat.
Proof.
  assert (Hdel : exists st1,
            deleteRecurringTransaction 1%nat (mkDateString 2026 1 4) all dailyStore
            = Return st1 (mkDeleteResult true))
    by (eexists; vm_compute; reflexivity).
  destruct Hdel as [st1 Hdel].
  destruct (deleted_series_generates_nothing 1%nat (mkDateString 2026 1 4)
              dailyStore st1 (mkDeleteResult true)
              ltac:(cbn; constructor; [intros []|constructor]) Hdel
              0 (Some (mkDateString 2026 1 10)) defaultMaxCatchUpDays)
    as (st2 & res & l & H).
  exists st1, st2, res, l. split; [exact Hdel|exact H].
Defined.

(** ** The edit of one occurrence *)

(** [t] is an entry of the owner [user] for the series [id] on [day]. *)
Definition entryOf (user id : Id) (day : Z) (t : Transaction) : Prop :=
  tx_userId t = user /\ tx_recurringTransactionId t = Some id /\ tx_date t = day.

Lemma findOnDay_rejects (userId id : Id) (a b : Z) (st : Store) (t : Transaction) :
  findOnDay userId id a b st = None -> In t (transactions st) ->
  Nat.eqb (tx_userId t) userId && (a <=? ofDay (tx_date t)) && (ofDay (tx_date t) <=? b) &&
  eqOptId (tx_recurringTransactionId t) (Some id) = false.
Proof. intros H Hin. unfold findOnDay in H. exact (find_none _ _ H t Hin). Qed.

Lemma Day_effective (eff : DateString) :
  Day (newDate (ds_year eff) (ds_month eff - 1) (ds_day eff)) = dayOfString eff.
Proof. reflexivity. Qed.

Lemma on_effective_day (eff : DateString) (d : Z) :
  let effectiveDateObj :=
    setHours (newDate (ds_year eff) (ds_month eff - 1) (ds_day eff)) 0 0 0 0 in
  (setHours effectiveDateObj 0 0 0 0 <=? ofDay d) &&
  (ofDay d <=? setHours effectiveDateObj 23 59 59 999) = false ->
  d <> dayOfString eff.
Proof.
  cbv zeta.
  rewrite setHours_midnight, setHours_endOfDay, Day_setHours_midnight, Day_effective.
  generalize (dayOfString eff). clear. intros e Hf.
  apply andb_false_iff in Hf as [Hf|Hf]; apply Z.leb_gt in Hf;
    unfold ofDay, MakeDate, msPerDay in Hf; lia.
Qed.

Lemma findOnDay_None (userId id : Id) (eff : DateString) (st : Store) :
  let effectiveDateObj :=
    setHours (newDate (ds_year eff) (ds_month eff - 1) (ds_day eff)) 0 0 0 0 in
  findOnDay userId id (setHours effectiveDateObj 0 0 0 0)
            (setHours effectiveDateObj 23 59 59 999) st = None ->
  forall t, In t (transactions st) -> ~ entryOf userId id (dayOfString eff) t.
Proof.
  intros effObj H t Hin (Hu & Hr & Hd).
  pose proof (findOnDay_rejects _ _ _ _ _ t H Hin) as Hf.
  rewrite Hu, Hr, Nat.eqb_refl, eqOptId_refl, andb_true_r, andb_true_l in Hf.
  exact (on_effective_day eff (tx_date t) Hf Hd).
Qed.

Lemma length_updateRow {A : Type} (key : A -> Id) (i : Id) (f : A -> A) (l : list A) :
  List.length (updateRow key i f l) = List.length l.
Proof.
  induction l as [|x l IH]; cbn; [reflexivity|].
  destruct (Nat.eqb (key x) i); cbn; [reflexivity|rewrite IH; reflexivity].
Qed.

Lemma freshId_new (l : list Id) : ~ In (freshId l) l.
Proof.
  unfold freshId. intros Hin.
  pose proof (proj1 (list_max_le l (list_max l)) (Nat.le_refl _)) as Hall.
  rewrite Forall_forall in Hall. specialize (Hall _ Hin). lia.
Qed.

(** The override that the edit of one occurrence leaves in the ledger. *)
Definition overrideOf (existing : RecurringTransaction) (updates : SeriesUpdates)
  (eff : DateString) (t : Transaction) : Prop :=
  entryOf (rt_userId existing) (rt_id existing) (dayOfString eff) t /\
  tx_isOverride t = true /\
  tx_categoryId t = orElse (up_categoryId updates) (rt_categoryId existing) /\
  tx_amount t = orElse (up_amount updates) (rt_amount existing) /\
  tx_type t = orElse (up_type updates) (rt_type existing).

Lemma edit_single_returns (id : Id) (eff : DateString) (updates : SeriesUpdates)
  (st st1 : Store) (er : EditResult) :
  NoDup (map tx_id (transactions st)) ->
  editRecurringTransaction id eff single updates st = Return st1 er ->
  exists existing t0,
    getRecurringTransactionById id st = Some existing /\
    insideWindow eff existing /\
    er = mkEditResult (Some existing) None /\
    recurringTransactions st1 = recurringTransactions st /\
    NoDup (map tx_id (transactions st1)) /\
    In t0 (transactions st1) /\ overrideOf existing updates eff t0 /\
    ((exists t, In t (transactions st) /\
                entryOf (rt_userId existing) id (dayOfString eff) t) /\
     List.length (transactions st1) = List.length (transactions st) \/
     (forall t, In t (transactions st) ->
                ~ entryOf (rt_userId existing) id (dayOfString eff) t) /\
     transactions st1 = transactions st ++ [t0]).
Proof.
  intros Hnd. unfold editRecurringTransaction.
  destruct (getRecurringTransactionById id st) as [existing|] eqn:Hget; [|discriminate].
  assert (Hid : rt_id existing = id) by apply (findRow_Some rt_id _ _ _ Hget).
  rewrite effective_before_start, effective_after_end.
  destruct (Z.ltb_spec (dayOfString eff) (rt_startDate existing)) as [|Hs]; [discriminate|].
  destruct (match rt_endDate existing with
            | Some e => e <? dayOfString eff
            | None => false
            end) eqn:He; [discriminate|].
  assert (Hinside : insideWindow eff existing).
  { split; [exact Hs|]. destruct (rt_endDate existing); [apply Z.ltb_ge; exact He|exact I]. }
  destruct (findOnDay _ _ _ _ st) as [t|] eqn:Hfind.
  - apply findOnDay_Some in Hfind as (Ht & Hu & Hrec & Hdate).
    unfold updateTransaction. cbn [noTransactionUpdate uti_categoryId].
    unfold getTransactionById.
    rewrite (findRow_In_NoDup tx_id _ t Hnd Ht).
    destruct (TransactionModel.writtenReferencesHold st _); [|discriminate].
    cbn [bind]. intros [= <- <-].
    cbn [recurringTransactions transactions set_transactions].
    eexists existing, _. split; [reflexivity|]. split; [exact Hinside|].
    split; [reflexivity|]. split; [reflexivity|].
    split; [rewrite map_key_updateRow by reflexivity; exact Hnd|].
    split.
    { apply (findRow_Some tx_id (tx_id t)).
      apply findRow_updateRow; [reflexivity|].
      apply findRow_In_NoDup; assumption. }
    split.
    { unfold overrideOf, entryOf, applyTransactionUpdate.
      cbn [tx_userId tx_recurringTransactionId tx_date tx_isOverride tx_categoryId
           tx_amount tx_type uti_categoryId uti_amount uti_type uti_date
           uti_recurringTransactionId uti_isOverride orElse].
      rewrite Day_parseDate, Hid. repeat split; try reflexivity. exact Hu. }
    left. split; [|apply length_updateRow].
    exists t. repeat split; assumption.
  - pose proof (findOnDay_None _ _ _ _ Hfind) as Hnone.
    unfold createTransaction.
    cbn [cti_userId cti_categoryId cti_amount cti_type cti_description cti_date
         cti_recurringTransactionId cti_isOverride tx_userId tx_categoryId
         tx_recurringTransactionId].
    destruct (TransactionModel.referencesHold st _ _ _); [|discriminate].
    cbn [bind]. intros [= <- <-].
    cbn [recurringTransactions transactions set_transactions].
    eexists existing, _. split; [reflexivity|]. split; [exact Hinside|].
    split; [reflexivity|]. split; [reflexivity|].
    split.
    { rewrite map_app. cbn [map tx_id].
      apply (Permutation_NoDup (Permutation_cons_append _ _)).
      constructor; [apply freshId_new|exact Hnd]. }
    split; [apply in_or_app; right; left; reflexivity|].
    split.
    { unfold overrideOf, entryOf.
      cbn [tx_userId tx_recurringTransactionId tx_date tx_isOverride tx_categoryId
           tx_amount tx_type].
      rewrite Day_parseDate, Hid. repeat split; reflexivity. }
    right. split; [exact Hnone|reflexivity].
Qed.

(** X13.  The edit of one occurrence writes one override and nothing else.
    When it returns, the table of the series is as it was and the series is
    returned unchanged; the ledger holds an override of the series on the
    effective day with the category, amount and type of the update (those of
    the series for the fields left out); and the ledger has one entry more
    only if the series had no entry on that day, otherwise the entry that was
    there has been rewritten in place. *)
Theorem single_edit_writes_one_override :
  forall (id : Id) (eff : DateString) (updates : SeriesUpdates) (st st1 : Store)
         (er : EditResult),
    NoDup (map tx_id (transactions st)) ->
    editRecurringTransaction id eff single updates st = Return st1 er ->
    exists existing t0,
      getRecurringTransactionById id st = Some existing /\
      er = mkEditResult (Some existing) None /\
      recurringTransactions st1 = recurringTransactions st /\
      In t0 (transactions st1) /\ overrideOf existing updates eff t0 /\
      ((exists t, In t (transactions st) /\
                  entryOf (rt_userId existing) id (dayOfString eff) t) /\
       List.length (transactions st1) = List.length (transactions st) \/
       (forall t, In t (transactions st) ->
                  ~ entryOf (rt_userId existing) id (dayOfString eff) t) /\
       transactions st1 = transactions st ++ [t0]).
Proof.
  intros id eff updates st st1 er Hnd Hedit.
  destruct (edit_single_returns _ _ _ _ _ _ Hnd Hedit)
    as (existing & t0 & H1 & _ & H3 & H4 & _ & H6 & H7 & H8).
  exists existing, t0. auto 10.
Qed.

Lemma single_edit_writes_one_override_witness :
  exists st1 existing t0,
    editRecurringTransaction 1%nat (mkDateString 2026 1 15) single amount150 dailyStore
    = Return st1 (mkEditResult (Some existing) None) /\
    recurringTransactions st1 = recurringTransactions dailyStore /\
    In t0 (transactions st1) /\ overrideOf existing amount150 (mkDateString 2026 1 15) t0.
Proof.
  assert (Hedit : exists st1 er,
            editRecurringTransaction 1%nat (mkDateString 2026 1 15) single amount150
              dailyStore = Return st1 er)
    by (eexists _, _; vm_compute; reflexivity).
  destruct Hedit as (st1 & er & Hedit).
  destruct (single_edit_writes_one_override 1%nat (mkDateString 2026 1 15) amount150
              dailyStore st1 er ltac:(constructor) Hedit)
    as (existing & t0 & _ & Her & Hrows & Hin & Hover & _).
  exists st1, existing, t0. rewrite <- Her. auto.
Defined.

(** X14.  An occurrence that was edited is not generated again: once the
    edit of one occurrence has returned, no later generation adds an entry of
    that series on the effective day, whatever its target date. *)
Theorem edited_occurrence_is_not_regenerated :
  forall (id : Id) (eff : DateString) (updates : SeriesUpdates) (st st1 : Store)
         (er : EditResult),
    NoDup (map rt_id (recurringTransactions st)) ->
    NoDup (map tx_id (transactions st)) ->
    editRecurringTransaction id eff single updates st = Return st1 er ->
    forall (now : Z) (targetDate : option DateString) (maxCatchUpDays : nat),
    exists st2 res l,
      generateTransactionsFromRecurring now targetDate maxCatchUpDays st1
      = Return st2 res /\
      transactions st2 = transactions st1 ++ l /\
      forall t, In t l ->
        ~ (tx_recurringTransactionId t = Some id /\ tx_date t = dayOfString eff).
Proof.
  intros id eff updates st st1 er Hndr Hnd Hedit now targetDate N.
  destruct (edit_single_returns _ _ _ _ _ _ Hnd Hedit)
    as (existing & t0 & Hget & _ & _ & Hrows & _ & Hin0 & Hover & _).
  destruct Hover as ((Hu0 & Hr0 & Hd0) & _).
  destruct (generate_added now targetDate N st1) as (st2 & res & l & Hrun & _ & Hl & Hall).
  exists st2, res, l. split; [exact Hrun|]. split; [exact Hl|].
  intros t Ht [Hid Hdate].
  destruct (Hall t Ht) as (r & Hin & _ & Hgen & _ & _ & Hfresh).
  destruct Hgen as (Hu & _ & _ & _ & _ & Hr & _).
  destruct (findRow_Some rt_id _ _ _ Hget) as [Hex Hexid].
  assert (r = existing).
  { apply (same_key_eq rt_id (recurringTransactions st)); try assumption.
    - rewrite <- Hrows. exact Hin.
    - congruence. }
  subst r. apply (Hfresh t0 Hin0). repeat split; congruence.
Qed.

Lemma edited_occurrence_is_not_regenerated_witness :
  exists st1 st2 res l,
    editRecurringTransaction 1%nat (mkDateString 2026 1 3) single amount150 dailyStore
    = Return st1 (mkEditResult (Some dailySeries) None) /\
    generateTransactionsFromRecurring 0 (Some (mkDateString 2026 1 5))
      defaultMaxCatchUpDays st1 = Return st2 res /\
    transactions st2 = transactions st1 ++ l /\
    forall t, In t l ->
      ~ (tx_recurringTransactionId t = Some 1%nat /\
         tx_date t = dayOfString (mkDateString 2026 1 3)).
Proof.
  assert (Hedit : exists st1,
            editRecurringTransaction 1%nat (mkDateString 2026 1 3) single amount150
              dailyStore = Return st1 (mkEditResult (Some dailySeries) None))
    by (eexists; vm_compute; reflexivity).
  destruct Hedit as (st1 & Hedit).
  destruct (edited_occurrence_is_not_regenerated 1%nat (mkDateString 2026 1 3) amount150
              dailyStore st1 _
              ltac:(cbn; constructor; [intros []|constructor]) ltac:(constructor) Hedit
              0 (Some (mkDateString 2026 1 5)) defaultMaxCatchUpDays)
    as (st2 & res & l & H).
  exists st1, st2, res, l. split; [exact Hedit|exact H].
Defined.

(** X15.  Editing the same occurrence twice leaves one override, not two:
    the second edit finds the entry of the first and rewrites it, so the
    ledger keeps its length and holds the override of the second update. *)
Theorem second_single_edit_rewrites_the_override :
  forall (id : Id) (eff : DateString) (updates updates' : SeriesUpdates)
         (st st1 st2 : Store) (er er' : EditResult),
    NoDup (map tx_id (transactions st)) ->
    editRecurringTransaction id eff single updates st = Return st1 er ->
    editRecurringTransaction id eff single updates' st1 = Return st2 er' ->
    List.length (transactions st2) = List.length (transactions st1) /\
    exists existing t0,
      getRecurringTransactionById id st = Some existing /\
      In t0 (transactions st2) /\ overrideOf existing updates' eff t0.
Proof.
  intros id eff updates updates' st st1 st2 er er' Hnd Hedit Hedit'.
  destruct (edit_single_returns _ _ _ _ _ _ Hnd Hedit)
    as (existing & t0 & Hget & _ & _ & Hrows & Hnd1 & Hin0 & Hover & _).
  destruct (edit_single_returns _ _ _ _ _ _ Hnd1 Hedit')
    as (existing' & t1 & Hget' & _ & _ & _ & _ & Hin1 & Hover' & Hlen).
  assert (existing' = existing).
  { unfold getRecurringTransactionById in *. rewrite Hrows in Hget'. congruence. }
  subst existing'. split; [|exists existing, t1; auto].
  destruct Hlen as [[_ Hlen]|[Hnone _]]; [exact Hlen|].
  exfalso. apply (Hnone t0 Hin0). destruct Hover as [He _].
  destruct (findRow_Some rt_id _ _ _ Hget) as [_ Hid]. rewrite Hid in He. exact He.
Qed.

Lemma second_single_edit_rewrites_the_override_witness :
  exists st1 st2 er er',
    editRecurringTransaction 1%nat (mkDateString 2026 1 15) single amount150 dailyStore
    = Return st1 er /\
    editRecurringTransaction 1%nat (mkDateString 2026 1 15) single noUpdates st1
    = Return st2 er' /\
    List.length (transactions st2) = List.length (transactions st1).
Proof.
  assert (Hedit : exists st1 er,
            editRecurringTransaction 1%nat (mkDateString 2026 1 15) single amount150
              dailyStore = Return st1 er)
    by (eexists _, _; vm_compute; reflexivity).
  destruct Hedit as (st1 & er & Hedit).
  assert (Hedit' : exists st2 er',
            editRecurringTransaction 1%nat (mkDateString 2026 1 15) single noUpdates
              (storeOf (editRecurringTransaction 1%nat (mkDateString 2026 1 15) single
                          amount150 dailyStore)) = Return st2 er')
    by (eexists _, _; vm_compute; reflexivity).
  rewrite Hedit in Hedit'. cbn [storeOf] in Hedit'.
  destruct Hedit' as (st2 & er' & Hedit').
  exists st1, st2, er, er'. split; [exact Hedit|]. split; [exact Hedit'|].
  exact (proj1 (second_single_edit_rewrites_the_override 1%nat (mkDateString 2026 1 15)
                  amount150 noUpdates dailyStore st1 st2 er er' ltac:(constructor)
                  Hedit Hedit')).
Defined.

(** ** The edits of scope [future] and [all] *)

(** X16.  The edit of scope [future] is refused and writes nothing.  Its
    first call hands the series model [{ endDate: .. }], of which the model
    reads no key, so no end date is written; its second call asks the model
    for a row from an object with the keys [userId], [categoryId],
    [startDate], .., of which the model reads [user_id], [start_date] and
    [next_occurrence]: the row has no owner and no dates, and the creation
    is refused.  So the call never returns: whatever the arguments it throws
    and the store is the one it was given, and for an effective date in the
    window of an existing series the exception is the one of the refused
    creation. *)
Theorem future_edit_is_refused :
  forall (id : Id) (eff : DateString) (updates : SeriesUpdates) (st : Store),
    (exists msg, editRecurringTransaction id eff future updates st = Throw st msg) /\
    (forall existing,
       getRecurringTransactionById id st = Some existing ->
       insideWindow eff existing ->
       editRecurringTransaction id eff future updates st
       = Throw st "Invalid prisma.recurringTransaction.create() invocation").
Proof.
  intros id eff updates st. split.
  - unfold editRecurringTransaction.
    destruct (getRecurringTransactionById id st) as [existing|]; [|eexists; reflexivity].
    cbv zeta.
    destruct (_ <? _); [eexists; reflexivity|].
    destruct (afterEnd _ _); [eexists; reflexivity|].
    rewrite update_of_unread_keys by (repeat split). cbn [bind].
    rewrite create_of_service_object. eexists; reflexivity.
  - intros existing Hget Hin. exact (scoped_edit_future id eff updates st existing Hget Hin).
Qed.

Lemma future_edit_is_refused_witness :
  getRecurringTransactionById 1%nat dailyStore = Some dailySeries /\
  insideWindow (mkDateString 2026 1 15) dailySeries /\
  editRecurringTransaction 1%nat (mkDateString 2026 1 15) future amount150 dailyStore
  = Throw dailyStore "Invalid prisma.recurringTransaction.create() invocation".
Proof.
  assert (Hget : getRecurringTransactionById 1%nat dailyStore = Some dailySeries)
    by reflexivity.
  assert (Hin : insideWindow (mkDateString 2026 1 15) dailySeries)
    by (split; [vm_compute; discriminate|exact I]).
  split; [exact Hget|]. split; [exact Hin|].
  exact (proj2 (future_edit_is_refused 1%nat (mkDateString 2026 1 15) amount150
                  dailyStore) dailySeries Hget Hin).
Defined.

(** The columns that an edit of scope [all] can write. *)
Definition editedColumns (updates : SeriesUpdates) (r : RecurringTransaction)
  : RecurringTransaction :=
  mkRecurring (rt_id r) (rt_userId r) (rt_categoryId r)
    (orElse (up_amount updates) (rt_amount r))
    (orElse (up_type updates) (rt_type r))
    (orElse (up_description updates) (rt_description r))
    (orElse (up_frequency updates) (rt_frequency r))
    (rt_startDate r) (rt_endDate r) (rt_nextOccurrence r) (rt_isActive r).

(** X17.  The edit of scope [all] writes the amount, the type, the
    description and the frequency of the series, and nothing else.  The
    service collects the fields of the update under the keys [categoryId],
    [endDate], [nextOccurrence] and [isActive] as well, but the series model
    reads [category_id], [end_date], [next_occurrence] and [is_active]: a
    new category, a new end date and a new active flag are dropped, and the
    pointer is not recomputed when the frequency changes.  For an effective
    date in the window of an existing series the call returns the row with
    the four columns of the update, which is the row then stored under the
    key; the other series, the ledger, the users and the categories are as
    they were. *)
Theorem all_edit_writes_four_columns :
  forall (id : Id) (eff : DateString) (updates : SeriesUpdates) (st : Store)
         (existing : RecurringTransaction),
    getRecurringTransactionById id st = Some existing ->
    insideWindow eff existing ->
    exists st1,
      editRecurringTransaction id eff all updates st
      = Return st1 (mkEditResult (Some (editedColumns updates existing)) None) /\
      getRecurringTransactionById id st1 = Some (editedColumns updates existing) /\
      (forall j, j <> id ->
         getRecurringTransactionById j st1 = getRecurringTransactionById j st) /\
      map rt_id (recurringTransactions st1) = map rt_id (recurringTransactions st) /\
      transactions st1 = transactions st /\
      users st1 = users st /\ categories st1 = categories st.
Proof.
  intros id eff updates st existing Hget Hin.
  destruct (inside_checks _ _ Hin) as [H1 H2].
  unfold editRecurringTransaction.
  rewrite Hget, effective_before_start, effective_after_end, H1, H2.
  cbv zeta. unfold updateRecurringTransaction, readUpdateInput.
  cbn [obj_amount obj_type obj_description obj_frequency].
  destruct (isNoUpdate _) eqn:Hno.
  - assert (E : editedColumns updates existing = existing).
    { unfold isNoUpdate in Hno.
      cbn [uri_categoryId uri_amount uri_type uri_description uri_frequency
           uri_startDate uri_endDate uri_nextOccurrence uri_isActive] in Hno.
      unfold editedColumns.
      destruct (up_amount updates); [discriminate|].
      destruct (up_type updates); [discriminate|].
      destruct (up_description updates); [discriminate|].
      destruct (up_frequency updates); [discriminate|].
      destruct existing; reflexivity. }
    exists st. cbn [bind]. rewrite Hget, E. repeat split; reflexivity.
  - rewrite Hget. cbv zeta.
    cbn [RecurringTransactionModel.writtenReferencesHold uri_categoryId bind].
    eexists. split; [reflexivity|].
    unfold getRecurringTransactionById.
    cbn [recurringTransactions set_recurringTransactions transactions users categories].
    split; [|split; [|split; [|repeat split]]].
    + erewrite findRow_updateRow; [reflexivity|reflexivity|exact Hget].
    + intros j Hj. apply findRow_updateRow_other; [reflexivity|exact Hj].
    + apply map_key_updateRow. reflexivity.
Qed.

Lemma all_edit_writes_four_columns_witness :
  exists st1,
    editRecurringTransaction 1%nat (mkDateString 2026 1 15) all
      (mkUpdates (Some 4%nat) (Some 150) None None (Some weekly)
         (Some (Some (mkDateString 2026 1 31))) (Some false)) dailyStore
    = Return st1
        (mkEditResult
           (Some (mkRecurring 1%nat (rt_userId dailySeries) (rt_categoryId dailySeries)
                    150 (rt_type dailySeries) (rt_description dailySeries) weekly
                    (rt_startDate dailySeries) (rt_endDate dailySeries)
                    (rt_nextOccurrence dailySeries) (rt_isActive dailySeries)))
           None) /\
    transactions st1 = transactions dailyStore.
Proof.
  destruct (all_edit_writes_four_columns 1%nat (mkDateString 2026 1 15)
              (mkUpdates (Some 4%nat) (Some 150) None None (Some weekly)
                 (Some (Some (mkDateString 2026 1 31))) (Some false))
              dailyStore dailySeries eq_refl
              ltac:(split; [vm_compute; discriminate|exact I]))
    as (st1 & Hedit & _ & _ & _ & HT & _).
  exists st1. split; [exact Hedit|exact HT].
Defined.

(** ** Calls that are refused *)

(** X18.  A scoped edit or delete of a series that is not in the table
    throws [Recurring transaction not found], and one whose scope is none of
    the three throws [Invalid scope] once the window check has passed; in
    both cases the store is left as it was. *)
Theorem missing_series_and_invalid_scope_are_refused :
  forall (id : Id) (eff : DateString) (scope : Scope) (updates : SeriesUpdates)
         (st : Store),
    (getRecurringTransactionById id st = None ->
     editRecurringTransaction id eff scope updates st
     = Throw st "Recurring transaction not found" /\
     deleteRecurringTransaction id eff scope st
     = Throw st "Recurring transaction not found") /\
    (forall existing,
       getRecurringTransactionById id st = Some existing ->
       insideWindow eff existing ->
       editRecurringTransaction id eff otherScope updates st = Throw st "Invalid scope" /\
       deleteRecurringTransaction id eff otherScope st = Throw st "Invalid scope").
Proof.
  intros id eff scope updates st. split.
  - intros Hget. unfold editRecurringTransaction, deleteRecurringTransaction.
    rewrite Hget. split; reflexivity.
  - intros existing Hget Hin. destruct (inside_checks _ _ Hin) as [H1 H2].
    unfold editRecurringTransaction, deleteRecurringTransaction.
    rewrite Hget, effective_before_start, effective_after_end, H1, H2.
    split; reflexivity.
Qed.

(** ** The list queries *)

Lemma insertByDate_perm (t : Transaction) (l : list Transaction) :
  Permutation (insertByDate t l) (t :: l).
Proof.
  induction l as [|x l IH]; cbn [insertByDate]; [reflexivity|].
  destruct (tx_date x <? tx_date t); [reflexivity|].
  rewrite IH. apply perm_swap.
Qed.

Lemma orderByDate_perm (l : list Transaction) : Permutation (orderByDate l) l.
Proof.
  induction l as [|x l IH]; cbn [orderByDate fold_right]; [reflexivity|].
  fold (orderByDate l). rewrite insertByDate_perm. constructor. exact IH.
Qed.

(** Later dates first. *)
Definition dateDescending (l : list Transaction) : Prop :=
  StronglySorted (fun a b => tx_date b <= tx_date a) l.

Lemma insertByDate_sorted (t : Transaction) (l : list Transaction) :
  dateDescending l -> dateDescending (insertByDate t l).
Proof.
  unfold dateDescending. intros Hs.
  induction Hs as [|x l Hs IH Hx]; cbn [insertByDate].
  - constructor; constructor.
  - destruct (Z.ltb_spec (tx_date x) (tx_date t)) as [Hlt|Hge].
    + constructor; [constructor; assumption|].
      constructor; [lia|]. rewrite Forall_forall in *. intros y Hy.
      specialize (Hx y Hy). lia.
    + constructor; [exact IH|].
      rewrite Forall_forall in *. intros y Hy.
      apply (Permutation_in _ (insertByDate_perm t l)) in Hy as [<-|Hy];
        [exact Hge|exact (Hx y Hy)].
Qed.

Lemma orderByDate_sorted (l : list Transaction) : dateDescending (orderByDate l).
Proof.
  induction l as [|x l IH]; cbn [orderByDate fold_right]; [constructor|].
  apply insertByDate_sorted. exact IH.
Qed.

(** Earlier pointers first. *)
Definition nextAscending (l : list RecurringTransaction) : Prop :=
  StronglySorted (fun a b => rt_nextOccurrence a <= rt_nextOccurrence b) l.

Lemma insertByNext_sorted (r : RecurringTransaction) (l : list RecurringTransaction) :
  nextAscending l -> nextAscending (insertByNext r l).
Proof.
  unfold nextAscending. intros Hs.
  induction Hs as [|x l Hs IH Hx]; cbn [insertByNext].
  - constructor; constructor.
  - destruct (Z.ltb_spec (rt_nextOccurrence r) (rt_nextOccurrence x)) as [Hlt|Hge].
    + constructor; [constructor; assumption|].
      constructor; [lia|]. rewrite Forall_forall in *. intros y Hy.
      specialize (Hx y Hy). lia.
    + constructor; [exact IH|].
      rewrite Forall_forall in *. intros y Hy.
      apply (Permutation_in _ (insertByNext_perm r l)) in Hy as [<-|Hy];
        [exact Hge|exact (Hx y Hy)].
Qed.

Lemma orderByNext_sorted (l : list RecurringTransaction) : nextAscending (orderByNext l).
Proof.
  induction l as [|x l IH]; cbn [orderByNext fold_right]; [constructor|].
  apply insertByNext_sorted. exact IH.
Qed.

Lemma eqType_eq (a b : TransactionType) : eqType a b = true <-> a = b.
Proof. destruct a, b; cbn; split; congruence. Qed.

Lemma parseDate_ofDay (s : DateString) : parseDate s = ofDay (dayOfString s).
Proof.
  unfold dayOfString, parseDate, newDate, ofDay.
  rewrite Day_MakeDate by (unfold msPerDay; lia). reflexivity.
Qed.

(** X19.  [getAllTransactions] returns exactly the entries that pass every
    filter given (owner, type, category, first and last day, each optional),
    each entry once, later days first; [getTransactionsByUserId] is the same
    query with the owner as its only filter. *)
Theorem getAllTransactions_filters_and_orders :
  forall (userId : option Id) (type : option TransactionType) (categoryId : option Id)
         (startDate endDate : option DateString) (st : Store),
    let result := getAllTransactions userId type categoryId startDate endDate st in
    (forall t,
       In t result <->
       In t (transactions st) /\
       (forall u, userId = Some u -> tx_userId t = u) /\
       (forall ty, type = Some ty -> tx_type t = ty) /\
       (forall c, categoryId = Some c -> tx_categoryId t = c) /\
       (forall s, startDate = Some s -> dayOfString s <= tx_date t) /\
       (forall e, endDate = Some e -> tx_date t <= dayOfString e)) /\
    Permutation result
      (filter (transactionMatches userId type categoryId startDate endDate)
         (transactions st)) /\
    dateDescending result /\
    (forall u, getTransactionsByUserId u st = getAllTransactions (Some u) None None None None st).
Proof.
  intros userId type categoryId startDate endDate st result.
  split; [|split; [apply orderByDate_perm|split; [apply orderByDate_sorted|]]].
  - intros t. unfold result, getAllTransactions.
    split.
    + intros Hin. apply (Permutation_in _ (orderByDate_perm _)) in Hin.
      apply filter_In in Hin as [Hin Hm]. split; [exact Hin|].
      unfold transactionMatches in Hm.
      apply andb_true_iff in Hm as [Hm H5]. apply andb_true_iff in Hm as [Hm H4].
      apply andb_true_iff in Hm as [Hm H3]. apply andb_true_iff in Hm as [H1 H2].
      split; [intros u ->; apply Nat.eqb_eq; exact H1|].
      split; [intros ty ->; apply eqType_eq; exact H2|].
      split; [intros c ->; apply Nat.eqb_eq; exact H3|].
      split.
      * intros s ->. rewrite parseDate_ofDay, Z.leb_le, ofDay_le in H4.
        exact H4.
      * intros e ->. rewrite parseDate_ofDay, Z.leb_le, ofDay_le in H5.
        exact H5.
    + intros (Hin & H1 & H2 & H3 & H4 & H5).
      apply (Permutation_in _ (Permutation_sym (orderByDate_perm _))).
      apply filter_In. split; [exact Hin|].
      unfold transactionMatches. rewrite !andb_true_iff.
      repeat split.
      * destruct userId as [u|]; [apply Nat.eqb_eq; auto|reflexivity].
      * destruct type as [ty|]; [apply eqType_eq; auto|reflexivity].
      * destruct categoryId as [c|]; [apply Nat.eqb_eq; auto|reflexivity].
      * destruct startDate as [s|]; [|reflexivity].
        rewrite parseDate_ofDay, Z.leb_le, ofDay_le. auto.
      * destruct endDate as [e|]; [|reflexivity].
        rewrite parseDate_ofDay, Z.leb_le, ofDay_le. auto.
  - intros u. unfold getTransactionsByUserId, getAllTransactions. f_equal.
    apply filter_ext. intros t. unfold transactionMatches.
    rewrite !andb_true_r. reflexivity.
Qed.

(** X20.  The lists of series.  [getAllRecurringTransactions] returns
    exactly the series that pass the filters given (owner, activity), and
    [getDueRecurringTransactions] exactly the active series whose pointer is
    not after the date and whose end date, if any, is not before it; each
    series comes once, earlier pointers first.  [getRecurringTransactionsByUserId]
    is the first query with the owner as its only filter. *)
Theorem series_lists_filter_and_order :
  forall (user_id : option Id) (is_active : option bool) (date : DateString) (st : Store),
    (forall r,
       In r (getAllRecurringTransactions user_id is_active st) <->
       In r (recurringTransactions st) /\
       (forall u, user_id = Some u -> rt_userId r = u) /\
       (forall b, is_active = Some b -> rt_isActive r = b)) /\
    (forall r,
       In r (getDueRecurringTransactions date st) <->
       In r (recurringTransactions st) /\ rt_isActive r = true /\
       rt_nextOccurrence r <= dayOfString date /\
       match rt_endDate r with Some e => dayOfString date <= e | None => True end) /\
    Permutation (getAllRecurringTransactions user_id is_active st)
      (filter (recurringMatches user_id is_active) (recurringTransactions st)) /\
    Permutation (getDueRecurringTransactions date st)
      (filter (isDue (parseDate date)) (recurringTransactions st)) /\
    nextAscending (getAllRecurringTransactions user_id is_active st) /\
    nextAscending (getDueRecurringTransactions date st) /\
    (forall u, getRecurringTransactionsByUserId u st
               = getAllRecurringTransactions (Some u) None st).
Proof.
  intros user_id is_active date st.
  assert (Hdue : forall r,
            isDue (parseDate date) r = true <->
            rt_isActive r = true /\ rt_nextOccurrence r <= dayOfString date /\
            match rt_endDate r with Some e => dayOfString date <= e | None => True end).
  { intros r. unfold isDue. rewrite parseDate_ofDay, !andb_true_iff, Z.leb_le, ofDay_le.
    destruct (rt_endDate r) as [e|]; [rewrite Z.leb_le, ofDay_le|]; tauto. }
  split; [|split; [|split; [apply orderByNext_perm|split; [apply orderByNext_perm|
    split; [apply orderByNext_sorted|split; [apply orderByNext_sorted|]]]]]].
  - intros r. unfold getAllRecurringTransactions. split.
    + intros Hin. apply (Permutation_in _ (orderByNext_perm _)) in Hin.
      apply filter_In in Hin as [Hin Hm]. split; [exact Hin|].
      unfold recurringMatches in Hm. apply andb_true_iff in Hm as [H1 H2].
      split; [intros u ->; apply Nat.eqb_eq; exact H1|].
      intros b ->. apply Bool.eqb_prop. exact H2.
    + intros (Hin & H1 & H2).
      apply (Permutation_in _ (Permutation_sym (orderByNext_perm _))).
      apply filter_In. split; [exact Hin|].
      unfold recurringMatches. rewrite andb_true_iff. split.
      * destruct user_id as [u|]; [apply Nat.eqb_eq; auto|reflexivity].
      * destruct is_active as [b|]; [|reflexivity].
        rewrite (H2 b eq_refl). apply Bool.eqb_reflx.
  - intros r. unfold getDueRecurringTransactions. cbv zeta. rewrite <- Hdue. split.
    + intros Hin. apply (Permutation_in _ (orderByNext_perm _)) in Hin.
      apply filter_In in Hin. exact Hin.
    + intros Hin. apply (Permutation_in _ (Permutation_sym (orderByNext_perm _))).
      apply filter_In. exact Hin.
  - intros u. unfold getRecurringTransactionsByUserId, getAllRecurringTransactions.
    f_equal. apply filter_ext. intros r. unfold recurringMatches.
    rewrite andb_true_r. reflexivity.
Qed.

(** ** The loops of the merged view *)

Lemma daysAhead_past (c rangeEnd : Z) : rangeEnd < c -> daysAhead c rangeEnd = O.
Proof.
  intros H. unfold daysAhead.
  assert ((rangeEnd - c) / msPerDay < 0)
    by (apply Z.div_lt_upper_bound; unfold msPerDay; lia).
  lia.
Qed.

Lemma daysAhead_O (c rangeEnd : Z) : daysAhead c rangeEnd = O -> rangeEnd < c.
Proof.
  unfold daysAhead. intros H.
  destruct (Z.lt_ge_cases rangeEnd c) as [Hlt|Hge]; [exact Hlt|].
  assert (0 <= (rangeEnd - c) / msPerDay)
    by (apply Z.div_pos; unfold msPerDay; lia).
  lia.
Qed.

Lemma daysAhead_next (c next rangeEnd : Z) :
  c <= rangeEnd -> c + msPerDay <= next ->
  (S (daysAhead next rangeEnd) <= daysAhead c rangeEnd)%nat.
Proof.
  intros Hc Hn. unfold daysAhead.
  assert (0 <= (rangeEnd - c) / msPerDay)
    by (apply Z.div_pos; unfold msPerDay; lia).
  assert ((rangeEnd - next) / msPerDay <= (rangeEnd - c - 1 * msPerDay) / msPerDay)
    by (apply Z.div_le_mono; unfold msPerDay in *; lia).
  assert ((rangeEnd - c - 1 * msPerDay) / msPerDay = (rangeEnd - c) / msPerDay - 1).
  { replace (rangeEnd - c - 1 * msPerDay) with (rangeEnd - c + (-1) * msPerDay) by lia.
    rewrite Z.div_add by (unfold msPerDay; lia). lia. }
  lia.
Qed.

Lemma instancesLoop_enough (r : RecurringTransaction) (real : list Transaction)
  (rangeEnd : Z) (n : nat) :
  forall (m : nat) (c : Z),
    (daysAhead c rangeEnd <= n)%nat -> (daysAhead c rangeEnd <= m)%nat ->
    instancesLoop r real rangeEnd n c = instancesLoop r real rangeEnd m c.
Proof.
  induction n as [|n IH]; intros m c Hn Hm.
  - assert (Hp : rangeEnd < c) by (apply daysAhead_O; lia).
    destruct m as [|m]; [reflexivity|]. cbn [instancesLoop].
    destruct (Z.leb_spec c rangeEnd); [lia|reflexivity].
  - destruct m as [|m].
    + assert (Hp : rangeEnd < c) by (apply daysAhead_O; lia).
      cbn [instancesLoop]. destruct (Z.leb_spec c rangeEnd); [lia|reflexivity].
    + cbn [instancesLoop]. destruct (Z.leb_spec c rangeEnd) as [Hc|Hc]; [|reflexivity].
      f_equal. cbv zeta.
      pose proof (calculateNextOccurrence_day c (rt_frequency r)) as Hd.
      pose proof (daysAhead_next c _ rangeEnd Hc Hd) as Hs.
      destruct (Z.leb_spec (calculateNextOccurrence c (rt_frequency r)) c) as [Hb|Hb];
        [reflexivity|].
      apply IH; lia.
Qed.

Lemma seekLoop_enough (f : FrequencyType) (rangeStart rangeEnd : Z) (n : nat) :
  forall (m : nat) (c : Z),
    (daysAhead c rangeStart <= n)%nat -> (daysAhead c rangeStart <= m)%nat ->
    seekLoop f rangeStart rangeEnd n c = seekLoop f rangeStart rangeEnd m c.
Proof.
  induction n as [|n IH]; intros m c Hn Hm.
  - assert (Hp : rangeStart < c) by (apply daysAhead_O; lia).
    destruct m as [|m]; [reflexivity|]. cbn [seekLoop].
    destruct (Z.ltb_spec c rangeStart); [lia|reflexivity].
  - destruct m as [|m].
    + assert (Hp : rangeStart < c) by (apply daysAhead_O; lia).
      cbn [seekLoop]. destruct (Z.ltb_spec c rangeStart); [lia|reflexivity].
    + cbn [seekLoop]. destruct (Z.ltb_spec c rangeStart) as [Hc|Hc]; [|reflexivity].
      cbv zeta.
      pose proof (calculateNextOccurrence_day c f) as Hd.
      assert (Hc' : c <= rangeStart) by lia.
      pose proof (daysAhead_next c _ rangeStart Hc' Hd) as Hs.
      destruct (rangeEnd <? calculateNextOccurrence c f); [reflexivity|].
      apply IH; lia.
Qed.

(** The second loop from a date, and the first loop from a date. *)
Definition instancesFrom (r : RecurringTransaction) (real : list Transaction)
  (rangeEnd currentDate : Z) : list EffectiveTransaction :=
  instancesLoop r real rangeEnd (daysAhead currentDate rangeEnd) currentDate.

Definition seekFrom (f : FrequencyType) (rangeStart rangeEnd currentDate : Z) : Z :=
  seekLoop f rangeStart rangeEnd (daysAhead currentDate rangeStart) currentDate.

Lemma instancesFrom_step (r : RecurringTransaction) (real : list Transaction)
  (rangeEnd c : Z) :
  instancesFrom r real rangeEnd c
  = if c <=? rangeEnd then
      instancesOn r real c ++
      instancesFrom r real rangeEnd (calculateNextOccurrence c (rt_frequency r))
    else [].
Proof.
  unfold instancesFrom.
  destruct (Z.leb_spec c rangeEnd) as [Hc|Hc].
  - pose proof (calculateNextOccurrence_day c (rt_frequency r)) as Hd.
    pose proof (daysAhead_next c _ rangeEnd Hc Hd) as Hs.
    destruct (daysAhead c rangeEnd) as [|k] eqn:Hk; [lia|].
    cbn [instancesLoop]. destruct (Z.leb_spec c rangeEnd) as [_|]; [|lia].
    f_equal. cbv zeta.
    destruct (Z.leb_spec (calculateNextOccurrence c (rt_frequency r)) c);
      [unfold msPerDay in Hd; lia|].
    apply instancesLoop_enough; lia.
  - rewrite daysAhead_past by lia. reflexivity.
Qed.

Lemma seekFrom_step (f : FrequencyType) (rangeStart rangeEnd c : Z) :
  seekFrom f rangeStart rangeEnd c
  = if c <? rangeStart then
      if rangeEnd <? calculateNextOccurrence c f then c
      else seekFrom f rangeStart rangeEnd (calculateNextOccurrence c f)
    else c.
Proof.
  unfold seekFrom.
  destruct (Z.ltb_spec c rangeStart) as [Hc|Hc].
  - pose proof (calculateNextOccurrence_day c f) as Hd.
    assert (Hc' : c <= rangeStart) by lia.
    pose proof (daysAhead_next c _ rangeStart Hc' Hd) as Hs.
    destruct (daysAhead c rangeStart) as [|k] eqn:Hk; [lia|].
    cbn [seekLoop]. destruct (Z.ltb_spec c rangeStart) as [_|]; [|lia].
    cbv zeta. destruct (rangeEnd <? calculateNextOccurrence c f); [reflexivity|].
    apply seekLoop_enough; lia.
  - destruct (daysAhead c rangeStart); cbn [seekLoop]; [reflexivity|].
    destruct (Z.ltb_spec c rangeStart); [lia|reflexivity].
Qed.

(** X21.  The two loops of [getEffectiveTransactions] end by their own
    tests: every round moves the date forward by a day at least, so a loop
    from a date to the end of its range makes no more rounds than there are
    days between the two, and the guard against a date that does not move
    never fires.  From a date the loops do what their text says: the first
    stops at the first date that is not before the range, or at the last
    one whose successor is still within it; the second collects the
    instances date by date until the range is over. *)
Theorem view_loops_run_to_their_end :
  forall (r : RecurringTransaction) (real : list Transaction)
         (rangeStart rangeEnd c : Z) (n : nat),
    (daysAhead c rangeEnd <= n)%nat ->
    (daysAhead c rangeStart <= n)%nat ->
    instancesLoop r real rangeEnd n c
    = (if c <=? rangeEnd then
         instancesOn r real c ++
         instancesFrom r real rangeEnd (calculateNextOccurrence c (rt_frequency r))
       else []) /\
    seekLoop (rt_frequency r) rangeStart rangeEnd n c
    = (if c <? rangeStart then
         if rangeEnd <? calculateNextOccurrence c (rt_frequency r) then c
         else seekFrom (rt_frequency r) rangeStart rangeEnd
                (calculateNextOccurrence c (rt_frequency r))
       else c).
Proof.
  intros r real rangeStart rangeEnd c n Hn Hm. split.
  - rewrite <- instancesFrom_step. unfold instancesFrom.
    apply instancesLoop_enough; lia.
  - rewrite <- seekFrom_step. unfold seekFrom.
    apply seekLoop_enough; lia.
Qed.

Lemma view_loops_run_to_their_end_witness :
  instancesLoop endOfMonthSeries [] (ofDay 20600) 200 (ofDay 20484)
  = (if ofDay 20484 <=? ofDay 20600 then
       instancesOn endOfMonthSeries [] (ofDay 20484) ++
       instancesFrom endOfMonthSeries [] (ofDay 20600)
         (calculateNextOccurrence (ofDay 20484) (rt_frequency endOfMonthSeries))
     else []) /\
  seekLoop (rt_frequency endOfMonthSeries) (ofDay 20550) (ofDay 20600) 200 (ofDay 20484)
  = (if ofDay 20484 <? ofDay 20550 then
       if ofDay 20600 <? calculateNextOccurrence (ofDay 20484) (rt_frequency endOfMonthSeries)
       then ofDay 20484
       else seekFrom (rt_frequency endOfMonthSeries) (ofDay 20550) (ofDay 20600)
              (calculateNextOccurrence (ofDay 20484) (rt_frequency endOfMonthSeries))
     else ofDay 20484).
Proof.
  apply (view_loops_run_to_their_end endOfMonthSeries [] (ofDay 20550) (ofDay 20600)
           (ofDay 20484) 200).
  - vm_compute. lia.
  - vm_compute. lia.
Defined.

(** ** What the merged view holds *)

Lemma formatDateToString_midnight (t : Z) :
  formatDateToString (setHours t 0 0 0 0) = formatDateToString t.
Proof.
  unfold formatDateToString.
  rewrite getFullYear_midnight, getMonth_midnight, getDate_midnight. reflexivity.
Qed.

Lemma eqDateString_eq (a b : DateString) : eqDateString a b = true <-> a = b.
Proof.
  unfold eqDateString. rewrite !andb_true_iff, !Z.eqb_eq.
  destruct a as [y1 m1 d1], b as [y2 m2 d2]; cbn [ds_year ds_month ds_day]. split.
  - intros [[-> ->] ->]. reflexivity.
  - intros E. injection E as -> -> ->. auto.
Qed.

(** The text of a day says which day it is. *)
Lemma isoDate_inj (a b : Z) : isoDate a = isoDate b -> a = b.
Proof.
  unfold isoDate. intros E. apply (f_equal parseDate) in E.
  rewrite !parseDate_format, !setHours_midnight_ofDay in E.
  apply (f_equal Day) in E. rewrite !Day_ofDay in E. exact E.
Qed.

Lemma Day_instance (d : Z) : Day (parseDate (formatDateToString d)) = Day d.
Proof. rewrite parseDate_format. apply Day_setHours_midnight. Qed.

Lemma isoDate_Day (d : Z) : isoDate (Day d) = formatDateToString d.
Proof. unfold isoDate. rewrite ofDay_Day. apply formatDateToString_midnight. Qed.

(** No row of the list is an entry of the series on the day. *)
Definition noEntry (real : list Transaction) (recurringId : Id) (d : Z) : Prop :=
  forall t, In t real -> tx_recurringTransactionId t = Some recurringId -> tx_date t <> d.

Lemma eqOptId_Some (a : option Id) (i : Id) : eqOptId a (Some i) = true <-> a = Some i.
Proof.
  destruct a as [x|]; cbn [eqOptId]; [rewrite Nat.eqb_eq|]; split; congruence.
Qed.

Lemma hasEntry_false (real : list Transaction) (recurringId : Id) (d : Z) :
  hasEntry real recurringId (formatDateToString d) true = false /\
  hasEntry real recurringId (formatDateToString d) false = false <->
  noEntry real recurringId (Day d).
Proof.
  unfold hasEntry, noEntry. split.
  - intros [Ht Hf] t Hin Hid Hd.
    assert (Hm : eqDateString (isoDate (tx_date t)) (formatDateToString d) &&
                 eqOptId (tx_recurringTransactionId t) (Some recurringId) = true).
    { apply andb_true_iff. split.
      - apply eqDateString_eq. rewrite Hd. apply isoDate_Day.
      - apply eqOptId_Some. exact Hid. }
    destruct (tx_isOverride t) eqn:Ho.
    + assert (E : existsb (fun t =>
                  eqDateString (isoDate (tx_date t)) (formatDateToString d) &&
                  eqOptId (tx_recurringTransactionId t) (Some recurringId) &&
                  Bool.eqb (tx_isOverride t) true) real = true).
      { apply existsb_exists. exists t. split; [exact Hin|]. rewrite Hm, Ho. reflexivity. }
      congruence.
    + assert (E : existsb (fun t =>
                  eqDateString (isoDate (tx_date t)) (formatDateToString d) &&
                  eqOptId (tx_recurringTransactionId t) (Some recurringId) &&
                  Bool.eqb (tx_isOverride t) false) real = true).
      { apply existsb_exists. exists t. split; [exact Hin|]. rewrite Hm, Ho. reflexivity. }
      congruence.
  - intros Hno.
    assert (Hb : forall b,
              existsb (fun t =>
                  eqDateString (isoDate (tx_date t)) (formatDateToString d) &&
                  eqOptId (tx_recurringTransactionId t) (Some recurringId) &&
                  Bool.eqb (tx_isOverride t) b) real = false).
    { intros b. apply not_true_is_false. intros E.
      apply existsb_exists in E as (t & Hin & Hm).
      apply andb_true_iff in Hm as [Hm _]. apply andb_true_iff in Hm as [Hd Hid].
      apply eqDateString_eq in Hd. apply eqOptId_Some in Hid.
      rewrite <- isoDate_Day in Hd. apply isoDate_inj in Hd.
      exact (Hno t Hin Hid Hd). }
    split; apply Hb.
Qed.

(** What one round pushes. *)
Lemma instancesOn_spec (r : RecurringTransaction) (real : list Transaction) (c : Z)
  (v : EffectiveTransaction) :
  In v (instancesOn r real c) <->
  isDateValidOccurrence c (recurrenceOf r) = true /\
  noEntry real (rt_id r) (Day c) /\
  v = instanceOf r (formatDateToString c).
Proof.
  unfold instancesOn. rewrite <- hasEntry_false.
  destruct (isDateValidOccurrence c (recurrenceOf r)); cbv zeta.
  - destruct (hasEntry real (rt_id r) (formatDateToString c) true),
             (hasEntry real (rt_id r) (formatDateToString c) false);
      cbn [negb andb In]; intuition congruence.
  - cbn [In]. intuition congruence.
Qed.

Lemma instancesLoop_In (r : RecurringTransaction) (real : list Transaction)
  (rangeEnd : Z) (v : EffectiveTransaction) (n : nat) :
  forall c, In v (instancesLoop r real rangeEnd n c) ->
            exists d, c <= d <= rangeEnd /\ In v (instancesOn r real d).
Proof.
  induction n as [|n IH]; intros c Hin; [destruct Hin|].
  cbn [instancesLoop] in Hin.
  destruct (Z.leb_spec c rangeEnd) as [Hc|Hc]; [|destruct Hin].
  apply in_app_or in Hin as [Hin|Hin].
  - exists c. split; [lia|exact Hin].
  - cbv zeta in Hin.
    destruct (Z.leb_spec (calculateNextOccurrence c (rt_frequency r)) c) as [Hb|Hb];
      [destruct Hin|].
    destruct (IH _ Hin) as (d & Hd & Hv). exists d. split; [lia|exact Hv].
Qed.

(** Where the first loop stops. *)
Lemma seekLoop_stops (f : FrequencyType) (rangeStart rangeEnd : Z) (n : nat) :
  forall c, (daysAhead c rangeStart <= n)%nat ->
            rangeStart <= seekLoop f rangeStart rangeEnd n c \/
            rangeEnd < calculateNextOccurrence (seekLoop f rangeStart rangeEnd n c) f.
Proof.
  induction n as [|n IH]; intros c Hn.
  - left. cbn [seekLoop]. assert (rangeStart < c) by (apply daysAhead_O; lia). lia.
  - cbn [seekLoop]. destruct (Z.ltb_spec c rangeStart) as [Hc|Hc]; [|left; lia].
    cbv zeta. destruct (Z.ltb_spec rangeEnd (calculateNextOccurrence c f)) as [Hb|Hb];
      [right; exact Hb|].
    apply IH.
    pose proof (calculateNextOccurrence_day c f) as Hd.
    assert (Hc' : c <= rangeStart) by lia.
    pose proof (daysAhead_next c _ rangeStart Hc' Hd). lia.
Qed.

(** The range of a series, as [instancesOfSeries] computes it. *)
Definition rangeStartOf (start : option Z) (r : RecurringTransaction) : Z :=
  match start with
  | Some s => if startOf r <? s then s else startOf r
  | None => startOf r
  end.

Definition rangeEndOf (now : Z) (end_ : option Z) (r : RecurringTransaction) : Z :=
  match end_, endOf r with
  | Some e, None => e
  | Some e, Some re => if e <? re then e else re
  | None, Some re => re
  | None, None => now
  end.

(** The date the second loop starts from. *)
Definition firstOf (now : Z) (start end_ : option Z) (r : RecurringTransaction) : Z :=
  if startOf r <? rangeStartOf start r then
    match rt_frequency r with
    | daily => rangeStartOf start r
    | _ =>
        let found :=
          seekFrom (rt_frequency r) (rangeStartOf start r) (rangeEndOf now end_ r)
            (startOf r) in
        if (found <? rangeStartOf start r) ||
           negb (isDateValidOccurrence found (recurrenceOf r))
        then calculateNextOccurrence found (rt_frequency r)
        else found
    end
  else startOf r.

Lemma instancesOfSeries_unfold (now : Z) (start end_ : option Z)
  (real : list Transaction) (r : RecurringTransaction) :
  instancesOfSeries now start end_ real r
  = instancesFrom r real (rangeEndOf now end_ r) (firstOf now start end_ r).
Proof. reflexivity. Qed.

Lemma firstOf_range (now : Z) (start end_ : option Z) (r : RecurringTransaction) :
  rangeStartOf start r <= firstOf now start end_ r \/
  rangeEndOf now end_ r < firstOf now start end_ r.
Proof.
  unfold firstOf.
  destruct (Z.ltb_spec (startOf r) (rangeStartOf start r)) as [Hs|Hs].
  - assert (Hseek := seekLoop_stops (rt_frequency r) (rangeStartOf start r)
                       (rangeEndOf now end_ r) _ (startOf r) (le_n _)).
    fold (seekFrom (rt_frequency r) (rangeStartOf start r) (rangeEndOf now end_ r)
            (startOf r)) in Hseek.
    pose proof (calculateNextOccurrence_day
                  (seekFrom (rt_frequency r) (rangeStartOf start r)
                     (rangeEndOf now end_ r) (startOf r)) (rt_frequency r)) as Hd.
    revert Hseek Hd.
    generalize (seekFrom (rt_frequency r) (rangeStartOf start r)
                  (rangeEndOf now end_ r) (startOf r)).
    intros found Hseek Hd. cbv zeta.
    assert (Hgen :
      rangeStartOf start r <=
        (if (found <? rangeStartOf start r) ||
            negb (isDateValidOccurrence found (recurrenceOf r))
         then calculateNextOccurrence found (rt_frequency r) else found) \/
      rangeEndOf now end_ r <
        (if (found <? rangeStartOf start r) ||
            negb (isDateValidOccurrence found (recurrenceOf r))
         then calculateNextOccurrence found (rt_frequency r) else found)).
    { unfold msPerDay in Hd.
      destruct (Z.ltb_spec found (rangeStartOf start r)) as [Hf|Hf]; cbn [orb].
      - destruct Hseek as [Hseek|Hseek]; [lia|right; exact Hseek].
      - destruct (negb _); left; lia. }
    destruct (rt_frequency r); [left; lia|exact Hgen..].
  - left. unfold rangeStartOf in *. destruct start as [s|]; [|lia].
    destruct (Z.ltb_spec (startOf r) s); lia.
Qed.

(** The instances of a series: occurrences within the range, with no row. *)
Lemma instancesOfSeries_In (now : Z) (start end_ : option Z) (real : list Transaction)
  (r : RecurringTransaction) (v : EffectiveTransaction) :
  In v (instancesOfSeries now start end_ real r) ->
  exists d, rangeStartOf start r <= d <= rangeEndOf now end_ r /\
            isDateValidOccurrence d (recurrenceOf r) = true /\
            noEntry real (rt_id r) (Day d) /\
            v = instanceOf r (formatDateToString d).
Proof.
  rewrite instancesOfSeries_unfold. unfold instancesFrom. intros Hin.
  apply instancesLoop_In in Hin as (d & Hd & Hv).
  apply instancesOn_spec in Hv as (Hvalid & Hno & ->).
  exists d. split; [|auto].
  destruct (firstOf_range now start end_ r); lia.
Qed.

Lemma insertEffective_perm (x : EffectiveTransaction) (l : list EffectiveTransaction) :
  Permutation (insertEffective x l) (x :: l).
Proof.
  induction l as [|y l IH]; cbn [insertEffective]; [reflexivity|].
  destruct (et_date y <? et_date x); [reflexivity|].
  destruct (et_date y =? et_date x); [reflexivity|].
  rewrite IH. apply perm_swap.
Qed.

Lemma sortEffective_perm (l : list EffectiveTransaction) : Permutation (sortEffective l) l.
Proof.
  induction l as [|x l IH]; cbn [sortEffective fold_right]; [reflexivity|].
  fold (sortEffective l). rewrite insertEffective_perm. constructor. exact IH.
Qed.

(** Later dates first. *)
Definition latestFirst (l : list EffectiveTransaction) : Prop :=
  StronglySorted (fun a b => et_date b <= et_date a) l.

Lemma insertEffective_sorted (x : EffectiveTransaction) (l : list EffectiveTransaction) :
  latestFirst l -> latestFirst (insertEffective x l).
Proof.
  unfold latestFirst. intros Hs.
  induction Hs as [|y l Hs IH Hall]; cbn [insertEffective].
  - constructor; constructor.
  - assert (Hx : et_date y <= et_date x ->
                 StronglySorted (fun a b => et_date b <= et_date a) (x :: y :: l)).
    { intros Hle. constructor; [constructor; assumption|].
      constructor; [exact Hle|].
      eapply Forall_impl; [|exact Hall]. cbv beta. intros b Hb. lia. }
    destruct (Z.ltb_spec (et_date y) (et_date x)) as [Hlt|Hge]; [apply Hx; lia|].
    destruct (Z.eqb_spec (et_date y) (et_date x)) as [He|Hne]; [apply Hx; lia|].
    constructor; [exact IH|].
    eapply Permutation_Forall; [symmetry; apply insertEffective_perm|].
    constructor; [lia|exact Hall].
Qed.

Lemma sortEffective_sorted (l : list EffectiveTransaction) : latestFirst (sortEffective l).
Proof.
  induction l as [|x l IH]; cbn [sortEffective fold_right]; [constructor|].
  apply insertEffective_sorted. exact IH.
Qed.

Lemma ofTransaction_inj (a b : Transaction) : ofTransaction a = ofTransaction b -> a = b.
Proof.
  destruct a as [a1 a2 a3 a4 a5 a6 a7 a8 a9], b as [b1 b2 b3 b4 b5 b6 b7 b8 b9].
  unfold ofTransaction.
  cbn [tx_id tx_userId tx_categoryId tx_amount tx_type tx_description tx_date
       tx_recurringTransactionId tx_isOverride].
  intros E. injection E as -> -> -> -> -> -> -> -> ->. reflexivity.
Qed.

(** The rows that [getEffectiveTransactions] reads. *)
Lemma rowsOfView_In (u : Id) (startDate endDate : option DateString) (st : Store)
  (t : Transaction) :
  In t (getAllTransactions (Some u) None None startDate endDate st) <->
  In t (transactions st) /\ tx_userId t = u /\
  (forall s, startDate = Some s -> dayOfString s <= tx_date t) /\
  (forall e, endDate = Some e -> tx_date t <= dayOfString e).
Proof.
  unfold getAllTransactions.
  split.
  - intros Hin. apply (Permutation_in _ (orderByDate_perm _)) in Hin.
    apply filter_In in Hin as [Hin Hm]. split; [exact Hin|].
    unfold transactionMatches in Hm. rewrite !andb_true_r in Hm.
    apply andb_true_iff in Hm as [Hm H5]. apply andb_true_iff in Hm as [H1 H4].
    split; [apply Nat.eqb_eq; exact H1|]. split.
    + intros s ->. rewrite parseDate_ofDay, Z.leb_le, ofDay_le in H4. exact H4.
    + intros e ->. rewrite parseDate_ofDay, Z.leb_le, ofDay_le in H5. exact H5.
  - intros (Hin & H1 & H4 & H5).
    apply (Permutation_in _ (Permutation_sym (orderByDate_perm _))).
    apply filter_In. split; [exact Hin|].
    unfold transactionMatches. rewrite !andb_true_r, !andb_true_iff.
    split; [split|].
    + apply Nat.eqb_eq. exact H1.
    + destruct startDate as [s|]; [|reflexivity].
      rewrite parseDate_ofDay, Z.leb_le, ofDay_le. auto.
    + destruct endDate as [e|]; [|reflexivity].
      rewrite parseDate_ofDay, Z.leb_le, ofDay_le. auto.
Qed.

(** The series that [getEffectiveTransactions] reads. *)
Lemma seriesOfView_In (u : Id) (st : Store) (r : RecurringTransaction) :
  In r (getAllRecurringTransactions (Some u) (Some true) st) <->
  In r (recurringTransactions st) /\ rt_userId r = u /\ rt_isActive r = true.
Proof.
  unfold getAllRecurringTransactions. split.
  - intros Hin. apply (Permutation_in _ (orderByNext_perm _)) in Hin.
    apply filter_In in Hin as [Hin Hm]. split; [exact Hin|].
    unfold recurringMatches in Hm. apply andb_true_iff in Hm as [H1 H2].
    split; [apply Nat.eqb_eq; exact H1|]. apply Bool.eqb_prop. exact H2.
  - intros (Hin & H1 & H2).
    apply (Permutation_in _ (Permutation_sym (orderByNext_perm _))).
    apply filter_In. split; [exact Hin|].
    unfold recurringMatches. rewrite andb_true_iff. split.
    + apply Nat.eqb_eq. exact H1.
    + rewrite H2. reflexivity.
Qed.

(** The objects of the view, before the sort. *)
Lemma view_In (now : Z) (u : Id) (startDate endDate : option DateString) (st : Store)
  (v : EffectiveTransaction) :
  In v (getEffectiveTransactions now u startDate endDate st) <->
  (exists t, In t (getAllTransactions (Some u) None None startDate endDate st) /\
             v = ofTransaction t) \/
  (exists r, In r (getAllRecurringTransactions (Some u) (Some true) st) /\
             In v (instancesOfSeries now
                     (option_map (fun s => setHours (parseDate s) 0 0 0 0) startDate)
                     (option_map (fun e => setHours (parseDate e) 23 59 59 999) endDate)
                     (getAllTransactions (Some u) None None startDate endDate st) r)).
Proof.
  unfold getEffectiveTransactions. cbv zeta. split.
  - intros Hin. apply (Permutation_in _ (sortEffective_perm _)) in Hin.
    apply in_app_or in Hin as [Hin|Hin].
    + left. apply in_map_iff in Hin as (t & E & Hin). exists t. auto.
    + right. apply in_flat_map in Hin. exact Hin.
  - intros Hin. apply (Permutation_in _ (Permutation_sym (sortEffective_perm _))).
    apply in_or_app. destruct Hin as [(t & Hin & ->)|Hin].
    + left. apply in_map. exact Hin.
    + right. apply in_flat_map. exact Hin.
Qed.

(** X22.  The merged view holds every row of the user within the days asked
    for, each as it is in the ledger, and no other row; whatever else it
    holds carries the made-up id of an instance.  Its objects come with the
    later dates first. *)
Theorem view_holds_the_rows_of_the_range :
  forall (now : Z) (u : Id) (startDate endDate : option DateString) (st : Store),
    let result := getEffectiveTransactions now u startDate endDate st in
    (forall t,
       In (ofTransaction t) result <->
       In t (transactions st) /\ tx_userId t = u /\
       (forall s, startDate = Some s -> dayOfString s <= tx_date t) /\
       (forall e, endDate = Some e -> tx_date t <= dayOfString e)) /\
    (forall v i,
       In v result -> et_id v = RealId i ->
       exists t, In t (transactions st) /\ tx_id t = i /\ v = ofTransaction t) /\
    (forall v,
       In v result ->
       (exists i, et_id v = RealId i) \/
       (exists r, et_id v = VirtualId (rt_id r) (isoDate (et_date v)) /\
                  In r (recurringTransactions st))) /\
    latestFirst result.
Proof.
  intros now u startDate endDate st result.
  assert (Hinst : forall v r,
            In v (instancesOfSeries now
                    (option_map (fun s => setHours (parseDate s) 0 0 0 0) startDate)
                    (option_map (fun e => setHours (parseDate e) 23 59 59 999) endDate)
                    (getAllTransactions (Some u) None None startDate endDate st) r) ->
            et_id v = VirtualId (rt_id r) (isoDate (et_date v))).
  { intros v r Hin. apply instancesOfSeries_In in Hin as (d & _ & _ & _ & ->).
    unfold instanceOf. cbn [et_id et_date]. rewrite Day_instance, isoDate_Day.
    reflexivity. }
  split; [|split; [|split]].
  - intros t. rewrite <- rowsOfView_In. unfold result. rewrite view_In. split.
    + intros [(t' & Hin & E)|(r & _ & Hin)].
      * apply ofTransaction_inj in E. subst t'. exact Hin.
      * apply Hinst in Hin. cbn [ofTransaction et_id] in Hin. discriminate Hin.
    + intros Hin. left. exists t. auto.
  - intros v i Hin Hid. unfold result in Hin. apply view_In in Hin.
    destruct Hin as [(t & Hin & ->)|(r & _ & Hin)].
    + exists t. apply rowsOfView_In in Hin as [Hin _].
      cbn [ofTransaction et_id] in Hid. injection Hid as <-. auto.
    + apply Hinst in Hin. rewrite Hin in Hid. discriminate Hid.
  - intros v Hin. unfold result in Hin. apply view_In in Hin.
    destruct Hin as [(t & Hin & ->)|(r & Hr & Hin)].
    + left. exists (tx_id t). reflexivity.
    + right. exists r. split; [apply Hinst; exact Hin|].
      apply seriesOfView_In in Hr. apply Hr.
  - apply sortEffective_sorted.
Qed.

(** X23.  An instance of the merged view is an occurrence that has no row:
    it belongs to an active series of the user, copies its amount, type,
    category and description, and its day is an occurrence of that series
    within the days asked for (up to the day of the call when neither the
    call nor the series sets an end) on which the ledger holds no entry of
    the series for this user, generated or edited. *)
Theorem view_instances_are_occurrences_without_a_row :
  forall (now : Z) (u : Id) (startDate endDate : option DateString) (st : Store)
         (v : EffectiveTransaction) (recurringId : Id) (dateStr : DateString),
    In v (getEffectiveTransactions now u startDate endDate st) ->
    et_id v = VirtualId recurringId dateStr ->
    exists r,
      In r (recurringTransactions st) /\ rt_id r = recurringId /\
      rt_userId r = u /\ rt_isActive r = true /\
      v = instanceOf r dateStr /\
      dateStr = isoDate (et_date v) /\
      isDateValidOccurrence (ofDay (et_date v)) (recurrenceOf r) = true /\
      (forall s, startDate = Some s -> dayOfString s <= et_date v) /\
      (forall e, endDate = Some e -> et_date v <= dayOfString e) /\
      (endDate = None -> rt_endDate r = None -> et_date v <= Day now) /\
      (forall t, In t (transactions st) -> tx_userId t = u ->
                 tx_recurringTransactionId t = Some recurringId ->
                 tx_date t <> et_date v).
Proof.
  intros now u startDate endDate st v recurringId dateStr Hin Hid.
  apply view_In in Hin. destruct Hin as [(t & _ & ->)|(r & Hr & Hin)];
    [cbn [ofTransaction et_id] in Hid; discriminate Hid|].
  apply instancesOfSeries_In in Hin as (d & Hrange & Hvalid & Hno & ->).
  apply seriesOfView_In in Hr as (Hr & Hu & Ha).
  unfold instanceOf in Hid. cbn [et_id] in Hid. injection Hid as <- <-.
  assert (Hday : et_date (instanceOf r (formatDateToString d)) = Day d)
    by (unfold instanceOf; cbn [et_date]; apply Day_instance).
  rewrite Hday.
  assert (Hs : forall s, startDate = Some s -> dayOfString s <= Day d).
  { intros s ->. cbn [option_map] in Hrange. unfold rangeStartOf in Hrange.
    rewrite parseDate_ofDay, setHours_midnight_ofDay in Hrange.
    rewrite <- (Day_ofDay (dayOfString s)). apply Day_mono.
    destruct (startOf r <? ofDay (dayOfString s)) eqn:E; [lia|].
    apply Z.ltb_ge in E. lia. }
  assert (He : forall e, endDate = Some e -> Day d <= dayOfString e).
  { intros e ->. cbn [option_map] in Hrange. unfold rangeEndOf in Hrange.
    assert (Hd : d <= setHours (parseDate e) 23 59 59 999).
    { destruct (endOf r) as [re|]; [|lia].
      destruct (Z.ltb_spec (setHours (parseDate e) 23 59 59 999) re); lia. }
    apply Day_mono in Hd. rewrite Day_setHours_endOfDay in Hd. exact Hd. }
  exists r. split; [exact Hr|]. split; [reflexivity|]. split; [exact Hu|].
  split; [exact Ha|]. split; [reflexivity|].
  split; [symmetry; apply isoDate_Day|].
  split; [rewrite ofDay_Day, isDateValidOccurrence_midnight; exact Hvalid|].
  split; [exact Hs|]. split; [exact He|]. split.
  - intros -> Hnone. cbn [option_map] in Hrange. unfold rangeEndOf, endOf in Hrange.
    rewrite Hnone in Hrange. cbn [option_map] in Hrange. apply Day_mono. lia.
  - intros t Ht Htu Hrec Hdate. apply (Hno t); [|exact Hrec|exact Hdate].
    apply rowsOfView_In. split; [exact Ht|]. split; [exact Htu|].
    rewrite Hdate. split; assumption.
Qed.

(** ** Every occurrence of a regular series is reached *)

Lemma YearFromDay_mono (a b : Z) : a <= b -> YearFromDay a <= YearFromDay b.
Proof.
  intros H. pose proof (YearFromDay_spec a). pose proof (YearFromDay_spec b).
  destruct (Z.le_gt_cases (YearFromDay a) (YearFromDay b)) as [Hle|Hgt]; [exact Hle|].
  pose proof (DayFromYear_mono (YearFromDay b + 1) (YearFromDay a) ltac:(lia)). lia.
Qed.

(** The day number of the first of the month of an index. *)
Definition firstOfIndex (k : Z) : Z := MakeDay (k / 12) (k mod 12) 1.

Lemma firstOfIndex_succ (k : Z) : firstOfIndex (k + 1) = firstOfIndex k + daysInIndex k.
Proof.
  unfold firstOfIndex, daysInIndex.
  rewrite <- MakeDay_next_month by (apply Z.mod_pos_bound; lia).
  rewrite (MakeDay_index (k / 12) (k mod 12 + 1) 1).
  replace (12 * (k / 12) + (k mod 12 + 1)) with (k + 1)
    by (Z.to_euclidean_division_equations; lia).
  reflexivity.
Qed.

Lemma firstOfIndex_mono (j k : Z) : j <= k -> firstOfIndex j <= firstOfIndex k.
Proof.
  intros H. replace k with (j + (k - j)) by lia.
  assert (Hk : 0 <= k - j) by lia. revert Hk.
  generalize (k - j). apply natlike_ind.
  - rewrite Z.add_0_r. lia.
  - intros i Hi IH. replace (j + Z.succ i) with (j + i + 1) by lia.
    rewrite firstOfIndex_succ. pose proof (daysInIndex_bound (j + i)). lia.
Qed.

Lemma firstOfIndex_civil (n : Z) :
  firstOfIndex (12 * YearFromDay n + MonthFromDay n) <= n
  < firstOfIndex (12 * YearFromDay n + MonthFromDay n + 1).
Proof.
  destruct (civil_valid n) as [Hm Hd]. pose proof (MakeDay_civil n) as E.
  rewrite firstOfIndex_succ. unfold firstOfIndex, daysInIndex.
  rewrite <- MakeDay_index.
  replace ((12 * YearFromDay n + MonthFromDay n) / 12) with (YearFromDay n)
    by (Z.to_euclidean_division_equations; lia).
  replace ((12 * YearFromDay n + MonthFromDay n) mod 12) with (MonthFromDay n)
    by (Z.to_euclidean_division_equations; lia).
  replace (DateFromDay n) with (1 + (DateFromDay n - 1)) in E by lia.
  rewrite MakeDay_date_shift in E. lia.
Qed.

Lemma monthIndex_mono (a b : Z) : a <= b -> monthIndex a <= monthIndex b.
Proof.
  intros H. apply Day_mono in H. unfold monthIndex, getFullYear, getMonth,
    YearFromTime, MonthFromTime.
  pose proof (firstOfIndex_civil (Day a)) as Ha.
  pose proof (firstOfIndex_civil (Day b)) as Hb.
  revert Ha Hb.
  generalize (12 * YearFromDay (Day a) + MonthFromDay (Day a)).
  generalize (12 * YearFromDay (Day b) + MonthFromDay (Day b)).
  intros kb ka Ha Hb.
  destruct (Z.le_gt_cases ka kb) as [Hle|Hgt]; [exact Hle|].
  pose proof (firstOfIndex_mono (kb + 1) ka ltac:(lia)). lia.
Qed.

(** A midnight is known by its year, month and day of the month. *)
Lemma same_fields (a b : Z) :
  isMidnight a -> isMidnight b ->
  getFullYear a = getFullYear b -> getMonth a = getMonth b -> getDate a = getDate b ->
  a = b.
Proof.
  unfold isMidnight. rewrite !setHours_midnight. intros Ha Hb Hy Hm Hd.
  pose proof (MakeDay_fields a) as Ea. pose proof (MakeDay_fields b) as Eb.
  unfold getFullYear, getMonth, getDate in Hy, Hm, Hd.
  rewrite Hy, Hm, Hd, Eb in Ea. rewrite <- Ha, <- Hb, Ea. reflexivity.
Qed.

Lemma monthIndex_fields (a b : Z) :
  monthIndex a = monthIndex b -> getFullYear a = getFullYear b /\ getMonth a = getMonth b.
Proof.
  unfold monthIndex. destruct (fields_valid a) as [Ha _], (fields_valid b) as [Hb _].
  lia.
Qed.

Lemma advance_daily (k : nat) : forall c, advance daily k c = c + Z.of_nat k * msPerDay.
Proof.
  induction k as [|k IH]; intros c; [rewrite advance_O; lia|].
  rewrite advance_S, IH. unfold calculateNextOccurrence. rewrite setDate_shift. lia.
Qed.

Lemma advance_weekly (k : nat) :
  forall c, advance weekly k c = c + 7 * Z.of_nat k * msPerDay.
Proof.
  induction k as [|k IH]; intros c; [rewrite advance_O; lia|].
  rewrite advance_S, IH. unfold calculateNextOccurrence. rewrite setDate_shift. lia.
Qed.

Lemma midnight_days (m : Z) : isMidnight m -> m = Day m * msPerDay.
Proof. unfold isMidnight. rewrite setHours_midnight. intros H. symmetry. exact H. Qed.

(** The occurrences of a regular series are the dates that the advance
    reaches from the start date. *)
Lemma occurrence_reached (r : RecurringTransaction) (m : Z) :
  regularSeries r -> isMidnight m ->
  isDateValidOccurrence m (recurrenceOf r) = true ->
  exists k : nat, advance (rt_frequency r) k (startOf r) = m.
Proof.
  intros Hreg Hm Hv. apply valid_iff_window_pattern in Hv as [Hw Hp].
  apply withinWindow_days in Hw as [Hs _].
  pose proof (midnight_days m Hm) as Em.
  assert (Hsm : startOf r <= m).
  { rewrite startOf_days, Em. unfold msPerDay. lia. }
  unfold regularSeries in Hreg. destruct (rt_frequency r) eqn:Hf.
  - exists (Z.to_nat (Day m - rt_startDate r)).
    rewrite advance_daily, startOf_days, Z2Nat.id by lia. lia.
  - apply (onPattern_weekly m r Hf Hs) in Hp.
    exists (Z.to_nat ((Day m - rt_startDate r) / 7)).
    assert (0 <= (Day m - rt_startDate r) / 7) by (apply Z.div_pos; lia).
    rewrite advance_weekly, startOf_days, Z2Nat.id by lia.
    assert (Day m - rt_startDate r = 7 * ((Day m - rt_startDate r) / 7))
      by (apply Z.div_exact; lia).
    lia.
  - rewrite Hm in Hp. unfold onPattern in Hp. rewrite Hf in Hp.
    destruct (Z.ltb_spec 28 (getDate (startOf r))) as [Hbig|_]; [lia|].
    apply Z.eqb_eq in Hp.
    pose proof (monthIndex_mono _ _ Hsm) as Hmi.
    exists (Z.to_nat (monthIndex m - monthIndex (startOf r))).
    destruct (monthly_keep (startOf r)
                (Z.to_nat (monthIndex m - monthIndex (startOf r))) Hreg) as [Hd Hi].
    rewrite Z2Nat.id in Hi by lia.
    assert (Hi' : monthIndex (advance monthly
                    (Z.to_nat (monthIndex m - monthIndex (startOf r))) (startOf r))
                  = monthIndex m) by lia.
    apply monthIndex_fields in Hi' as [Hy Hmo].
    apply same_fields; [apply advance_midnight, startOf_midnight|exact Hm|
                        exact Hy|exact Hmo|congruence].
  - rewrite Hm in Hp. unfold onPattern in Hp. rewrite Hf in Hp.
    destruct ((getMonth (startOf r) =? 1) && (getDate (startOf r) =? 29)) eqn:Hfeb.
    { exfalso. apply Hreg. apply andb_true_iff in Hfeb as [H1 H2].
      apply Z.eqb_eq in H1, H2. auto. }
    apply andb_true_iff in Hp as [Hmo Hd]. apply Z.eqb_eq in Hmo, Hd.
    assert (Hy : getFullYear (startOf r) <= getFullYear m).
    { unfold getFullYear, YearFromTime. apply YearFromDay_mono, Day_mono, Hsm. }
    exists (Z.to_nat (getFullYear m - getFullYear (startOf r))).
    destruct (yearly_keep (startOf r)
                (Z.to_nat (getFullYear m - getFullYear (startOf r))) Hreg)
      as (Ky & Kmo & Kd).
    rewrite Z2Nat.id in Ky by lia.
    apply same_fields; [apply advance_midnight, startOf_midnight|exact Hm|
                        lia|congruence|congruence].
Qed.

Lemma instancesFrom_reaches (r : RecurringTransaction) (real : list Transaction)
  (rangeEnd : Z) (v : EffectiveTransaction) (k : nat) :
  forall c,
    advance (rt_frequency r) k c <= rangeEnd ->
    In v (instancesOn r real (advance (rt_frequency r) k c)) ->
    In v (instancesFrom r real rangeEnd c).
Proof.
  induction k as [|k IH]; intros c Hle Hin.
  - rewrite advance_O in Hle, Hin. rewrite instancesFrom_step.
    destruct (Z.leb_spec c rangeEnd); [|lia]. apply in_or_app. left. exact Hin.
  - rewrite advance_S in Hle, Hin. rewrite instancesFrom_step.
    pose proof (calculateNextOccurrence_gt c (rt_frequency r)) as Hgt.
    pose proof (advance_ge (rt_frequency r) k
                  (calculateNextOccurrence c (rt_frequency r))) as Hge.
    destruct (Z.leb_spec c rangeEnd); [|lia]. apply in_or_app. right.
    apply IH; assumption.
Qed.

Lemma seekLoop_reaches (f : FrequencyType) (rangeStart rangeEnd : Z) (n : nat) :
  forall (c : Z) (K : nat),
    (daysAhead c rangeStart <= n)%nat ->
    rangeStart <= advance f K c -> advance f K c <= rangeEnd ->
    exists j : nat,
      (j <= K)%nat /\ seekLoop f rangeStart rangeEnd n c = advance f j c /\
      rangeStart <= advance f j c.
Proof.
  induction n as [|n IH]; intros c K Hn Hlo Hhi.
  - exists O. assert (rangeStart < c) by (apply daysAhead_O; lia).
    rewrite advance_O. cbn [seekLoop]. split; [lia|]. split; [reflexivity|lia].
  - cbn [seekLoop]. destruct (Z.ltb_spec c rangeStart) as [Hc|Hc].
    + destruct K as [|K]; [rewrite advance_O in Hlo; lia|].
      rewrite advance_S in Hlo, Hhi. cbv zeta.
      pose proof (advance_ge f K (calculateNextOccurrence c f)) as Hge.
      destruct (Z.ltb_spec rangeEnd (calculateNextOccurrence c f)) as [Hb|Hb]; [lia|].
      pose proof (calculateNextOccurrence_day c f) as Hd.
      assert (Hc' : c <= rangeStart) by lia.
      pose proof (daysAhead_next c _ rangeStart Hc' Hd) as Hs.
      destruct (IH (calculateNextOccurrence c f) K ltac:(lia) Hlo Hhi)
        as (j & Hj & Ej & Hr).
      exists (S j). rewrite advance_S. split; [lia|]. split; assumption.
    + exists O. rewrite advance_O. split; [lia|]. split; [reflexivity|lia].
Qed.

(** The second loop starts at a date from which the advance reaches every
    occurrence of a regular series within the range. *)
Lemma firstOf_reaches (now : Z) (start end_ : option Z) (r : RecurringTransaction)
  (m : Z) :
  (forall s, start = Some s -> isMidnight s) ->
  regularSeries r -> isMidnight m ->
  isDateValidOccurrence m (recurrenceOf r) = true ->
  rangeStartOf start r <= m <= rangeEndOf now end_ r ->
  exists k : nat, advance (rt_frequency r) k (firstOf now start end_ r) = m.
Proof.
  intros Hstart Hreg Hm Hv [Hlo Hhi].
  destruct (occurrence_reached r m Hreg Hm Hv) as [K HK].
  unfold firstOf.
  destruct (Z.ltb_spec (startOf r) (rangeStartOf start r)) as [Hs|Hs];
    [|exists K; exact HK].
  assert (Hseek :
    exists k : nat,
      advance (rt_frequency r) k
        (let found :=
           seekFrom (rt_frequency r) (rangeStartOf start r) (rangeEndOf now end_ r)
             (startOf r) in
         if (found <? rangeStartOf start r) ||
            negb (isDateValidOccurrence found (recurrenceOf r))
         then calculateNextOccurrence found (rt_frequency r)
         else found) = m).
  { cbv zeta. unfold seekFrom.
    destruct (seekLoop_reaches (rt_frequency r) (rangeStartOf start r)
                (rangeEndOf now end_ r) (daysAhead (startOf r) (rangeStartOf start r))
                (startOf r) K (le_n _)) as (j & Hj & Ej & Hr);
      [rewrite HK; exact Hlo|rewrite HK; exact Hhi|].
    rewrite Ej. destruct (Z.ltb_spec (advance (rt_frequency r) j (startOf r))
                            (rangeStartOf start r)) as [Hlt|_]; [lia|].
    rewrite orb_false_l.
    destruct (isDateValidOccurrence (advance (rt_frequency r) j (startOf r))
                (recurrenceOf r)) eqn:Hvj; cbn [negb].
    - exists (K - j)%nat. rewrite <- advance_add.
      replace (j + (K - j))%nat with K by lia. exact HK.
    - assert (j <> K) by (intros ->; rewrite HK in Hvj; congruence).
      exists (K - S j)%nat. rewrite <- advance_succ_r, <- advance_add.
      replace (S j + (K - S j))%nat with K by lia. exact HK. }
  destruct (rt_frequency r) eqn:Hf; [|exact Hseek..].
  assert (Hrs : isMidnight (rangeStartOf start r)).
  { unfold rangeStartOf in *. destruct start as [s|]; [|apply startOf_midnight].
    destruct (startOf r <? s); [apply Hstart; reflexivity|apply startOf_midnight]. }
  apply midnight_days in Hrs. pose proof (midnight_days m Hm) as Em.
  assert (Hdays : Day (rangeStartOf start r) <= Day m) by (apply Day_mono; exact Hlo).
  exists (Z.to_nat (Day m - Day (rangeStartOf start r))).
  rewrite advance_daily, Z2Nat.id by lia. lia.
Qed.

(** X24.  The merged view shows every occurrence of a regular series (daily,
    weekly, monthly on a day up to the 28th, yearly on a day other than the
    29th of February) that has no row: when the series is active, belongs
    to the user, and a day within the days asked for (not after the time of
    the call when neither the call nor the series sets an end) is an
    occurrence of it with no entry of the series in the ledger of the user,
    then the view holds the instance of the series on that day. *)
Theorem view_shows_every_occurrence_of_a_regular_series :
  forall (now : Z) (u : Id) (startDate endDate : option DateString) (st : Store)
         (r : RecurringTransaction) (d : Z),
    In r (recurringTransactions st) -> rt_userId r = u -> rt_isActive r = true ->
    regularSeries r ->
    isDateValidOccurrence (ofDay d) (recurrenceOf r) = true ->
    (forall s, startDate = Some s -> dayOfString s <= d) ->
    (forall e, endDate = Some e -> d <= dayOfString e) ->
    (endDate = None -> rt_endDate r = None -> ofDay d <= now) ->
    (forall t, In t (transactions st) -> tx_userId t = u ->
               tx_recurringTransactionId t = Some (rt_id r) -> tx_date t <> d) ->
    In (instanceOf r (isoDate d)) (getEffectiveTransactions now u startDate endDate st).
Proof.
  intros now u startDate endDate st r d Hr Hu Ha Hreg Hv Hs He Hnow Hrows.
  apply view_In. right. exists r. split; [apply seriesOfView_In; auto|].
  rewrite instancesOfSeries_unfold.
  pose proof Hv as Hw. apply valid_iff_window_pattern in Hw as [Hw _].
  apply withinWindow_days in Hw as [Hw1 Hw2]. rewrite Day_ofDay in Hw1, Hw2.
  assert (Hlo : rangeStartOf
                  (option_map (fun s => setHours (parseDate s) 0 0 0 0) startDate) r
                <= ofDay d).
  { unfold rangeStartOf.
    assert (startOf r <= ofDay d) by (rewrite startOf_days; unfold ofDay, MakeDate, msPerDay; lia).
    destruct startDate as [s|]; cbn [option_map]; [|assumption].
    rewrite parseDate_ofDay, setHours_midnight_ofDay.
    destruct (startOf r <? ofDay (dayOfString s)); [|assumption].
    apply ofDay_le. apply Hs. reflexivity. }
  assert (Hhi : ofDay d
                <= rangeEndOf now
                     (option_map (fun e => setHours (parseDate e) 23 59 59 999) endDate) r).
  { unfold rangeEndOf, endOf.
    assert (Hend : forall e, d <= e -> ofDay d <= setHours (ofDay e) 23 59 59 999).
    { intros e Hde. rewrite setHours_endOfDay, Day_ofDay. unfold ofDay, MakeDate, msPerDay.
      lia. }
    destruct endDate as [e|]; cbn [option_map].
    - specialize (He e eq_refl). rewrite parseDate_ofDay.
      destruct (rt_endDate r) as [re|]; cbn [option_map]; [|apply Hend; exact He].
      destruct (_ <? _); apply Hend; assumption.
    - destruct (rt_endDate r) as [re|]; cbn [option_map]; [apply Hend; exact Hw2|].
      apply Hnow; reflexivity. }
  destruct (firstOf_reaches now
              (option_map (fun s => setHours (parseDate s) 0 0 0 0) startDate)
              (option_map (fun e => setHours (parseDate e) 23 59 59 999) endDate)
              r (ofDay d)) as [k Hk].
  - intros s E. destruct startDate as [s0|]; [|discriminate E].
    cbn [option_map] in E. injection E as <-. apply isMidnight_setHours.
  - exact Hreg.
  - apply isMidnight_ofDay.
  - exact Hv.
  - split; assumption.
  - apply (instancesFrom_reaches r _ _ _ k); rewrite Hk; [exact Hhi|].
    apply instancesOn_spec. split; [exact Hv|]. split; [|reflexivity].
    rewrite Day_ofDay. intros t Ht Hrec. apply rowsOfView_In in Ht as (Ht & Htu & _).
    apply Hrows; assumption.
Qed.

(** X25.  The occurrences of a regular series are the dates of its
    advance: a midnight is an occurrence of a regular series exactly when
    some number of advances leads from the start date to it and it is not
    after the end date. *)
Theorem regular_occurrences_are_the_advances :
  forall (r : RecurringTransaction) (m : Z),
    regularSeries r -> isMidnight m ->
    (isDateValidOccurrence m (recurrenceOf r) = true <->
     (exists k : nat, advance (rt_frequency r) k (startOf r) = m) /\
     match rt_endDate r with Some e => Day m <= e | None => True end).
Proof.
  intros r m Hreg Hm. split.
  - intros Hv. split; [apply occurrence_reached; assumption|].
    apply valid_iff_window_pattern in Hv as [Hw _].
    apply withinWindow_days in Hw. apply Hw.
  - intros [[k Hk] He].
    assert (Hon : forall j, onPattern (advance (rt_frequency r) j (startOf r)) r = true).
    { induction j as [|j IH].
      - rewrite advance_O. unfold onPattern, regularSeries in *.
        destruct (rt_frequency r).
        + reflexivity.
        + rewrite Z.sub_diag, Z.eqb_refl. reflexivity.
        + destruct (Z.ltb_spec 28 (getDate (startOf r))); [lia|apply Z.eqb_refl].
        + destruct ((getMonth (startOf r) =? 1) && (getDate (startOf r) =? 29)) eqn:E.
          * exfalso. apply Hreg. apply andb_true_iff in E as [H1 H2].
            apply Z.eqb_eq in H1, H2. auto.
          * rewrite !Z.eqb_refl. reflexivity.
      - rewrite advance_succ_r. apply onPattern_advance; [exact Hreg| |exact IH].
        apply advance_ge. }
    apply valid_iff_window_pattern. split.
    + apply withinWindow_days. split; [|exact He].
      pose proof (advance_ge (rt_frequency r) k (startOf r)) as Hge.
      rewrite Hk in Hge. apply Day_mono in Hge.
      rewrite startOf_days in Hge. unfold Day at 1 in Hge.
      rewrite Z.div_mul in Hge by (unfold msPerDay; lia). exact Hge.
    + rewrite Hm, <- Hk. apply Hon.
Qed.

Lemma regular_occurrences_are_the_advances_witness :
  isDateValidOccurrence (ofDay (day 2026 1 15)) (recurrenceOf dailySeries) = true <->
  (exists k : nat,
     advance (rt_frequency dailySeries) k (startOf dailySeries) = ofDay (day 2026 1 15)) /\
  match rt_endDate dailySeries with
  | Some e => Day (ofDay (day 2026 1 15)) <= e
  | None => True
  end.
Proof.
  apply (regular_occurrences_are_the_advances dailySeries (ofDay (day 2026 1 15))).
  - exact I.
  - apply isMidnight_ofDay.
Defined.

(** ** The rows of the two tables *)

Lemma findRow_snoc {A : Type} (key : A -> Id) (i : Id) (l : list A) (x : A) :
  findRow key i (l ++ [x])
  = match findRow key i l with
    | Some y => Some y
    | None => if Nat.eqb (key x) i then Some x else None
    end.
Proof.
  unfold findRow. induction l as [|y l IH]; cbn [app find]; [reflexivity|].
  destruct (Nat.eqb (key y) i); [reflexivity|exact IH].
Qed.

Lemma findRow_fresh {A : Type} (key : A -> Id) (l : list A) :
  findRow key (freshId (map key l)) l = None.
Proof.
  destruct (findRow key (freshId (map key l)) l) as [y|] eqn:E; [|reflexivity].
  apply findRow_Some in E as [Hin Hk]. exfalso.
  apply (freshId_new (map key l)). rewrite <- Hk. apply in_map. exact Hin.
Qed.

Lemma findRow_deleteRow_other {A : Type} (key : A -> Id) (i j : Id) (l : list A) :
  i <> j -> findRow key i (deleteRow key j l) = findRow key i l.
Proof.
  intros Hne. unfold findRow. induction l as [|y l IH]; cbn [deleteRow find]; [reflexivity|].
  destruct (Nat.eqb_spec (key y) j) as [Ej|Ej].
  - destruct (Nat.eqb_spec (key y) i); [congruence|reflexivity].
  - cbn [find]. destruct (Nat.eqb (key y) i); [reflexivity|exact IH].
Qed.

Lemma length_deleteRow {A : Type} (key : A -> Id) (i : Id) (l : list A) (x : A) :
  findRow key i l = Some x -> S (List.length (deleteRow key i l)) = List.length l.
Proof.
  unfold findRow. induction l as [|y l IH]; cbn [deleteRow find List.length];
    [discriminate|].
  destruct (Nat.eqb (key y) i); [reflexivity|].
  intros H. cbn [List.length]. rewrite (IH H). reflexivity.
Qed.

(** X26.  A transaction that [createTransaction] returns is in the ledger
    under a key that no older row has: the lookup by this key finds it,
    every other lookup answers as before, and the list of its owner holds
    it.  It carries the fields of the input, with the day of the date
    string as its date, no description for an empty one, and no override
    mark unless the input sets one; the table of the series is as it was. *)
Theorem created_transaction_is_found :
  forall (input : CreateTransactionInput) (st st' : Store) (row : Transaction),
    createTransaction input st = Return st' row ->
    getTransactionById (tx_id row) st = None /\
    getTransactionById (tx_id row) st' = Some row /\
    (forall i, i <> tx_id row -> getTransactionById i st' = getTransactionById i st) /\
    transactions st' = transactions st ++ [row] /\
    In row (getTransactionsByUserId (cti_userId input) st') /\
    row = mkTransaction (tx_id row) (cti_userId input) (cti_categoryId input)
            (cti_amount input) (cti_type input) (orNull (cti_description input))
            (dayOfString (cti_date input)) (cti_recurringTransactionId input)
            (match cti_isOverride input with Some b => b | None => false end) /\
    recurringTransactions st' = recurringTransactions st.
Proof.
  intros input st st' row H. unfold createTransaction in H. cbv zeta in H.
  destruct (TransactionModel.referencesHold _ _ _ _); [|discriminate H].
  injection H as <- <-.
  cbn [tx_id transactions set_transactions recurringTransactions].
  unfold getTransactionById. cbn [transactions set_transactions].
  split; [apply findRow_fresh|].
  split; [rewrite findRow_snoc, findRow_fresh; cbn [tx_id]; rewrite Nat.eqb_refl;
          reflexivity|].
  split.
  { intros i Hi. rewrite findRow_snoc.
    destruct (findRow tx_id i (transactions st)); [reflexivity|].
    cbn [tx_id]. destruct (Nat.eqb_spec (freshId (map tx_id (transactions st))) i);
      [congruence|reflexivity]. }
  split; [reflexivity|].
  split; [|split; reflexivity].
  unfold getTransactionsByUserId. cbn [transactions set_transactions].
  apply (Permutation_in _ (Permutation_sym (orderByDate_perm _))).
  apply filter_In. split; [apply in_or_app; right; left; reflexivity|].
  cbn [tx_userId]. apply Nat.eqb_refl.
Qed.

(** X27.  A series that [createRecurringTransaction] returns is in the table
    under a key that no older series has: the lookup by this key finds it,
    every other lookup answers as before, and the list of its owner holds
    it.  It is active unless the input says otherwise, and the ledger is as
    it was. *)
Theorem created_series_is_found :
  forall (input : CreateRecurringTransactionInput) (st st' : Store)
         (row : RecurringTransaction),
    createRecurringTransaction input st = Return st' row ->
    getRecurringTransactionById (rt_id row) st = None /\
    getRecurringTransactionById (rt_id row) st' = Some row /\
    (forall i, i <> rt_id row ->
               getRecurringTransactionById i st' = getRecurringTransactionById i st) /\
    recurringTransactions st' = recurringTransactions st ++ [row] /\
    In row (getRecurringTransactionsByUserId (cri_userId input) st') /\
    rt_isActive row = match cri_isActive input with Some b => b | None => true end /\
    rt_startDate row = dayOfString (cri_startDate input) /\
    rt_nextOccurrence row = dayOfString (cri_nextOccurrence input) /\
    rt_endDate row = option_map dayOfString (cri_endDate input) /\
    transactions st' = transactions st.
Proof.
  intros input st st' row H. unfold createRecurringTransaction in H. cbv zeta in H.
  destruct (RecurringTransactionModel.referencesHold _ _ _); [|discriminate H].
  injection H as <- <-.
  cbn [rt_id rt_isActive rt_startDate rt_nextOccurrence rt_endDate transactions
       set_recurringTransactions recurringTransactions].
  unfold getRecurringTransactionById.
  cbn [recurringTransactions set_recurringTransactions].
  split; [apply findRow_fresh|].
  split; [rewrite findRow_snoc, findRow_fresh; cbn [rt_id]; rewrite Nat.eqb_refl;
          reflexivity|].
  split.
  { intros i Hi. rewrite findRow_snoc.
    destruct (findRow rt_id i (recurringTransactions st)); [reflexivity|].
    cbn [rt_id].
    destruct (Nat.eqb_spec (freshId (map rt_id (recurringTransactions st))) i);
      [congruence|reflexivity]. }
  split; [reflexivity|].
  split; [|repeat split; reflexivity].
  unfold getRecurringTransactionsByUserId.
  cbn [recurringTransactions set_recurringTransactions].
  apply (Permutation_in _ (Permutation_sym (orderByNext_perm _))).
  apply filter_In. split; [apply in_or_app; right; left; reflexivity|].
  cbn [rt_userId]. apply Nat.eqb_refl.
Qed.

(** X28.  [deleteTransaction] of a key that the ledger does not hold throws
    and leaves the store as it is.  Of a key that it holds, in a ledger
    with distinct keys, it removes this one row: the lookup by the key finds
    nothing afterwards, every other lookup answers as before, and the
    series are untouched. *)
Theorem deleted_transaction_is_gone :
  forall (i : Id) (st : Store),
    NoDup (map tx_id (transactions st)) ->
    match getTransactionById i st with
    | None => deleteTransaction i st = Throw st "Record to delete does not exist"
    | Some t =>
        exists st',
          deleteTransaction i st = Return st' true /\
          getTransactionById i st' = None /\
          (forall j, j <> i -> getTransactionById j st' = getTransactionById j st) /\
          S (List.length (transactions st')) = List.length (transactions st) /\
          (forall x, In x (transactions st') -> In x (transactions st)) /\
          recurringTransactions st' = recurringTransactions st
    end.
Proof.
  intros i st Hnd. unfold deleteTransaction.
  destruct (getTransactionById i st) as [t|] eqn:E; [|reflexivity].
  eexists. split; [reflexivity|].
  unfold getTransactionById in *. cbn [transactions set_transactions recurringTransactions].
  split.
  { destruct (findRow tx_id i (deleteRow tx_id i (transactions st))) as [y|] eqn:F;
      [|reflexivity].
    apply findRow_Some in F as [Hin Hk]. exfalso.
    apply (deleteRow_key_gone tx_id i (transactions st) Hnd).
    apply in_map_iff. exists y. split; [exact Hk|exact Hin]. }
  split; [intros j Hj; apply findRow_deleteRow_other; exact Hj|].
  split; [apply (length_deleteRow tx_id i _ t); exact E|].
  split; [|reflexivity].
  intros x Hx.
  assert (Hall : Forall (fun y => In y (transactions st))
                   (deleteRow tx_id i (transactions st))).
  { apply deleteRow_Forall. apply Forall_forall. auto. }
  rewrite Forall_forall in Hall. apply Hall. exact Hx.
Qed.

(** X29.  [updateTransaction] with no field to write is a lookup: it
    returns the row of the key, or nothing for a key that the ledger does
    not hold, and writes nothing.  With a field to write it throws for such
    a key; when it returns, the row of the key is the old row with the
    fields of the input written over it, its key and its owner are as
    before, and every other lookup answers as before. *)
Theorem update_writes_the_fields_of_one_row :
  forall (i : Id) (input : UpdateTransactionInput) (st : Store),
    (noTransactionUpdate input = true ->
     updateTransaction i input st = Return st (getTransactionById i st)) /\
    (noTransactionUpdate input = false -> getTransactionById i st = None ->
     updateTransaction i input st = Throw st "Record to update not found") /\
    (forall st' res,
       noTransactionUpdate input = false ->
       updateTransaction i input st = Return st' res ->
       exists t,
         getTransactionById i st = Some t /\
         res = Some (applyTransactionUpdate input t) /\
         getTransactionById i st' = Some (applyTransactionUpdate input t) /\
         tx_id (applyTransactionUpdate input t) = i /\
         tx_userId (applyTransactionUpdate input t) = tx_userId t /\
         (forall j, j <> i -> getTransactionById j st' = getTransactionById j st) /\
         List.length (transactions st') = List.length (transactions st)).
Proof.
  intros i input st. unfold updateTransaction.
  split; [intros ->; reflexivity|].
  split; [intros -> ->; reflexivity|].
  intros st' res -> H.
  destruct (getTransactionById i st) as [t|] eqn:E; [|discriminate H].
  cbv zeta in H. destruct (TransactionModel.writtenReferencesHold st input);
    [|discriminate H].
  injection H as <- <-. exists t.
  unfold getTransactionById in *. cbn [transactions set_transactions].
  split; [reflexivity|]. split; [reflexivity|].
  split; [apply findRow_updateRow; [reflexivity|exact E]|].
  split; [apply findRow_Some in E as [_ Hk]; exact Hk|].
  split; [reflexivity|].
  split; [intros j Hj; apply findRow_updateRow_other; [reflexivity|exact Hj]|].
  apply length_updateRow.
Qed.

(** ** Witnesses on small stores *)

Definition ledgerRow : Transaction :=
  mkTransaction 1%nat 7%nat 3%nat 100 income None (day 2026 1 15) (Some 1%nat) false.

Definition ledgerInput : CreateTransactionInput :=
  mkCreateTransactionInput 7%nat 3%nat 100 income None (mkDateString 2026 1 15)
    (Some 1%nat) None.

Definition dailyInput : CreateRecurringTransactionInput :=
  mkCreateRecurringInput 7%nat 3%nat 100 income None daily (mkDateString 2026 1 1) None
    (mkDateString 2026 1 1) None.

Definition seriesLessStore : Store := mkStore [7%nat] [3%nat] [] [] [].

Lemma view_instances_are_occurrences_without_a_row_witness :
  exists r,
    In r (recurringTransactions ledgerStore) /\ rt_id r = 1%nat /\
    rt_userId r = 7%nat /\ rt_isActive r = true /\
    instanceOf dailySeries (mkDateString 2026 1 16)
    = instanceOf r (mkDateString 2026 1 16) /\
    mkDateString 2026 1 16
    = isoDate (et_date (instanceOf dailySeries (mkDateString 2026 1 16))) /\
    isDateValidOccurrence
      (ofDay (et_date (instanceOf dailySeries (mkDateString 2026 1 16))))
      (recurrenceOf r) = true /\
    (forall s, Some (mkDateString 2026 1 14) = Some s ->
               dayOfString s <= et_date (instanceOf dailySeries (mkDateString 2026 1 16))) /\
    (forall e, Some (mkDateString 2026 1 16) = Some e ->
               et_date (instanceOf dailySeries (mkDateString 2026 1 16)) <= dayOfString e) /\
    (Some (mkDateString 2026 1 16) = None -> rt_endDate r = None ->
     et_date (instanceOf dailySeries (mkDateString 2026 1 16)) <= Day 0) /\
    (forall t, In t (transactions ledgerStore) -> tx_userId t = 7%nat ->
               tx_recurringTransactionId t = Some 1%nat ->
               tx_date t <> et_date (instanceOf dailySeries (mkDateString 2026 1 16))).
Proof.
  apply (view_instances_are_occurrences_without_a_row 0 7%nat
           (Some (mkDateString 2026 1 14)) (Some (mkDateString 2026 1 16)) ledgerStore
           (instanceOf dailySeries (mkDateString 2026 1 16)) 1%nat
           (mkDateString 2026 1 16)).
  - vm_compute. left. reflexivity.
  - reflexivity.
Defined.

Lemma view_shows_every_occurrence_of_a_regular_series_witness :
  In (instanceOf dailySeries (isoDate (day 2026 1 14)))
     (getEffectiveTransactions 0 7%nat (Some (mkDateString 2026 1 14))
        (Some (mkDateString 2026 1 16)) ledgerStore).
Proof.
  apply (view_shows_every_occurrence_of_a_regular_series 0 7%nat
           (Some (mkDateString 2026 1 14)) (Some (mkDateString 2026 1 16)) ledgerStore
           dailySeries (day 2026 1 14)).
  - left. reflexivity.
  - reflexivity.
  - reflexivity.
  - exact I.
  - vm_compute. reflexivity.
  - intros s E. injection E as <-. vm_compute. discriminate.
  - intros e E. injection E as <-. vm_compute. discriminate.
  - intros E. discriminate E.
  - intros t [<-|[]] _ _. vm_compute. discriminate.
Defined.

(** The hypothesis on the series is needed: the series of [endOfMonthSeries]
    starts on a 31st of January, the view advances from there to the 3rd of
    March and on from 3rd to 3rd, and shows neither the 28th of February nor
    the 31st of March, which are occurrences. *)
Example view_misses_occurrences_of_a_month_end_series :
  map et_id
    (getEffectiveTransactions (ofDay (day 2026 4 30)) 7%nat None None
       (mkStore [7%nat] [3%nat] [endOfMonthSeries] [] []))
  = [VirtualId 1%nat (mkDateString 2026 1 31)] /\
  isDateValidOccurrence (ofDay (day 2026 2 28)) (recurrenceOf endOfMonthSeries) = true /\
  isDateValidOccurrence (ofDay (day 2026 3 31)) (recurrenceOf endOfMonthSeries) = true.
Proof. split; [|split]; vm_compute; reflexivity. Qed.

Lemma created_transaction_is_found_witness :
  getTransactionById (tx_id ledgerRow) dailyStore = None /\
  getTransactionById (tx_id ledgerRow) ledgerStore = Some ledgerRow /\
  (forall i, i <> tx_id ledgerRow ->
             getTransactionById i ledgerStore = getTransactionById i dailyStore) /\
  transactions ledgerStore = transactions dailyStore ++ [ledgerRow] /\
  In ledgerRow (getTransactionsByUserId (cti_userId ledgerInput) ledgerStore) /\
  ledgerRow
  = mkTransaction (tx_id ledgerRow) (cti_userId ledgerInput) (cti_categoryId ledgerInput)
      (cti_amount ledgerInput) (cti_type ledgerInput)
      (orNull (cti_description ledgerInput)) (dayOfString (cti_date ledgerInput))
      (cti_recurringTransactionId ledgerInput)
      (match cti_isOverride ledgerInput with Some b => b | None => false end) /\
  recurringTransactions ledgerStore = recurringTransactions dailyStore.
Proof.
  apply (created_transaction_is_found ledgerInput dailyStore ledgerStore ledgerRow).
  vm_compute. reflexivity.
Defined.

Lemma created_series_is_found_witness :
  getRecurringTransactionById (rt_id dailySeries) seriesLessStore = None /\
  getRecurringTransactionById (rt_id dailySeries) dailyStore = Some dailySeries /\
  (forall i, i <> rt_id dailySeries ->
             getRecurringTransactionById i dailyStore
             = getRecurringTransactionById i seriesLessStore) /\
  recurringTransactions dailyStore = recurringTransactions seriesLessStore ++ [dailySeries] /\
  In dailySeries (getRecurringTransactionsByUserId (cri_userId dailyInput) dailyStore) /\
  rt_isActive dailySeries
  = match cri_isActive dailyInput with Some b => b | None => true end /\
  rt_startDate dailySeries = dayOfString (cri_startDate dailyInput) /\
  rt_nextOccurrence dailySeries = dayOfString (cri_nextOccurrence dailyInput) /\
  rt_endDate dailySeries = option_map dayOfString (cri_endDate dailyInput) /\
  transactions dailyStore = transactions seriesLessStore.
Proof.
  apply (created_series_is_found dailyInput seriesLessStore dailyStore dailySeries).
  vm_compute. reflexivity.
Defined.

Lemma deleted_transaction_is_gone_witness :
  match getTransactionById 1%nat ledgerStore with
  | None => deleteTransaction 1%nat ledgerStore
            = Throw ledgerStore "Record to delete does not exist"
  | Some t =>
      exists st',
        deleteTransaction 1%nat ledgerStore = Return st' true /\
        getTransactionById 1%nat st' = None /\
        (forall j, j <> 1%nat ->
                   getTransactionById j st' = getTransactionById j ledgerStore) /\
        S (List.length (transactions st')) = List.length (transactions ledgerStore) /\
        (forall x, In x (transactions st') -> In x (transactions ledgerStore)) /\
        recurringTransactions st' = recurringTransactions ledgerStore
  end.
Proof.
  apply (deleted_transaction_is_gone 1%nat ledgerStore).
  vm_compute. constructor; [intros []|constructor].
Defined.
